(** * chora-cloud: the SyncRoom workspace coordinator

    A shallow embedding of [src/sync.ts] (class [SyncRoom]), of
    [src/auth.ts] (tokens, passwords and the account functions), of the
    Worker of [src/index.ts] that routes requests to them, and of the
    message and record types of [src/types.ts].

    Modelling conventions.
    - JavaScript numbers that hold versions and clock readings are
      integers ([Z]); the model covers the range in which IEEE doubles
      represent integers exactly (below 2^53).  The one place where the
      source can produce a non-integer number, [parseInt], returns a
      [number] that is either an integer or [NaN].
    - Strings are [string]; a character stands for one code unit, so the
      model covers code units up to U+00FF.
    - Inbound text is whatever a client sends.  The one place where a
      value of another type than the declared one changes what the code
      does to its state is the batch of a push: the batch may not be
      iterable, and an element may be a value without properties (null, a
      number, a string, a boolean), on which the assignment of [version]
      throws; both are modelled ([Batch], [Element]).  An object in a batch
      is read as a change record, whose fields the code never looks at.
      Other fields at other types behave like some value of the declared
      type, or make a property read throw before anything is changed,
      which is [Malformed].
    - The methods of the class mutate [this] and the platform (durable
      storage, sockets); they are functions in a state-and-exception
      monad [M] over a [World].  A thrown exception keeps the mutations
      made before it, as in JavaScript.
    - Everything the platform decides (clock, which sockets are closed,
      which storage writes fail, the cryptographic primitives) is data of
      the [World], so every definition computes.
    - The functions of [auth.ts] and the Worker work on a KV namespace;
      they are functions in a second state-and-exception monad [K] whose
      exceptions carry the message of the [Error] thrown.  What the
      platform draws during a call (clock, UUID, salt) is an argument,
      and its pure functions (JSON for accounts and workspaces, ISO
      dates, PBKDF2, base64, HMAC) are fields of records. *)

From Stdlib Require Import ZArith List String Ascii Bool Lia Sorted.
From Stdlib Require Import DecimalString DecimalPos.
Import ListNotations.

Local Open Scope string_scope.
Local Open Scope list_scope.
Local Open Scope Z_scope.

(* ===================================================================== *)
(** ** Data model ([src/types.ts]) *)
(* ===================================================================== *)

Inductive ChangeType := create | update | delete.

Module EncryptedChange.
Record t := mk {
  id : string;
  entityId : string;
  changeType : ChangeType;
  encryptedData : string;
  nonce : string;
  siteId : string;
  timestamp : string;
  version : Z
}.

(** [change.version = v]: the only field the coordinator ever writes. *)
Definition set_version (v : Z) (c : t) : t :=
  mk (id c) (entityId c) (changeType c) (encryptedData c) (nonce c)
     (siteId c) (timestamp c) v.

(** Everything the client controls except the version field. *)
Definition payload (c : t) :=
  (id c, entityId c, changeType c, encryptedData c, nonce c, siteId c,
   timestamp c).
End EncryptedChange.

(** An element of a pushed batch as [JSON.parse] gives it: an object,
    read as a change record, or a value that has no properties (null, a
    number, a string, a boolean). *)
Inductive Element :=
| Object (change : EncryptedChange.t)
| Primitive.

(** The [changes] of a push, or the body of the stateless POST, as
    [JSON.parse] gives it: a value the loop of [applyChanges] can iterate
    over (an array; a string, whose elements are strings of one character
    and which, when empty, is read as the empty array), or not (null, a
    number, a boolean, an object, or no value at all). *)
Inductive Batch :=
| Iterable (elements : list Element)
| NotIterable.

(** A batch of the declared type [EncryptedChange[]]. *)
Definition records (l : list EncryptedChange.t) : Batch :=
  Iterable (map Object l).

Module PresenceMember.
Record t := mk {
  accountId : string;
  siteId : string;
  joinedAt : Z;
  lastSeen : Z
}.
End PresenceMember.

Module AuthToken.
Record t := mk {
  accountId : string;
  exp : Z;
  iat : Z
}.
End AuthToken.

(** A server-side socket object; sockets are compared by identity. *)
Definition WebSocket := nat.

(** The [Session] interface of sync.ts.  The [webSocket] field is the key
    under which the session is stored.  [joinedAt] and [lastSeen] hold the
    instant whose ISO rendering the source stores. *)
Module Session.
Record t := mk {
  accountId : string;
  siteId : string;
  workspaceId : option string;
  joinedAt : Z;
  lastSeen : Z
}.

Definition set_lastSeen (n : Z) (s : t) : t :=
  mk (accountId s) (siteId s) (workspaceId s) (joinedAt s) n.
Definition set_identity (a site : string) (s : t) : t :=
  mk a site (workspaceId s) (joinedAt s) (lastSeen s).
Definition set_workspaceId (w : option string) (s : t) : t :=
  mk (accountId s) (siteId s) w (joinedAt s) (lastSeen s).
End Session.

(** Client to server messages ([SyncMessage]). *)
Module SyncMessage.
Inductive t :=
| auth (token : string)
| join (workspaceId : string)
| leave
| push (changes : Batch)
| pull (sinceVersion : Z)
| ack (version : Z).
End SyncMessage.

(** What [JSON.parse] makes of the text of a socket message. *)
Inductive Inbound :=
| Malformed      (* JSON.parse throws, or a property read throws before a
                    handler changes anything: the value parsed is null,
                    or the token of an auth message is not a string *)
| UnknownType    (* a value whose type tag has no case *)
| Parsed (msg : SyncMessage.t).

(** Server to client messages ([ServerMessage]). *)
Module ServerMessage.
Inductive t :=
| error (code message : string)
| authenticated (accountId : string)
| joined (workspaceId : string) (currentVersion : Z)
| changes (changes : list EncryptedChange.t) (version : Z)
| pushed (version : Z)
| presence (members : list PresenceMember.t).
End ServerMessage.

(* ===================================================================== *)
(** ** JavaScript primitives used by the source *)
(* ===================================================================== *)

(** Truthiness of a string ([!s] is [negb (truthy s)]). *)
Definition truthy (s : string) : bool :=
  match s with EmptyString => false | String _ _ => true end.

(** Truthiness of a [string | null]. *)
Definition truthy_opt (o : option string) : bool :=
  match o with None => false | Some s => truthy s end.

(** [a || d] for [a : string | null] and a string default. *)
Definition or_default (a : option string) (d : string) : string :=
  match a with
  | Some s => if truthy s then s else d
  | None => d
  end.

(** The result of [parseInt]. *)
Inductive number := Num (z : Z) | NaN.

(** [v > n] for an integer [v]: every comparison with NaN is false. *)
Definition gt_number (v : Z) (n : number) : bool :=
  match n with
  | Num z => z <? v
  | NaN => false
  end.

Definition is_white_space (c : ascii) : bool :=
  let n := nat_of_ascii c in
  existsb (Nat.eqb n) [9; 10; 11; 12; 13; 32; 160]%nat.

Fixpoint trim_start (s : string) : string :=
  match s with
  | String c r => if is_white_space c then trim_start r else s
  | EmptyString => s
  end.

(** Value of a digit in radix [r], if it is one. *)
Definition digit_value (r : Z) (c : ascii) : option Z :=
  let n := Z.of_nat (nat_of_ascii c) in
  let d := if (48 <=? n) && (n <=? 57) then Some (n - 48)
           else if (97 <=? n) && (n <=? 122) then Some (n - 87)
           else if (65 <=? n) && (n <=? 90) then Some (n - 55)
           else None in
  match d with
  | Some v => if v <? r then Some v else None
  | None => None
  end.

(** The longest prefix of radix-[r] digits, read left to right; [None]
    when that prefix is empty. *)
Fixpoint parse_digits (r : Z) (acc : option Z) (s : string) : option Z :=
  match s with
  | String c rest =>
      match digit_value r c with
      | Some d =>
          parse_digits r (Some (match acc with Some a => a * r + d
                                             | None => d end)) rest
      | None => acc
      end
  | EmptyString => acc
  end.

(** [parseInt(s)] with no radix argument (ECMA-262, 19.2.5). *)
Definition parseInt (s : string) : number :=
  let s1 := trim_start s in
  let '(sign, s2) :=
    match s1 with
    | String "-" r => (-1, r)
    | String "+" r => (1, r)
    | _ => (1, s1)
    end in
  let '(radix, s3) :=
    match s2 with
    | String "0" (String "x" r) => (16, r)
    | String "0" (String "X" r) => (16, r)
    | _ => (10, s2)
    end in
  match parse_digits radix None s3 with
  | Some n => Num (sign * n)
  | None => NaN
  end.

(** [s.split(c)] for a one-character separator. *)
Fixpoint split (sep : ascii) (s : string) : list string :=
  match s with
  | EmptyString => [EmptyString]
  | String c r =>
      if Ascii.eqb c sep then EmptyString :: split sep r
      else match split sep r with
           | h :: t => String c h :: t
           | [] => [String c EmptyString]
           end
  end.

(** [s.slice(n)]. *)
Definition slice (n : nat) (s : string) : string :=
  substring n (String.length s - n) s.

(** The decimal rendering of an integer inside a template literal. *)
Definition decimal (z : Z) : string :=
  NilZero.string_of_int (Z.to_int z).

(* ===================================================================== *)
(** ** The world: the instance's fields and the platform around it *)
(* ===================================================================== *)

(** The two keys of [state.storage] the class uses. *)
Record Storage := mkStorage {
  stored_version : option Z;                         (* "version" *)
  stored_changes : option (list EncryptedChange.t)   (* "changes" *)
}.

(** [env]: of the bindings only [SYNC_SECRET] is read by the class. *)
Record Env := mkEnv { SYNC_SECRET : option string }.

(** The two cryptographic steps of [verifyToken], provided by the
    platform ([atob], [JSON.parse], [crypto.subtle]). *)
Record WebCrypto := mkWebCrypto {
  (* JSON.parse(atob(payloadB64)); None when either throws *)
  decode_payload : string -> option AuthToken.t;
  (* crypto.subtle.verify of the payload's HMAC under the secret against
     atob(sigB64); None when atob throws *)
  hmac_verify : string -> string -> AuthToken.t -> option bool
}.

(** What the instance does to the outside, in the order it does it; the
    flag tells whether the call returned ([true]) or threw ([false]). *)
Inductive Effect :=
| PutVersion (v : Z) (ok : bool)
| PutChanges (l : list EncryptedChange.t) (ok : bool)
| SendTo (ws : WebSocket) (m : ServerMessage.t) (ok : bool).

Record World := mkWorld {
  (* private fields of the SyncRoom instance *)
  sessions : list (WebSocket * Session.t);   (* Map, in insertion order *)
  changes : list EncryptedChange.t;
  currentVersion : Z;
  env : Env;
  (* the durable object's storage; survives the instance *)
  storage : Storage;
  (* decided by the platform *)
  crypto : WebCrypto;
  now : Z;                         (* Date.now(), milliseconds *)
  closed : list WebSocket;         (* sockets whose send throws *)
  faults : list bool;              (* next storage.put throws when the head is true *)
  next_socket : WebSocket;         (* allocator of new WebSocketPair() *)
  (* observation *)
  trace : list Effect
}.

Definition with_sessions (x : list (WebSocket * Session.t)) (w : World) :=
  mkWorld x (changes w) (currentVersion w) (env w) (storage w) (crypto w)
          (now w) (closed w) (faults w) (next_socket w) (trace w).
Definition with_changes (x : list EncryptedChange.t) (w : World) :=
  mkWorld (sessions w) x (currentVersion w) (env w) (storage w) (crypto w)
          (now w) (closed w) (faults w) (next_socket w) (trace w).
Definition with_currentVersion (x : Z) (w : World) :=
  mkWorld (sessions w) (changes w) x (env w) (storage w) (crypto w)
          (now w) (closed w) (faults w) (next_socket w) (trace w).
Definition with_storage (x : Storage) (w : World) :=
  mkWorld (sessions w) (changes w) (currentVersion w) (env w) x (crypto w)
          (now w) (closed w) (faults w) (next_socket w) (trace w).
Definition with_faults (x : list bool) (w : World) :=
  mkWorld (sessions w) (changes w) (currentVersion w) (env w) (storage w)
          (crypto w) (now w) (closed w) x (next_socket w) (trace w).
Definition with_next_socket (x : WebSocket) (w : World) :=
  mkWorld (sessions w) (changes w) (currentVersion w) (env w) (storage w)
          (crypto w) (now w) (closed w) (faults w) x (trace w).
Definition with_trace (x : list Effect) (w : World) :=
  mkWorld (sessions w) (changes w) (currentVersion w) (env w) (storage w)
          (crypto w) (now w) (closed w) (faults w) (next_socket w) x.

(** The platform moves on between two calls: the clock, the set of
    closed sockets and the fate of the coming storage writes change. *)
Definition with_platform (n : Z) (c : list WebSocket) (f : list bool)
    (w : World) :=
  mkWorld (sessions w) (changes w) (currentVersion w) (env w) (storage w)
          (crypto w) n c f (next_socket w) (trace w).

Definition emit (e : Effect) (w : World) : World :=
  with_trace (trace w ++ [e]) w.

(* ===================================================================== *)
(** ** State and exceptions *)
(* ===================================================================== *)

Inductive outcome (A : Type) :=
| Return (a : A)
| Throw.
Arguments Return {A} a.
Arguments Throw {A}.

Definition M (A : Type) := World -> outcome A * World.

Definition ret {A} (a : A) : M A := fun w => (Return a, w).

Definition bind {A B} (m : M A) (k : A -> M B) : M B :=
  fun w => match m w with
           | (Return a, w') => k a w'
           | (Throw, w') => (Throw, w')
           end.

Definition throw {A} : M A := fun w => (Throw, w).

(** [try { m } catch { h }]. *)
Definition try_catch {A} (m h : M A) : M A :=
  fun w => match m w with
           | (Return a, w') => (Return a, w')
           | (Throw, w') => h w'
           end.

Definition gets {A} (f : World -> A) : M A := fun w => (Return (f w), w).
Definition modify (f : World -> World) : M unit := fun w => (Return tt, f w).

Declare Scope monad_scope.
Delimit Scope monad_scope with monad.
Notation "x <- m ;; k" := (bind m (fun x => k))
  (at level 61, m at next level, right associativity) : monad_scope.
Notation "m ;; k" := (bind m (fun _ => k))
  (at level 61, right associativity) : monad_scope.
Local Open Scope monad_scope.

(** [for (const x of l) body(x)]. *)
Fixpoint for_of {A} (l : list A) (body : A -> M unit) : M unit :=
  match l with
  | [] => ret tt
  | x :: r => body x ;; for_of r body
  end.

(* ===================================================================== *)
(** ** Platform operations *)
(* ===================================================================== *)

(** [Map<WebSocket, Session>]: an association list with unique keys that
    keeps insertion order, which is the order of iteration. *)
Fixpoint Map_get (ws : WebSocket) (m : list (WebSocket * Session.t))
    : option Session.t :=
  match m with
  | [] => None
  | (k, s) :: r => if Nat.eqb k ws then Some s else Map_get ws r
  end.

Fixpoint Map_set (ws : WebSocket) (s : Session.t)
    (m : list (WebSocket * Session.t)) : list (WebSocket * Session.t) :=
  match m with
  | [] => [(ws, s)]
  | (k, s0) :: r =>
      if Nat.eqb k ws then (k, s) :: r else (k, s0) :: Map_set ws s r
  end.

Definition Map_delete (ws : WebSocket) (m : list (WebSocket * Session.t))
    : list (WebSocket * Session.t) :=
  filter (fun e => negb (Nat.eqb (fst e) ws)) m.

(** A write through the [session] reference held by a handler: the
    object is the one stored in the map under [ws]. *)
Definition update_session (ws : WebSocket) (f : Session.t -> Session.t)
    : M unit :=
  modify (fun w =>
    match Map_get ws (sessions w) with
    | Some s => with_sessions (Map_set ws (f s) (sessions w)) w
    | None => w
    end).

Definition is_closed (ws : WebSocket) (w : World) : bool :=
  existsb (Nat.eqb ws) (closed w).

(** [ws.send(JSON.stringify(message))]: throws on a closed socket. *)
Definition ws_send (ws : WebSocket) (message : ServerMessage.t) : M unit :=
  fun w => if is_closed ws w
           then (Throw, emit (SendTo ws message false) w)
           else (Return tt, emit (SendTo ws message true) w).

(** [await this.state.storage.put(key, value)]: the platform decides
    whether the write succeeds; a failed write throws and stores nothing. *)
Definition storage_put (store : Storage -> Storage) (e : bool -> Effect)
    : M unit :=
  fun w => match faults w with
           | true :: f => (Throw, emit (e false) (with_faults f w))
           | _ => (Return tt,
                   emit (e true)
                     (with_storage (store (storage w))
                        (with_faults (tl (faults w)) w)))
           end.

Definition put_version (v : Z) : M unit :=
  storage_put (fun s => mkStorage (Some v) (stored_changes s)) (PutVersion v).

Definition put_changes (l : list EncryptedChange.t) : M unit :=
  storage_put (fun s => mkStorage (stored_version s) (Some l)) (PutChanges l).

(* ===================================================================== *)
(** ** [verifyToken] (auth.ts) *)
(* ===================================================================== *)

Definition verifyToken (token secret : string) : M (option AuthToken.t) :=
  gets (fun w =>
    match split "." token with
    | [payloadB64; sigB64] =>
        match decode_payload (crypto w) payloadB64 with
        | None => None
        | Some payload =>
            (* payload.exp < Math.floor(Date.now() / 1000) *)
            if AuthToken.exp payload <? now w / 1000 then None
            else match hmac_verify (crypto w) secret sigB64 payload with
                 | Some true => Some payload
                 | _ => None
                 end
        end
    | _ => None
    end).

(* ===================================================================== *)
(** ** class SyncRoom (sync.ts) *)
(* ===================================================================== *)

(** An HTTP request as [fetch] reads it. *)
Record Request := mkRequest {
  method : string;
  pathname : string;                           (* new URL(request.url).pathname *)
  upgrade : option string;                     (* headers.get("Upgrade") *)
  since : option string;                       (* url.searchParams.get("since") *)
  authorization : option string;               (* headers.get("Authorization") *)
  body : option Batch                          (* request.json(); None when it rejects *)
}.

Inductive Body :=
| BodyChanges (changes : list EncryptedChange.t) (version : Z)
| BodySuccess (version : Z)
| BodyError (error : string).

Inductive Response :=
| Json (status : Z) (body : Body)
| Text (status : Z) (text : string)
| SwitchingProtocols (client : WebSocket).

(** The constructor: a new instance over the durable storage, restored
    inside [blockConcurrencyWhile] before any call is served. *)
Definition constructor : M unit :=
  modify (with_sessions []) ;;
  modify (with_changes []) ;;
  modify (with_currentVersion 0) ;;
  storedVersion <- gets (fun w => stored_version (storage w)) ;;
  match storedVersion with
  | Some v => modify (with_currentVersion v)
  | None => ret tt
  end ;;
  storedChanges <- gets (fun w => stored_changes (storage w)) ;;
  match storedChanges with
  | Some l => modify (with_changes l)
  | None => ret tt
  end.

Definition send (ws : WebSocket) (message : ServerMessage.t) : M unit :=
  try_catch (ws_send ws message) (ret tt).

Definition sendError (ws : WebSocket) (code message : string) : M unit :=
  send ws (ServerMessage.error code message).

Definition broadcast (message : ServerMessage.t) : M unit :=
  all <- gets sessions ;;
  for_of all (fun '(ws, session) =>
    if truthy_opt (Session.workspaceId session)
    then try_catch (ws_send ws message) (ret tt)
    else ret tt).

Definition broadcastExcept (sender : WebSocket) (message : ServerMessage.t)
    : M unit :=
  all <- gets sessions ;;
  for_of all (fun '(ws, session) =>
    if negb (Nat.eqb ws sender) && truthy_opt (Session.workspaceId session)
    then try_catch (ws_send ws message) (ret tt)
    else ret tt).

Definition presence_members (m : list (WebSocket * Session.t))
    : list PresenceMember.t :=
  map (fun e =>
         PresenceMember.mk (Session.accountId (snd e)) (Session.siteId (snd e))
                           (Session.joinedAt (snd e)) (Session.lastSeen (snd e)))
      (filter (fun e => truthy (Session.accountId (snd e))
                        && truthy_opt (Session.workspaceId (snd e))) m).

Definition broadcastPresence : M unit :=
  members <- gets (fun w => presence_members (sessions w)) ;;
  broadcast (ServerMessage.presence members).

(** The loop of [applyChanges].  The counter is incremented before the
    version is assigned, and the assignment throws on a value without
    properties (modules are strict code).  The records of [newChanges]
    are mutated in place, and the callers read them again afterwards; the
    result is the array as the loop leaves it. *)
Fixpoint assign_versions (newChanges : list Element)
    : M (list EncryptedChange.t) :=
  match newChanges with
  | [] => ret []
  | change :: rest =>
      modify (fun w => with_currentVersion (currentVersion w + 1) w) ;;
      v <- gets currentVersion ;;
      match change with
      | Primitive => throw
      | Object change =>
          let change' := EncryptedChange.set_version v change in
          modify (fun w => with_changes (changes w ++ [change']) w) ;;
          rest' <- assign_versions rest ;;
          ret (change' :: rest')
      end
  end.

Definition applyChanges (newChanges : Batch) : M (list EncryptedChange.t) :=
  match newChanges with
  | NotIterable => throw
  | Iterable elements =>
      newChanges' <- assign_versions elements ;;
      v <- gets currentVersion ;;
      put_version v ;;
      l <- gets changes ;;
      put_changes l ;;
      ret newChanges'
  end.

(** [this.env.SYNC_SECRET || ""]. *)
Definition secret_of (w : World) : string :=
  or_default (SYNC_SECRET (env w)) EmptyString.

Definition handleAuth (ws : WebSocket) (session : Session.t) (token : string)
    : M unit :=
  secret <- gets secret_of ;;
  payload <- verifyToken token secret ;;
  match payload with
  | None => sendError ws "AUTH_FAILED" "Invalid or expired token"
  | Some payload =>
      n <- gets now ;;
      update_session ws
        (Session.set_identity (AuthToken.accountId payload)
           ("site-" ++ AuthToken.accountId payload ++ "-" ++ decimal n)%string) ;;
      send ws (ServerMessage.authenticated (AuthToken.accountId payload))
  end.

Definition handleJoin (ws : WebSocket) (session : Session.t)
    (workspaceId : string) : M unit :=
  if negb (truthy (Session.accountId session))
  then sendError ws "NOT_AUTHENTICATED" "Must authenticate first"
  else
    update_session ws (Session.set_workspaceId (Some workspaceId)) ;;
    v <- gets currentVersion ;;
    send ws (ServerMessage.joined workspaceId v) ;;
    broadcastPresence.

Definition handleLeave (ws : WebSocket) (session : Session.t) : M unit :=
  update_session ws (Session.set_workspaceId None) ;;
  broadcastPresence.

Definition handlePush (ws : WebSocket) (session : Session.t)
    (changes : Batch) : M unit :=
  if negb (truthy (Session.accountId session))
     || negb (truthy_opt (Session.workspaceId session))
  then sendError ws "NOT_JOINED" "Must join a workspace first"
  else
    changes' <- applyChanges changes ;;
    v <- gets currentVersion ;;
    send ws (ServerMessage.pushed v) ;;
    v <- gets currentVersion ;;
    broadcastExcept ws (ServerMessage.changes changes' v).

Definition changes_since (sinceVersion : number) (w : World)
    : list EncryptedChange.t :=
  filter (fun c => gt_number (EncryptedChange.version c) sinceVersion)
         (changes w).

Definition handlePull (ws : WebSocket) (session : Session.t)
    (sinceVersion : Z) : M unit :=
  if negb (truthy (Session.accountId session))
     || negb (truthy_opt (Session.workspaceId session))
  then sendError ws "NOT_JOINED" "Must join a workspace first"
  else
    changes <- gets (changes_since (Num sinceVersion)) ;;
    v <- gets currentVersion ;;
    send ws (ServerMessage.changes changes v).

Definition handleWebSocket (request : Request) : M Response :=
  client <- gets next_socket ;;
  let server := S client in
  modify (with_next_socket (S server)) ;;
  n <- gets now ;;
  modify (fun w =>
    with_sessions
      (Map_set server (Session.mk EmptyString EmptyString None n n)
               (sessions w)) w) ;;
  ret (SwitchingProtocols client).

Definition webSocketMessage (ws : WebSocket) (message : Inbound) : M unit :=
  found <- gets (fun w => Map_get ws (sessions w)) ;;
  match found with
  | None => ret tt
  | Some session =>
      n <- gets now ;;
      update_session ws (Session.set_lastSeen n) ;;
      let session := Session.set_lastSeen n session in
      try_catch
        match message with
        | Malformed => throw
        | UnknownType => ret tt
        | Parsed (SyncMessage.auth token) => handleAuth ws session token
        | Parsed (SyncMessage.join workspaceId) =>
            handleJoin ws session workspaceId
        | Parsed SyncMessage.leave => handleLeave ws session
        | Parsed (SyncMessage.push changes) => handlePush ws session changes
        | Parsed (SyncMessage.pull sinceVersion) =>
            handlePull ws session sinceVersion
        | Parsed (SyncMessage.ack _) => ret tt
        end
        (sendError ws "PARSE_ERROR" "Invalid message format")
  end.

Definition webSocketClose (ws : WebSocket) : M unit :=
  found <- gets (fun w => Map_get ws (sessions w)) ;;
  match found with
  | Some _ =>
      modify (fun w => with_sessions (Map_delete ws (sessions w)) w) ;;
      broadcastPresence
  | None => ret tt
  end.

Definition webSocketError (ws : WebSocket) : M unit :=
  modify (fun w => with_sessions (Map_delete ws (sessions w)) w).

Definition fetch (request : Request) : M Response :=
  if match upgrade request with
     | Some u => String.eqb u "websocket"
     | None => false
     end
  then handleWebSocket request
  else if String.eqb (pathname request) "/changes"
          && String.eqb (method request) "GET"
  then
    let sinceVersion := parseInt (or_default (since request) "0") in
    changes <- gets (changes_since sinceVersion) ;;
    v <- gets currentVersion ;;
    ret (Json 200 (BodyChanges changes v))
  else if String.eqb (pathname request) "/changes"
          && String.eqb (method request) "POST"
  then
    match authorization request with
    | Some authHeader =>
        if prefix "Bearer " authHeader then
          let token := slice 7 authHeader in
          secret <- gets secret_of ;;
          payload <- verifyToken token secret ;;
          match payload with
          | None => ret (Json 401 (BodyError "Invalid token"))
          | Some _ =>
              match body request with
              | None => throw
              | Some newChanges =>
                  newChanges' <- applyChanges newChanges ;;
                  v <- gets currentVersion ;;
                  broadcast (ServerMessage.changes newChanges' v) ;;
                  v <- gets currentVersion ;;
                  ret (Json 200 (BodySuccess v))
              end
          end
        else ret (Json 401 (BodyError "Unauthorized"))
    | None => ret (Json 401 (BodyError "Unauthorized"))
    end
  else ret (Text 404 "Not found").

(* ===================================================================== *)
(** ** Runs of one instance *)
(* ===================================================================== *)

(** The entry points through which the platform drives the instance. *)
Inductive Call :=
| Fetch (request : Request)
| SocketMessage (ws : WebSocket) (message : Inbound)
| SocketClose (ws : WebSocket)
| SocketError (ws : WebSocket).

(** One step of a run: a call served to completion (the instance is
    single-threaded), or the platform moving on between two calls. *)
Inductive Step :=
| Serve (c : Call)
| Platform (n : Z) (closed : list WebSocket) (faults : list bool).

Definition serve (c : Call) (w : World) : World :=
  match c with
  | Fetch request => snd (fetch request w)
  | SocketMessage ws message => snd (webSocketMessage ws message w)
  | SocketClose ws => snd (webSocketClose ws w)
  | SocketError ws => snd (webSocketError ws w)
  end.

Definition step (w : World) (s : Step) : World :=
  match s with
  | Serve c => serve c w
  | Platform n c f => with_platform n c f w
  end.

Definition run (steps : list Step) (w : World) : World :=
  fold_left step steps w.

(** A workspace that has never been written to. *)
Definition empty_storage : Storage := mkStorage None None.

(** The first instance of a workspace: constructed over empty storage. *)
Definition start (e : Env) (cr : WebCrypto) : World :=
  snd (constructor (mkWorld [] [] 0 e empty_storage cr 0 [] [] 0%nat [])).

(** A restart: the instance is lost and a new one is constructed over
    what the storage holds. *)
Definition restart (w : World) : World := snd (constructor w).

(* ===================================================================== *)
(** ** Vocabulary of the specification *)
(* ===================================================================== *)

(** The versions of the log, in append order. *)
Definition versions (w : World) : list Z :=
  map EncryptedChange.version (changes w).

(** The list 1, 2, ..., n. *)
Definition one_to (n : Z) : list Z := map Z.of_nat (seq 1 (Z.to_nat n)).

(** The records of a batch as the coordinator accepts them when the
    counter stands at [v]: in the submitted order, the i-th (from 1) gets
    version [v + i], whatever version the client wrote. *)
Fixpoint numbered (v : Z) (batch : list EncryptedChange.t)
    : list EncryptedChange.t :=
  match batch with
  | [] => []
  | c :: r => EncryptedChange.set_version (v + 1) c :: numbered (v + 1) r
  end.

(** The in-memory log and its counter. *)
Definition log_of (w : World) : list EncryptedChange.t * Z :=
  (changes w, currentVersion w).

(** The records of a batch that the loop of [applyChanges] gets to: the
    objects before the first element that is not one. *)
Fixpoint accepted_elements (elements : list Element)
    : list EncryptedChange.t :=
  match elements with
  | Object c :: r => c :: accepted_elements r
  | _ => []
  end.

Definition accepted (b : Batch) : list EncryptedChange.t :=
  match b with
  | Iterable elements => accepted_elements elements
  | NotIterable => []
  end.

Definition is_object (e : Element) : bool :=
  match e with Object _ => true | Primitive => false end.

(** The loop stops at an element that is not an object. *)
Definition stalls (b : Batch) : bool :=
  match b with
  | Iterable elements => negb (forallb is_object elements)
  | NotIterable => false
  end.

(** The batch has the declared type: an array of objects. *)
Definition well_typed (b : Batch) : bool :=
  match b with
  | Iterable elements => forallb is_object elements
  | NotIterable => false
  end.

(** The log invariant: the versions of the log increase strictly, and
    each lies between 1 and the counter. *)
Definition log_ok (w : World) : Prop :=
  StronglySorted Z.lt (versions w)
  /\ Forall (fun v => 1 <= v <= currentVersion w) (versions w)
  /\ 0 <= currentVersion w.

(** The log has no gap: its versions are 1, 2, ..., currentVersion. *)
Definition gapless (w : World) : Prop :=
  versions w = one_to (currentVersion w) /\ 0 <= currentVersion w.

(** The guard of [handlePush] and [handlePull]. *)
Definition is_joined (s : Session.t) : bool :=
  truthy (Session.accountId s) && truthy_opt (Session.workspaceId s).

(** The states of a session. *)
Inductive Phase := Connected | Authenticated | Joined.

Definition phase (s : Session.t) : Phase :=
  if negb (truthy (Session.accountId s)) then Connected
  else if truthy_opt (Session.workspaceId s) then Joined
  else Authenticated.

(** The live recipients of a broadcast that skips [sender]. *)
Definition recipients_except (sender : WebSocket) (w : World)
    : list WebSocket :=
  map fst
    (filter (fun e => negb (Nat.eqb (fst e) sender)
                      && truthy_opt (Session.workspaceId (snd e)))
            (sessions w)).

Definition recipients (w : World) : list WebSocket :=
  map fst
    (filter (fun e => truthy_opt (Session.workspaceId (snd e))) (sessions w)).

(** One attempt per recipient, each with the fate of its own socket. *)
Definition attempts (message : ServerMessage.t) (to : list WebSocket)
    (w : World) : list Effect :=
  map (fun ws => SendTo ws message (negb (is_closed ws w))) to.

Definition is_ack_or_relay (e : Effect) : bool :=
  match e with
  | SendTo _ (ServerMessage.pushed _) _ => true
  | SendTo _ (ServerMessage.changes _ _) _ => true
  | _ => false
  end.

(** A computation leaves an observation of the world as it found it. *)
Definition keeps {T A} (obs : World -> T) (m : M A) : Prop :=
  forall w, obs (snd (m w)) = obs w.

(** The log with its counter, and what the storage holds. *)
Definition ledger (w : World) :=
  (changes w, currentVersion w, storage w).

(** Both writes of [applyChanges] succeed under this fate of the coming
    storage writes. *)
Definition puts_succeed (f : list bool) : bool :=
  match f with
  | true :: _ => false
  | _ :: true :: _ => false
  | _ => true
  end.

(** What a pull of [sinceVersion] answers. *)
Definition pull_reply (sinceVersion : Z) (w : World) : ServerMessage.t :=
  ServerMessage.changes (changes_since (Num sinceVersion) w) (currentVersion w).

(** The storage holds the in-memory log and counter. *)
Definition persisted (w : World) : Prop :=
  stored_version (storage w) = Some (currentVersion w)
  /\ stored_changes (storage w) = Some (changes w).

(** Calls that are not a push. *)
Definition is_push (c : Call) : bool :=
  match c with
  | Fetch request =>
      String.eqb (pathname request) "/changes"
      && String.eqb (method request) "POST"
  | SocketMessage _ (Parsed (SyncMessage.push _)) => true
  | _ => false
  end.

Definition quiet (s : Step) : bool :=
  match s with
  | Serve c => negb (is_push c)
  | Platform _ _ _ => true
  end.

(** What [verifyToken] makes of a token under the instance's secret:
    the payload of a valid token, nothing for an invalid or expired one. *)
Definition token_payload (token : string) (w : World) : option AuthToken.t :=
  match fst (verifyToken token (secret_of w) w) with
  | Return p => p
  | Throw => None
  end.

(** The identity a stateless request carries: the payload of a valid
    bearer token in its Authorization header. *)
Definition bearer_identity (request : Request) (w : World)
    : option AuthToken.t :=
  match authorization request with
  | Some authHeader =>
      if prefix "Bearer " authHeader
      then token_payload (slice 7 authHeader) w
      else None
  | None => None
  end.

Definition is_upgrade (request : Request) : bool :=
  match upgrade request with
  | Some u => String.eqb u "websocket"
  | None => false
  end.

(** [w'] has the log of [w] with the records [l] appended and numbered
    from the counter of [w]; the counter stands [k] beyond the last of
    them. *)
Definition extends_log (w w' : World) (l : list EncryptedChange.t) (k : Z)
    : Prop :=
  log_of w'
  = (changes w ++ numbered (currentVersion w) l,
     currentVersion w + Z.of_nat (List.length l) + k).

(** Batches of records applied one after the other to the same
    instance. *)
Definition apply_batches (batches : list (list EncryptedChange.t))
    (w : World) : World :=
  fold_left (fun w b => snd (applyChanges (records b) w)) batches w.

(** The batch of a step that pushes, if it is one: the [changes] of a
    push message, or the body of a POST of /changes. *)
Definition pushed_batch (s : Step) : option Batch :=
  match s with
  | Serve (SocketMessage _ (Parsed (SyncMessage.push b))) => Some b
  | Serve (Fetch request) =>
      if negb (is_upgrade request) && is_push (Fetch request)
      then body request
      else None
  | _ => None
  end.

(** No step of the run pushes a batch at which the loop stops. *)
Definition no_stall (steps : list Step) : Prop :=
  forall s b, In s steps -> pushed_batch s = Some b -> stalls b = false.

(** A push has run to completion, taking [w0] to [w]: over a socket, for
    a joined session, or over the stateless endpoint with a success
    response. *)
Definition push_completed (w0 w : World) : Prop :=
  (exists ws s b,
      is_joined s = true /\ handlePush ws s b w0 = (Return tt, w))
  \/ (exists request v,
        fetch request w0 = (Return (Json 200 (BodySuccess v)), w)).

(* ===================================================================== *)
(** ** A concrete deployment, used by the examples *)
(* ===================================================================== *)

(** A toy verifier: the payload text is the account id, tokens expire in
    the year 2100, and a signature is valid when it spells the secret. *)
Definition demo_crypto : WebCrypto :=
  mkWebCrypto (fun p => Some (AuthToken.mk p 4102444800 0))
              (fun secret sig _ => Some (String.eqb sig secret)).

Definition demo_env : Env := mkEnv (Some "k").

Definition change_a : EncryptedChange.t :=
  EncryptedChange.mk "c1" "e1" create "b64:AAAA" "n1" "site-a"
                     "2024-01-01T00:00:00Z" 0.
Definition change_b : EncryptedChange.t :=
  EncryptedChange.mk "c2" "e1" update "b64:BBBB" "n2" "site-a"
                     "2024-01-01T00:00:01Z" 99.
Definition change_c : EncryptedChange.t :=
  EncryptedChange.mk "c3" "e2" delete "b64:CCCC" "n3" "site-b"
                     "2024-01-01T00:00:02Z" (-7).

Definition upgrade_request : Request :=
  mkRequest "GET" "/" (Some "websocket") None None None.

(** Alice (socket 1), Bob (socket 3) and Carol (socket 5) connect,
    authenticate and join workspace W; Bob's socket then dies. *)
Definition demo_connect : list Step :=
  [ Platform 1700000000000 [] [];
    Serve (Fetch upgrade_request);
    Serve (SocketMessage 1%nat (Parsed (SyncMessage.auth "alice.k")));
    Serve (SocketMessage 1%nat (Parsed (SyncMessage.join "W")));
    Serve (Fetch upgrade_request);
    Serve (SocketMessage 3%nat (Parsed (SyncMessage.auth "bob.k")));
    Serve (SocketMessage 3%nat (Parsed (SyncMessage.join "W")));
    Serve (Fetch upgrade_request);
    Serve (SocketMessage 5%nat (Parsed (SyncMessage.auth "carol.k")));
    Serve (SocketMessage 5%nat (Parsed (SyncMessage.join "W")));
    Platform 1700000001000 [3%nat] [] ].

Definition demo_joined : World := run demo_connect (start demo_env demo_crypto).

Definition demo_alice : Session.t :=
  Session.mk "alice" "site-alice-1700000000000" (Some "W")
             1700000000000 1700000000000.

(** A session that has authenticated but not joined. *)
Definition demo_dave : Session.t :=
  Session.mk "dave" "site-dave-1700000000000" None
             1700000000000 1700000000000.

(** A session that has only connected. *)
Definition demo_anonymous : Session.t :=
  Session.mk EmptyString EmptyString None 1700000000000 1700000000000.

(** Alice pushes two records, then Carol pushes one. *)
Definition demo_steps : list Step :=
  [ Serve (SocketMessage 1%nat
             (Parsed (SyncMessage.push (records [change_a; change_b]))));
    Serve (SocketMessage 5%nat
             (Parsed (SyncMessage.push (records [change_c])))) ].

Definition demo_pushed : World :=
  run (demo_connect ++ demo_steps) (start demo_env demo_crypto).

(** A push whose batch is [[null]], and the push of one record that
    follows it. *)
Definition null_push : Step :=
  Serve (SocketMessage 1%nat
           (Parsed (SyncMessage.push (Iterable [Primitive])))).

Definition demo_gap_steps : list Step :=
  [ null_push;
    Serve (SocketMessage 1%nat
             (Parsed (SyncMessage.push (records [change_a])))) ].

(** Stateless requests of the examples. *)
Definition anonymous_get : Request :=
  mkRequest "GET" "/changes" None (Some "0") None None.
Definition empty_since_get : Request :=
  mkRequest "GET" "/changes" None (Some EmptyString) None None.
Definition garbage_since_get : Request :=
  mkRequest "GET" "/changes" None (Some "abc") None None.
Definition anonymous_post : Request :=
  mkRequest "POST" "/changes" None None None (Some (records [change_a])).
Definition forged_post : Request :=
  mkRequest "POST" "/changes" None None (Some "Bearer alice.wrong")
            (Some (records [change_a])).

(** What happens after Alice's push before the restart of the example:
    Alice disconnects and Carol pulls. *)
Definition demo_quiet_steps : list Step :=
  [ Serve (SocketClose 1%nat);
    Serve (SocketMessage 5%nat (Parsed (SyncMessage.pull 0))) ].

(* ===================================================================== *)
(** ** Further vocabulary: sessions, routing of messages *)
(* ===================================================================== *)

(** What one inbound message makes of the session that sent it. *)
Definition session_after (w : World) (s : Session.t) (message : Inbound)
    : Session.t :=
  let s' := Session.set_lastSeen (now w) s in
  match message with
  | Parsed (SyncMessage.auth token) =>
      match token_payload token w with
      | Some p =>
          Session.set_identity (AuthToken.accountId p)
            ("site-" ++ AuthToken.accountId p ++ "-" ++ decimal (now w))%string
            s'
      | None => s'
      end
  | Parsed (SyncMessage.join workspaceId) =>
      if truthy (Session.accountId s)
      then Session.set_workspaceId (Some workspaceId) s'
      else s'
  | Parsed SyncMessage.leave => Session.set_workspaceId None s'
  | _ => s'
  end.

(** The presence entry of a session. *)
Definition member_of (s : Session.t) : PresenceMember.t :=
  PresenceMember.mk (Session.accountId s) (Session.siteId s)
                    (Session.joinedAt s) (Session.lastSeen s).

(** The presence message a world would broadcast. *)
Definition presence_of (w : World) : ServerMessage.t :=
  ServerMessage.presence (presence_members (sessions w)).

(** A computation only adds effects to the trace, all of them in [P]. *)
Definition adds (P : Effect -> Prop) {A} (m : M A) : Prop :=
  forall w, exists fx, trace (snd (m w)) = trace w ++ fx /\ Forall P fx.

(** The direct replies (error, authenticated, joined, pushed) go to [ws]
    and to nobody else. *)
Definition routed_to (ws : WebSocket) (e : Effect) : Prop :=
  match e with
  | SendTo k (ServerMessage.error _ _) _ => k = ws
  | SendTo k (ServerMessage.authenticated _) _ => k = ws
  | SendTo k (ServerMessage.joined _ _) _ => k = ws
  | SendTo k (ServerMessage.pushed _) _ => k = ws
  | _ => True
  end.

(** No direct reply at all: only relays, presence and storage writes. *)
Definition no_reply (e : Effect) : Prop :=
  match e with
  | SendTo _ (ServerMessage.changes _ _) _ => True
  | SendTo _ (ServerMessage.presence _) _ => True
  | SendTo _ _ _ => False
  | _ => True
  end.

(** What the platform decides and the instance only reads. *)
Definition platform_of (w : World) :=
  (env w, crypto w, now w, closed w).

(** The keys of the session map are distinct and were all handed out by
    the socket allocator. *)
Definition registry_ok (w : World) : Prop :=
  NoDup (map fst (sessions w))
  /\ forall k, In k (map fst (sessions w)) -> (k < next_socket w)%nat.

(** Every session with a workspace has an account. *)
Definition joined_are_authenticated (w : World) : Prop :=
  forall k s, In (k, s) (sessions w) ->
    truthy_opt (Session.workspaceId s) = true ->
    truthy (Session.accountId s) = true.

(** A toy verifier that, unlike [demo_crypto], never yields an empty
    account id. *)
Definition strict_crypto : WebCrypto :=
  mkWebCrypto
    (fun p => if truthy p then Some (AuthToken.mk p 4102444800 0) else None)
    (fun secret sig _ => Some (String.eqb sig secret)).

Definition strict_joined : World := run demo_connect (start demo_env strict_crypto).

(** A push is acknowledged to [ws] only and relayed to others only. *)
Definition not_echoed (ws : WebSocket) (e : Effect) : Prop :=
  match e with
  | SendTo k (ServerMessage.changes _ _) _ => k <> ws
  | SendTo k (ServerMessage.pushed _) _ => k = ws
  | _ => True
  end.

(** The routing rule of a call. *)
Definition routing (c : Call) : Effect -> Prop :=
  match c with
  | SocketMessage ws _ => routed_to ws
  | _ => no_reply
  end.

(* ===================================================================== *)
(** ** Tokens and passwords ([src/auth.ts]) *)
(* ===================================================================== *)

Definition TOKEN_EXPIRY_HOURS : Z := 24 * 7.

(** The two platform steps of [generateToken], the counterparts of
    [decode_payload] and [hmac_verify].  [generateToken] takes the
    reading of [Date.now()] as an argument and is [None] when [btoa]
    throws. *)
Record TokenSigner := mkTokenSigner {
  (* btoa(JSON.stringify(payload)); None when btoa throws *)
  encode_payload : AuthToken.t -> option string;
  (* btoa of the HMAC-SHA256 signature of JSON.stringify(payload) under
     the secret *)
  hmac_sign : string -> AuthToken.t -> string
}.

Definition generateToken (sg : TokenSigner) (accountId secret : string)
    (date_now : Z) : option string :=
  let now := date_now / 1000 in          (* Math.floor(Date.now() / 1000) *)
  let payload :=
    AuthToken.mk accountId (now + TOKEN_EXPIRY_HOURS * 3600) now in
  let sigBase64 := hmac_sign sg secret payload in
  match encode_payload sg payload with
  | Some payloadB64 => Some (payloadB64 ++ "." ++ sigBase64)%string
  | None => None
  end.

(** The platform steps of the password functions.  Bytes are integers. *)
Record PasswordCrypto := mkPasswordCrypto {
  (* deriveBits: PBKDF2 of the password with the salt, 100000 iterations
     of SHA-256, 256 bits *)
  pbkdf2 : string -> list Z -> list Z;
  (* Uint8Array.from(atob(s), c => c.charCodeAt(0)); None when atob throws *)
  atob_bytes : string -> option (list Z);
  (* btoa(String.fromCharCode(...bytes)) *)
  btoa_bytes : list Z -> string
}.

(** [hashPassword]; [salt] is what [crypto.getRandomValues(new
    Uint8Array(16))] draws. *)
Definition hashPassword (pc : PasswordCrypto) (salt : list Z)
    (password : string) : string :=
  let hash := pbkdf2 pc password salt in
  let combined := salt ++ hash in
  btoa_bytes pc combined.

(** The comparison loop of [verifyPassword]:
    [result |= hashArray[i] ^ expectedHash[i]] for every index of
    [hashArray]. *)
Definition compare_loop (hashArray expectedHash : list Z) : Z :=
  fold_left
    (fun result i =>
       Z.lor result (Z.lxor (nth i hashArray 0) (nth i expectedHash 0)))
    (seq 0 (List.length hashArray)) 0.

(** [verifyPassword]; [None] when [atob] throws on the stored hash. *)
Definition verifyPassword (pc : PasswordCrypto) (password storedHash : string)
    : option bool :=
  match atob_bytes pc storedHash with
  | None => None
  | Some combined =>
      let salt := firstn 16 combined in
      let expectedHash := skipn 16 combined in
      let hashArray := pbkdf2 pc password salt in
      if negb (Nat.eqb (List.length hashArray) (List.length expectedHash))
      then Some false
      else Some (compare_loop hashArray expectedHash =? 0)
  end.

(** The separator does not occur in the text. *)
Fixpoint has_char (c : ascii) (s : string) : bool :=
  match s with
  | EmptyString => false
  | String a r => Ascii.eqb a c || has_char c r
  end.

(* ===================================================================== *)
(** ** Accounts ([src/auth.ts]) *)
(* ===================================================================== *)

Module Account.
Record t := mk {
  id : string;
  email : string;
  passwordHash : string;
  workspaces : list string;
  createdAt : string;
  lastLoginAt : string
}.
Definition with_lastLoginAt (x : string) (a : t) : t :=
  mk (id a) (email a) (passwordHash a) (workspaces a) (createdAt a) x.
(* account.workspaces.push(workspaceId) *)
Definition push_workspace (workspaceId : string) (a : t) : t :=
  mk (id a) (email a) (passwordHash a) (workspaces a ++ [workspaceId])
     (createdAt a) (lastLoginAt a).
End Account.

Module WorkspaceMeta.
Record t := mk {
  id : string;
  ownerId : string;
  name : string;
  members : list string;
  version : Z;
  createdAt : string
}.
End WorkspaceMeta.

Module CreateAccountRequest.
Record t := mk { email : string; password : string }.
End CreateAccountRequest.

Module LoginRequest.
Record t := mk { email : string; password : string }.
End LoginRequest.

Module LoginResponse.
Record t := mk { token : string; accountId : string; expiresAt : string }.
End LoginResponse.

(** [s.toLowerCase()] on code units up to U+00FF: the letters A-Z and the
    capital letters U+00C0-U+00DE (U+00D7, the multiplication sign, is not
    one) move up by 32. *)
Definition lower_char (c : ascii) : ascii :=
  let n := nat_of_ascii c in
  if ((65 <=? n) && (n <=? 90)
      || (192 <=? n) && (n <=? 222) && negb (n =? 215))%nat
  then ascii_of_nat (n + 32) else c.

Fixpoint toLowerCase (s : string) : string :=
  match s with
  | EmptyString => EmptyString
  | String c r => String (lower_char c) (toLowerCase r)
  end.

Fixpoint trim_end (s : string) : string :=
  match s with
  | EmptyString => EmptyString
  | String c r =>
      match trim_end r with
      | EmptyString =>
          if is_white_space c then EmptyString else String c EmptyString
      | r' => String c r'
      end
  end.

(** [s.trim()]. *)
Definition trim (s : string) : string := trim_end (trim_start s).

(** A KV namespace: its entries, the latest write of a key first, and
    the fate of the coming writes, decided by the platform as for the
    durable storage.  A read sees the latest write: the delay with which
    the platform's KV spreads a write is not modelled. *)
Record KVNamespace := mkKV {
  entries : list (string * string);
  put_faults : list bool       (* next put rejects when the head is true *)
}.

Fixpoint lookup (key : string) (l : list (string * string)) : option string :=
  match l with
  | [] => None
  | (k, v) :: r => if String.eqb k key then Some v else lookup key r
  end.

(** What a function of [auth.ts] throws: [new Error(message)], or an
    exception raised by the platform ([kv.put], [JSON.parse], [atob],
    [btoa]). *)
Inductive Exception :=
| Error (message : string)
| PlatformException.

Inductive result (A : Type) :=
| Ok (a : A)
| Raise (e : Exception).
Arguments Ok {A} a.
Arguments Raise {A} e.

(** The functions over a KV namespace: state passing with exceptions; a
    thrown exception keeps the writes made before it. *)
Definition K (A : Type) := KVNamespace -> result A * KVNamespace.

Definition kret {A} (a : A) : K A := fun kv => (Ok a, kv).

Definition kbind {A B} (m : K A) (k : A -> K B) : K B :=
  fun kv => match m kv with
            | (Ok a, kv') => k a kv'
            | (Raise e, kv') => (Raise e, kv')
            end.

Definition kraise {A} (e : Exception) : K A := fun kv => (Raise e, kv).

(** [await kv.get(key)]: the value, or null. *)
Definition kv_get (key : string) : K (option string) :=
  fun kv => (Ok (lookup key (entries kv)), kv).

(** [await kv.put(key, value)]: a failed write throws and stores nothing. *)
Definition kv_put (key value : string) : K unit :=
  fun kv => match put_faults kv with
            | true :: f => (Raise PlatformException, mkKV (entries kv) f)
            | _ => (Ok tt,
                    mkKV ((key, value) :: entries kv) (tl (put_faults kv)))
            end.

(** A [string | null] that is truthy: the string; otherwise nothing. *)
Definition present (o : option string) : option string :=
  match o with
  | Some s => if truthy s then Some s else None
  | None => None
  end.

(** The pure platform functions of the account code.  A value stored
    under an account key or a workspace key is taken at its declared type
    ([Account], [WorkspaceMeta]): text that is not the rendering of one
    makes [JSON.parse] throw. *)
Record Runtime := mkRuntime {
  toISOString : Z -> string;                 (* new Date(ms).toISOString() *)
  stringify_account : Account.t -> string;   (* JSON.stringify(account) *)
  parse_account : string -> option Account.t;              (* JSON.parse *)
  stringify_workspace : WorkspaceMeta.t -> string;     (* JSON.stringify *)
  parse_workspace : string -> option WorkspaceMeta.t       (* JSON.parse *)
}.

(** What the clock and the generators of the platform give during one
    call: [Date.now()] (one reading per call, as in a [World]),
    [crypto.randomUUID()] and [crypto.getRandomValues(new
    Uint8Array(16))]. *)
Record Draw := mkDraw {
  Date_now : Z;
  randomUUID : string;
  getRandomValues : list Z
}.

Declare Scope kv_scope.
Delimit Scope kv_scope with kv.
Notation "x <- m ;; k" := (kbind m (fun x => k))
  (at level 61, m at next level, right associativity) : kv_scope.
Notation "m ;; k" := (kbind m (fun _ => k))
  (at level 61, right associativity) : kv_scope.

Section Accounts.
Variable rt : Runtime.
Variable pc : PasswordCrypto.
Variable sg : TokenSigner.
Local Open Scope kv_scope.

Definition createAccount (d : Draw) (request : CreateAccountRequest.t)
    : K Account.t :=
  let email := trim (toLowerCase (CreateAccountRequest.email request)) in
  existing <- kv_get ("account:email:" ++ email)%string ;;
  if truthy_opt existing then kraise (Error "Account already exists")
  else
    let id := randomUUID d in
    let passwordHash :=
      hashPassword pc (getRandomValues d)
                   (CreateAccountRequest.password request) in
    let now := toISOString rt (Date_now d) in
    let account := Account.mk id email passwordHash [] now now in
    kv_put ("account:" ++ id)%string (stringify_account rt account) ;;
    kv_put ("account:email:" ++ email)%string id ;;
    kret account.

Definition login (d : Draw) (secret : string) (request : LoginRequest.t)
    : K LoginResponse.t :=
  let email := trim (toLowerCase (LoginRequest.email request)) in
  accountId <- kv_get ("account:email:" ++ email)%string ;;
  match present accountId with
  | None => kraise (Error "Invalid credentials")
  | Some accountId =>
      accountJson <- kv_get ("account:" ++ accountId)%string ;;
      match present accountJson with
      | None => kraise (Error "Invalid credentials")
      | Some accountJson =>
          match parse_account rt accountJson with
          | None => kraise PlatformException
          | Some account =>
              match verifyPassword pc (LoginRequest.password request)
                                   (Account.passwordHash account) with
              | None => kraise PlatformException
              | Some false => kraise (Error "Invalid credentials")
              | Some true =>
                  let account :=
                    Account.with_lastLoginAt (toISOString rt (Date_now d))
                                             account in
                  kv_put ("account:" ++ accountId)%string
                         (stringify_account rt account) ;;
                  match generateToken sg accountId secret (Date_now d) with
                  | None => kraise PlatformException
                  | Some token =>
                      let expiresAt :=
                        toISOString rt
                          (Date_now d + TOKEN_EXPIRY_HOURS * 3600 * 1000) in
                      kret (LoginResponse.mk token accountId expiresAt)
                  end
              end
          end
      end
  end.

Definition getAccount (accountId : string) : K (option Account.t) :=
  json <- kv_get ("account:" ++ accountId)%string ;;
  match present json with
  | Some json =>
      match parse_account rt json with
      | Some account => kret (Some account)
      | None => kraise PlatformException
      end
  | None => kret None
  end.

End Accounts.

(* ===================================================================== *)
(** ** The Worker ([src/index.ts]) *)
(* ===================================================================== *)

(** The bindings of the Worker that are plain values.  The two other
    bindings, the KV namespace [ACCOUNTS] and the Durable Object namespace
    [SYNC_ROOM], are the state the Worker works on. *)
Record Bindings := mkBindings {
  room_env : Env;              (* SYNC_SECRET, shared with the rooms *)
  ENVIRONMENT : string
}.

Record Cloud := mkCloud {
  ACCOUNTS : KVNamespace;
  SYNC_ROOM : list (string * World)      (* the instances, by name *)
}.

Fixpoint room_get (name : string) (rooms : list (string * World))
    : option World :=
  match rooms with
  | [] => None
  | (n, w) :: r => if String.eqb n name then Some w else room_get name r
  end.

Fixpoint room_set (name : string) (w : World) (rooms : list (string * World))
    : list (string * World) :=
  match rooms with
  | [] => [(name, w)]
  | (n, x) :: r =>
      if String.eqb n name then (n, w) :: r else (n, x) :: room_set name w r
  end.

(** The body of a response of the Worker. *)
Inductive ApiData :=
| HealthData (environment : string)   (* { status: "ok", environment } *)
| AccountData (id email : string)     (* { success: true, data: { id, email } } *)
| LoginData (r : LoginResponse.t)
| WorkspaceData (w : WorkspaceMeta.t)
| WorkspacesData (l : list WorkspaceMeta.t)
| ErrorData (code message : string)   (* { success: false, error: {...} } *)
| ServerErrorData (e : Exception).    (* code SERVER_ERROR, the message of e *)

Inductive Reply :=
| Preflight                           (* new Response(null, { headers }) *)
| jsonResponse (data : ApiData) (status : Z)
| FromRoom (r : Response).            (* what stub.fetch resolved to *)

(** A request as the Worker reads it: the request line and headers, and
    what [request.json()] gives at the type each route casts it to
    ([None] when it rejects). *)
Record Incoming := mkIncoming {
  http : Request;
  account_body : option CreateAccountRequest.t;
  login_body : option LoginRequest.t;
  workspace_body : option string        (* CreateWorkspaceRequest.name *)
}.

(** The first capture of [path.match(/^\/sync\/([^/]+)/)]. *)
Fixpoint segment (s : string) : string :=
  match s with
  | EmptyString => EmptyString
  | String c r => if Ascii.eqb c "/" then EmptyString else String c (segment r)
  end.

Definition sync_match (path : string) : option string :=
  if prefix "/sync/" path then present (Some (segment (slice 6 path)))
  else None.

(** [s.replace(pattern, EmptyString)] for a string pattern: the first
    occurrence is removed. *)
Fixpoint remove_first (pattern s : string) : string :=
  if prefix pattern s then slice (String.length pattern) s
  else match s with
       | EmptyString => EmptyString
       | String c r => String c (remove_first pattern r)
       end.

(** The isolate of a Worker call seen as a [World]: [verifyToken] reads
    its clock and its cryptography, nothing else. *)
Definition isolate (cr : WebCrypto) (d : Draw) : World :=
  with_platform (Date_now d) [] [] (start (mkEnv None) cr).

(** [for (const x of l) body(x)] over a local variable of the loop. *)
Fixpoint kfor_of {A S} (l : list A) (body : A -> S -> K S) (s : S) : K S :=
  match l with
  | [] => kret s
  | x :: r => kbind (body x s) (kfor_of r body)
  end.

(** The routes up to the delegation: an answer, or the room a request is
    to be forwarded to. *)
Inductive Routed :=
| Answer (r : Reply)
| Delegate (workspaceId : string) (forwarded : Request).

Module Worker.
Section Worker.
Variable rt : Runtime.
Variable pc : PasswordCrypto.
Variable sg : TokenSigner.
Variable cr : WebCrypto.
Variable env : Bindings.
Local Open Scope kv_scope.

(** [env.SYNC_SECRET || "dev-secret"]. *)
Definition secret : string :=
  or_default (SYNC_SECRET (room_env env)) "dev-secret".

(** The body of the [try] block, up to [stub.fetch]. *)
Definition route (d : Draw) (request : Incoming) : K Routed :=
  let path := pathname (http request) in
  if String.eqb path "/health"
  then kret (Answer (jsonResponse (HealthData (ENVIRONMENT env)) 200))
  else if String.eqb path "/api/accounts"
          && String.eqb (method (http request)) "POST"
  then
    match account_body request with
    | None => kraise PlatformException
    | Some body =>
        account <- createAccount rt pc d body ;;
        kret (Answer (jsonResponse
                        (AccountData (Account.id account)
                                     (Account.email account)) 200))
    end
  else if String.eqb path "/api/login"
          && String.eqb (method (http request)) "POST"
  then
    match login_body request with
    | None => kraise PlatformException
    | Some body =>
        result <- login rt pc sg d secret body ;;
        kret (Answer (jsonResponse (LoginData result) 200))
    end
  else
    let authHeader := authorization (http request) in
    let token :=
      match authHeader with
      | Some h => if prefix "Bearer " h then present (Some (slice 7 h))
                  else None
      | None => None
      end in
    let authPayload :=
      match token with
      | Some token =>
          match fst (verifyToken token secret (isolate cr d)) with
          | Return payload => payload
          | Throw => None
          end
      | None => None
      end in
    if String.eqb path "/api/workspaces"
       && String.eqb (method (http request)) "POST"
    then
      match authPayload with
      | None =>
          kret (Answer (jsonResponse
                          (ErrorData "UNAUTHORIZED" "Invalid token") 401))
      | Some authPayload =>
          match workspace_body request with
          | None => kraise PlatformException
          | Some name =>
              let workspaceId := randomUUID d in
              let now := toISOString rt (Date_now d) in
              let accountId := AuthToken.accountId authPayload in
              let workspace :=
                WorkspaceMeta.mk workspaceId accountId name [accountId] 0
                                 now in
              kv_put ("workspace:" ++ workspaceId)%string
                     (stringify_workspace rt workspace) ;;
              account <- getAccount rt accountId ;;
              match account with
              | Some account =>
                  kv_put ("account:" ++ accountId)%string
                         (stringify_account rt
                            (Account.push_workspace workspaceId account))
              | None => kret tt
              end ;;
              kret (Answer (jsonResponse (WorkspaceData workspace) 200))
          end
      end
    else if String.eqb path "/api/workspaces"
            && String.eqb (method (http request)) "GET"
    then
      match authPayload with
      | None =>
          kret (Answer (jsonResponse
                          (ErrorData "UNAUTHORIZED" "Invalid token") 401))
      | Some authPayload =>
          account <- getAccount rt (AuthToken.accountId authPayload) ;;
          match account with
          | None =>
              kret (Answer (jsonResponse
                              (ErrorData "NOT_FOUND" "Account not found")
                              404))
          | Some account =>
              workspaces <-
                kfor_of (Account.workspaces account)
                  (fun wsId workspaces =>
                     wsJson <- kv_get ("workspace:" ++ wsId)%string ;;
                     match present wsJson with
                     | Some wsJson =>
                         match parse_workspace rt wsJson with
                         | Some w => kret (workspaces ++ [w])
                         | None => kraise PlatformException
                         end
                     | None => kret workspaces
                     end)
                  [] ;;
              kret (Answer (jsonResponse (WorkspacesData workspaces) 200))
          end
      end
    else
      match sync_match path with
      | Some workspaceId =>
          let pathname' :=
            remove_first ("/sync/" ++ workspaceId)%string path in
          let pathname' := if truthy pathname' then pathname' else "/" in
          kret (Delegate workspaceId
                  (mkRequest (method (http request)) pathname'
                             (upgrade (http request)) (since (http request))
                             (authorization (http request))
                             (body (http request))))
      | None =>
          kret (Answer (jsonResponse
                          (ErrorData "NOT_FOUND" "Route not found") 404))
      end.

(** The instance [env.SYNC_ROOM.get(env.SYNC_ROOM.idFromName(name))]
    reaches: the one that exists, or a new one. *)
Definition stub (name : string) (c : Cloud) : World :=
  match room_get name (SYNC_ROOM c) with
  | Some w => w
  | None => start (room_env env) cr
  end.

(** [fetch(request, env, ctx)].  An exception of the [try] block is
    answered with status 500.  The promise of [stub.fetch] is returned
    without [await], so an exception of the room is not caught: it is the
    exception of the Worker's [fetch]. *)
Definition fetch (d : Draw) (request : Incoming) (c : Cloud)
    : result Reply * Cloud :=
  if String.eqb (method (http request)) "OPTIONS" then (Ok Preflight, c)
  else
    match route d request (ACCOUNTS c) with
    | (Ok (Answer r), kv) => (Ok r, mkCloud kv (SYNC_ROOM c))
    | (Ok (Delegate workspaceId forwarded), kv) =>
        match fetch forwarded (stub workspaceId c) with
        | (Return r, w) =>
            (Ok (FromRoom r),
             mkCloud kv (room_set workspaceId w (SYNC_ROOM c)))
        | (Throw, w) =>
            (Raise PlatformException,
             mkCloud kv (room_set workspaceId w (SYNC_ROOM c)))
        end
    | (Raise e, kv) =>
        (Ok (jsonResponse (ServerErrorData e) 500), mkCloud kv (SYNC_ROOM c))
    end.

End Worker.
End Worker.

(** No coming write of the namespace fails. *)
Definition puts_ok (kv : KVNamespace) : Prop :=
  forall b, In b (put_faults kv) -> b = false.

(** The key under which an address is indexed. *)
Definition email_key (address : string) : string :=
  ("account:email:" ++ trim (toLowerCase address))%string.

(** Toy signer and password primitives for the examples: the payload
    text is the account id and the signature spells the secret; the
    derived key is 32 copies of the password's length plus the salt's
    first byte, and a byte string is written as the characters with
    these codes. *)
Definition demo_signer : TokenSigner :=
  mkTokenSigner (fun p => Some (AuthToken.accountId p)) (fun secret _ => secret).

Definition demo_password : PasswordCrypto :=
  mkPasswordCrypto
    (fun password salt =>
       repeat (Z.of_nat (String.length password) + hd 0 salt) 32)
    (fun s => Some (map (fun c => Z.of_nat (nat_of_ascii c))
                        (list_ascii_of_string s)))
    (fun l => string_of_list_ascii
                (map (fun b => ascii_of_nat (Z.to_nat b)) l)).

Definition demo_salt : list Z :=
  [1; 2; 3; 4; 5; 6; 7; 8; 9; 10; 11; 12; 13; 14; 15; 16].

Definition window_crypto : WebCrypto :=
  mkWebCrypto (fun p => Some (AuthToken.mk p 604800 0))
              (fun secret sig _ => Some (String.eqb sig secret)).

(** The record that [createAccount] builds. *)
Definition new_account (rt : Runtime) (pc : PasswordCrypto) (d : Draw)
    (request : CreateAccountRequest.t) : Account.t :=
  Account.mk (randomUUID d)
             (trim (toLowerCase (CreateAccountRequest.email request)))
             (hashPassword pc (getRandomValues d)
                           (CreateAccountRequest.password request))
             []
             (toISOString rt (Date_now d)) (toISOString rt (Date_now d)).

(** [JSON.parse] reads back the rendering of the account, which is not
    the empty text. *)
Definition codec_ok (rt : Runtime) (a : Account.t) : Prop :=
  parse_account rt (stringify_account rt a) = Some a
  /\ truthy (stringify_account rt a) = true.

(** The account an address is indexed to, and the record of an account. *)
Definition indexed (address : string) (kv : KVNamespace) : option string :=
  present (lookup (email_key address) (entries kv)).

Definition record_of (accountId : string) (kv : KVNamespace) : option string :=
  present (lookup ("account:" ++ accountId)%string (entries kv)).


(** A string that does not start with white space. *)
Definition headed (s : string) : Prop :=
  match s with
  | EmptyString => True
  | String c _ => is_white_space c = false
  end.


(** A toy runtime for the examples: a date is written as its reading in
    decimal, and an account as its fields between bars, the workspaces
    between commas. *)
Definition demo_stringify (a : Account.t) : string :=
  (Account.id a ++ "|" ++ Account.email a ++ "|" ++ Account.passwordHash a
   ++ "|" ++ String.concat "," (Account.workspaces a)
   ++ "|" ++ Account.createdAt a ++ "|" ++ Account.lastLoginAt a)%string.

Definition demo_parse (s : string) : option Account.t :=
  match split "|" s with
  | [i; e; h; ws; c; l] =>
      Some (Account.mk i e h (if truthy ws then split "," ws else []) c l)
  | _ => None
  end.

Definition demo_stringify_workspace (w : WorkspaceMeta.t) : string :=
  (WorkspaceMeta.id w ++ "|" ++ WorkspaceMeta.ownerId w ++ "|"
   ++ WorkspaceMeta.name w ++ "|" ++ String.concat "," (WorkspaceMeta.members w)
   ++ "|" ++ decimal (WorkspaceMeta.version w)
   ++ "|" ++ WorkspaceMeta.createdAt w)%string.

Definition demo_parse_workspace (s : string) : option WorkspaceMeta.t :=
  match split "|" s with
  | [i; o; n; ms; v; c] =>
      match parseInt v with
      | Num z =>
          Some (WorkspaceMeta.mk i o n (if truthy ms then split "," ms else [])
                                 z c)
      | NaN => None
      end
  | _ => None
  end.

Definition demo_runtime : Runtime :=
  mkRuntime decimal demo_stringify demo_parse
            demo_stringify_workspace demo_parse_workspace.

Definition demo_draw : Draw := mkDraw 1000 "u-1" demo_salt.
Definition demo_later : Draw := mkDraw 5000 "u-2" demo_salt.

Definition empty_kv : KVNamespace := mkKV [] [].

Definition demo_signup : CreateAccountRequest.t :=
  CreateAccountRequest.mk " Alice@Example.ORG " "secret".

Definition demo_login : LoginRequest.t :=
  LoginRequest.mk "alice@example.org" "secret".

(** The namespace after Alice has signed up. *)
Definition demo_accounts : KVNamespace :=
  snd (createAccount demo_runtime demo_password demo_draw demo_signup empty_kv).

(** The identity a request to the Worker carries: the payload of a valid
    bearer token in its Authorization header, under the Worker's secret. *)
Definition caller (cr : WebCrypto) (env : Bindings) (d : Draw)
    (request : Incoming) : option AuthToken.t :=
  match authorization (http request) with
  | Some h =>
      if prefix "Bearer " h
      then match present (Some (slice 7 h)) with
           | Some token =>
               match fst (verifyToken token (Worker.secret env)
                                      (isolate cr d)) with
               | Return payload => payload
               | Throw => None
               end
           | None => None
           end
      else None
  | None => None
  end.

(** The request that reaches a room: the method, headers, query and body
    of the original, with what follows the room's name as its path. *)
Definition forwarded_to (rest : string) (r : Request) : Request :=
  mkRequest (method r) (if truthy rest then rest else "/") (upgrade r)
            (since r) (authorization r) (body r).


(** [JSON.parse] reads back the rendering of the workspace, which is not
    the empty text. *)
Definition workspace_codec_ok (rt : Runtime) (ws : WorkspaceMeta.t) : Prop :=
  parse_workspace rt (stringify_workspace rt ws) = Some ws
  /\ truthy (stringify_workspace rt ws) = true.

(** The workspaces a list of identifiers names in a namespace, in order:
    an identifier without a record is skipped; nothing when a record does
    not parse. *)
Fixpoint listing (rt : Runtime) (e : list (string * string))
    (ids : list string) (acc : list WorkspaceMeta.t)
    : option (list WorkspaceMeta.t) :=
  match ids with
  | [] => Some acc
  | wsId :: r =>
      match present (lookup ("workspace:" ++ wsId)%string e) with
      | Some wsJson =>
          match parse_workspace rt wsJson with
          | Some w => listing rt e r (acc ++ [w])
          | None => None
          end
      | None => listing rt e r acc
      end
  end.

(** The record the Worker makes for a new workspace. *)
Definition new_workspace (rt : Runtime) (d : Draw) (accountId name : string)
    : WorkspaceMeta.t :=
  WorkspaceMeta.mk (randomUUID d) accountId name [accountId] 0
                   (toISOString rt (Date_now d)).


(** The bindings of the examples, and the state after Alice has signed
    up, with no room yet. *)
Definition demo_bindings : Bindings := mkBindings demo_env "test".

Definition demo_cloud : Cloud := mkCloud demo_accounts [].

Definition plain (method path : string) (authorization : option string)
    : Request :=
  mkRequest method path None None authorization None.

(* ===================================================================== *)
(** * Properties *)
(* ===================================================================== *)

(** ** The monad and the frame of each operation *)

Lemma trace_emit e w : trace (emit e w) = trace w ++ [e].
Proof. reflexivity. Qed.

Lemma ws_send_total ws m w :
  try_catch (ws_send ws m) (ret tt) w
  = (Return tt, emit (SendTo ws m (negb (is_closed ws w))) w).
Proof.
  unfold try_catch, ws_send, ret. destruct (is_closed ws w); reflexivity.
Qed.

Lemma send_spec ws m w :
  send ws m w = (Return tt, emit (SendTo ws m (negb (is_closed ws w))) w).
Proof. apply ws_send_total. Qed.

Lemma sendError_spec ws code msg w :
  sendError ws code msg w
  = (Return tt,
     emit (SendTo ws (ServerMessage.error code msg) (negb (is_closed ws w))) w).
Proof. apply send_spec. Qed.

Section Frame.
Context {T : Type} (obs : World -> T).
Hypothesis obs_sessions : forall x w, obs (with_sessions x w) = obs w.
Hypothesis obs_trace : forall x w, obs (with_trace x w) = obs w.
Hypothesis obs_next_socket : forall x w, obs (with_next_socket x w) = obs w.

Lemma keeps_ret A (a : A) : keeps obs (ret a).
Proof. intro w. reflexivity. Qed.

Lemma keeps_throw A : keeps obs (@throw A).
Proof. intro w. reflexivity. Qed.

Lemma keeps_gets A (f : World -> A) : keeps obs (gets f).
Proof. intro w. reflexivity. Qed.

Lemma keeps_bind A B (m : M A) (k : A -> M B) :
  keeps obs m -> (forall a, keeps obs (k a)) -> keeps obs (bind m k).
Proof.
  intros Hm Hk w. unfold bind. specialize (Hm w).
  destruct (m w) as [[a|] w']; simpl in *.
  - rewrite Hk. exact Hm.
  - exact Hm.
Qed.

Lemma keeps_try_catch A (m h : M A) :
  keeps obs m -> keeps obs h -> keeps obs (try_catch m h).
Proof.
  intros Hm Hh w. unfold try_catch. specialize (Hm w).
  destruct (m w) as [[a|] w']; simpl in *.
  - exact Hm.
  - rewrite Hh. exact Hm.
Qed.

Lemma keeps_for_of A (l : list A) (body : A -> M unit) :
  (forall x, keeps obs (body x)) -> keeps obs (for_of l body).
Proof.
  intro Hb. induction l as [|x r IH]; simpl.
  - apply keeps_ret.
  - apply keeps_bind; auto.
Qed.

Lemma keeps_emit e w : obs (emit e w) = obs w.
Proof. apply obs_trace. Qed.

Lemma keeps_send ws m : keeps obs (send ws m).
Proof. intro w. rewrite send_spec. apply keeps_emit. Qed.

Lemma keeps_sendError ws code msg : keeps obs (sendError ws code msg).
Proof. apply keeps_send. Qed.

Lemma keeps_update_session ws f : keeps obs (update_session ws f).
Proof.
  intro w. unfold update_session, modify. simpl.
  destruct (Map_get ws (sessions w)); auto.
Qed.

Lemma keeps_broadcast m : keeps obs (broadcast m).
Proof.
  unfold broadcast. apply keeps_bind; [apply keeps_gets|].
  intro all. apply keeps_for_of. intros [ws s].
  destruct (truthy_opt _); [apply keeps_send | apply keeps_ret].
Qed.

Lemma keeps_broadcastExcept sender m : keeps obs (broadcastExcept sender m).
Proof.
  unfold broadcastExcept. apply keeps_bind; [apply keeps_gets|].
  intro all. apply keeps_for_of. intros [ws s].
  destruct (_ && _); [apply keeps_send | apply keeps_ret].
Qed.

Lemma keeps_broadcastPresence : keeps obs broadcastPresence.
Proof.
  unfold broadcastPresence. apply keeps_bind; [apply keeps_gets|].
  intro. apply keeps_broadcast.
Qed.

Lemma keeps_verifyToken token secret : keeps obs (verifyToken token secret).
Proof. apply keeps_gets. Qed.

Lemma keeps_handleAuth ws s token : keeps obs (handleAuth ws s token).
Proof.
  unfold handleAuth. apply keeps_bind; [apply keeps_gets|]. intro secret.
  apply keeps_bind; [apply keeps_verifyToken|]. intros [p|].
  - apply keeps_bind; [apply keeps_gets|]. intro n.
    apply keeps_bind; [apply keeps_update_session|]. intro.
    apply keeps_send.
  - apply keeps_sendError.
Qed.

Lemma keeps_handleJoin ws s wid : keeps obs (handleJoin ws s wid).
Proof.
  unfold handleJoin. destruct (negb _); [apply keeps_sendError|].
  apply keeps_bind; [apply keeps_update_session|]. intro.
  apply keeps_bind; [apply keeps_gets|]. intro v.
  apply keeps_bind; [apply keeps_send|]. intro.
  apply keeps_broadcastPresence.
Qed.

Lemma keeps_handleLeave ws s : keeps obs (handleLeave ws s).
Proof.
  unfold handleLeave. apply keeps_bind; [apply keeps_update_session|].
  intro. apply keeps_broadcastPresence.
Qed.

Lemma keeps_handlePull ws s v : keeps obs (handlePull ws s v).
Proof.
  unfold handlePull. destruct (_ || _); [apply keeps_sendError|].
  apply keeps_bind; [apply keeps_gets|]. intro l.
  apply keeps_bind; [apply keeps_gets|]. intro cv.
  apply keeps_send.
Qed.

Lemma keeps_handleWebSocket request : keeps obs (handleWebSocket request).
Proof.
  intro w. unfold handleWebSocket, bind, gets, modify, ret. simpl.
  rewrite obs_sessions. apply obs_next_socket.
Qed.

Lemma keeps_webSocketClose ws : keeps obs (webSocketClose ws).
Proof.
  unfold webSocketClose. apply keeps_bind; [apply keeps_gets|].
  intros [s|]; [|apply keeps_ret].
  apply keeps_bind; [|intro; apply keeps_broadcastPresence].
  intro w. apply obs_sessions.
Qed.

Lemma keeps_webSocketError ws : keeps obs (webSocketError ws).
Proof. intro w. apply obs_sessions. Qed.
End Frame.

(** ** Version assignment *)

Lemma numbered_length v l : List.length (numbered v l) = List.length l.
Proof.
  revert v. induction l as [|c r IH]; intro v; simpl; [|rewrite IH]; reflexivity.
Qed.

Lemma numbered_app v l1 l2 :
  numbered v (l1 ++ l2)
  = numbered v l1 ++ numbered (v + Z.of_nat (List.length l1)) l2.
Proof.
  revert v. induction l1 as [|c r IH]; intro v; simpl.
  - rewrite Z.add_0_r. reflexivity.
  - rewrite IH. do 3 f_equal. lia.
Qed.

Lemma numbered_versions v l :
  map EncryptedChange.version (numbered v l)
  = map (fun i => v + Z.of_nat i) (seq 1 (List.length l)).
Proof.
  revert v. induction l as [|c r IH]; intro v; simpl; [reflexivity|].
  f_equal. rewrite IH, <- (seq_shift (List.length r) 1), map_map.
  apply map_ext. intro i. lia.
Qed.

Lemma numbered_payload v l :
  map EncryptedChange.payload (numbered v l) = map EncryptedChange.payload l.
Proof.
  revert v. induction l as [|c r IH]; intro v; simpl; [|rewrite IH]; reflexivity.
Qed.

Lemma numbered_nth v l i c :
  nth_error l i = Some c ->
  nth_error (numbered v l) i
  = Some (EncryptedChange.set_version (v + Z.of_nat i + 1) c).
Proof.
  revert v i. induction l as [|c0 r IH]; intros v [|i] H; simpl in *;
    try discriminate.
  - inversion H. do 2 f_equal. lia.
  - rewrite (IH _ _ H). do 2 f_equal. lia.
Qed.

Lemma accepted_records l : accepted_elements (map Object l) = l.
Proof. induction l as [|c r IH]; simpl; [|rewrite IH]; reflexivity. Qed.

Lemma forallb_records l : forallb is_object (map Object l) = true.
Proof. induction l as [|c r IH]; simpl; [reflexivity | exact IH]. Qed.

Lemma elements_typed elements :
  forallb is_object elements = true ->
  elements = map Object (accepted_elements elements).
Proof.
  induction elements as [|[c|] r IH]; simpl; intro H;
    [reflexivity | rewrite <- (IH H); reflexivity | discriminate].
Qed.

Lemma elements_stall elements :
  forallb is_object elements = false ->
  exists rest,
    elements = map Object (accepted_elements elements) ++ Primitive :: rest.
Proof.
  induction elements as [|[c|] r IH]; simpl; intro H; [discriminate| |].
  - destruct (IH H) as [rest E]. exists rest. rewrite <- E. reflexivity.
  - exists r. reflexivity.
Qed.

(** A batch is an array of records, or not iterable, or one at which the
    loop stops. *)
Lemma batch_cases b :
  b = records (accepted b) /\ stalls b = false
  \/ b = NotIterable
  \/ stalls b = true
     /\ exists rest,
          b = Iterable (map Object (accepted b) ++ Primitive :: rest).
Proof.
  destruct b as [elements|]; [|right; left; reflexivity].
  simpl. destruct (forallb is_object elements) eqn:F.
  - left. split; [|reflexivity]. unfold records.
    rewrite <- (elements_typed elements F). reflexivity.
  - right. right. split; [reflexivity|].
    destruct (elements_stall elements F) as [rest E]. exists rest.
    rewrite <- E. reflexivity.
Qed.

Lemma well_typed_records b : well_typed b = true <-> exists l, b = records l.
Proof.
  split.
  - destruct b as [elements|]; simpl; [|discriminate]. intro F.
    exists (accepted_elements elements). unfold records.
    rewrite <- (elements_typed elements F). reflexivity.
  - intros [l ->]. apply forallb_records.
Qed.

Lemma stalls_records l : stalls (records l) = false.
Proof. simpl. rewrite forallb_records. reflexivity. Qed.

Lemma assign_versions_spec l w :
  assign_versions (map Object l) w
  = (Return (numbered (currentVersion w) l),
     with_currentVersion (currentVersion w + Z.of_nat (List.length l))
       (with_changes (changes w ++ numbered (currentVersion w) l) w)).
Proof.
  revert w. induction l as [|c r IH]; intro w.
  - simpl. unfold ret. destruct w; unfold with_currentVersion, with_changes;
      simpl. rewrite Z.add_0_r, app_nil_r. reflexivity.
  - cbn [map assign_versions]. unfold bind at 1. unfold modify at 1.
    unfold bind at 1. unfold gets at 1. unfold bind at 1.
    unfold modify at 1. unfold bind at 1. rewrite IH. unfold ret.
    destruct w; unfold with_currentVersion, with_changes; simpl.
    rewrite <- app_assoc. cbn [app List.length].
    replace (currentVersion0 + 1 + Z.of_nat (List.length r))
      with (currentVersion0 + Z.of_nat (S (List.length r))) by lia.
    reflexivity.
Qed.

(** The loop stopped by an element that is not an object: the records
    before it are in the log, and the counter stands one beyond them. *)
Lemma assign_versions_stall l rest w :
  assign_versions (map Object l ++ Primitive :: rest) w
  = (Throw,
     with_currentVersion (currentVersion w + Z.of_nat (List.length l) + 1)
       (with_changes (changes w ++ numbered (currentVersion w) l) w)).
Proof.
  revert w. induction l as [|c r IH]; intro w.
  - simpl. unfold bind, modify, gets, throw.
    destruct w; unfold with_currentVersion, with_changes; simpl.
    rewrite Z.add_0_r, app_nil_r. reflexivity.
  - cbn [map app assign_versions]. unfold bind at 1. unfold modify at 1.
    unfold bind at 1. unfold gets at 1. unfold bind at 1.
    unfold modify at 1. unfold bind at 1. rewrite IH.
    destruct w; unfold with_currentVersion, with_changes; simpl.
    rewrite <- app_assoc. cbn [app List.length].
    replace (currentVersion0 + 1 + Z.of_nat (List.length r) + 1)
      with (currentVersion0 + Z.of_nat (S (List.length r)) + 1) by lia.
    reflexivity.
Qed.

Lemma applyChanges_ok l w :
  puts_succeed (faults w) = true ->
  let v' := currentVersion w + Z.of_nat (List.length l) in
  let log' := changes w ++ numbered (currentVersion w) l in
  applyChanges (records l) w
  = (Return (numbered (currentVersion w) l),
     mkWorld (sessions w) log' v' (env w) (mkStorage (Some v') (Some log'))
             (crypto w) (now w) (closed w) (tl (tl (faults w)))
             (next_socket w)
             (trace w ++ [PutVersion v' true; PutChanges log' true])).
Proof.
  intros H v' log'. unfold applyChanges, records, bind.
  rewrite assign_versions_spec.
  fold v' log'. clearbody v' log'.
  unfold gets, put_version, put_changes, storage_put, ret, emit.
  destruct w as [ss cs cv e st cr n cl f ns tr]; simpl in *.
  destruct f as [|[] [|[] f]]; simpl in *; try discriminate;
    rewrite <- app_assoc; reflexivity.
Qed.

Lemma applyChanges_first_put_fails l w f :
  faults w = true :: f ->
  let v' := currentVersion w + Z.of_nat (List.length l) in
  let log' := changes w ++ numbered (currentVersion w) l in
  applyChanges (records l) w
  = (Throw,
     mkWorld (sessions w) log' v' (env w) (storage w) (crypto w) (now w)
             (closed w) f (next_socket w)
             (trace w ++ [PutVersion v' false])).
Proof.
  intros H v' log'. unfold applyChanges, records, bind.
  rewrite assign_versions_spec.
  fold v' log'. clearbody v' log'.
  unfold gets, put_version, put_changes, storage_put, ret, emit.
  destruct w as [ss cs cv e st cr n cl f0 ns tr]; simpl in *.
  subst f0. reflexivity.
Qed.

Lemma applyChanges_second_put_fails l w f :
  faults w = false :: true :: f ->
  let v' := currentVersion w + Z.of_nat (List.length l) in
  let log' := changes w ++ numbered (currentVersion w) l in
  applyChanges (records l) w
  = (Throw,
     mkWorld (sessions w) log' v' (env w)
             (mkStorage (Some v') (stored_changes (storage w)))
             (crypto w) (now w) (closed w) f (next_socket w)
             (trace w ++ [PutVersion v' true; PutChanges log' false])).
Proof.
  intros H v' log'. unfold applyChanges, records, bind.
  rewrite assign_versions_spec.
  fold v' log'. clearbody v' log'.
  unfold gets, put_version, put_changes, storage_put, ret, emit.
  destruct w as [ss cs cv e st cr n cl f0 ns tr]; simpl in *.
  subst f0. simpl. rewrite <- app_assoc. reflexivity.
Qed.

(** A batch at which the loop stops: [applyChanges] throws before it
    writes anything to the storage. *)
Lemma applyChanges_stall b w :
  stalls b = true ->
  applyChanges b w
  = (Throw,
     with_currentVersion
       (currentVersion w + Z.of_nat (List.length (accepted b)) + 1)
       (with_changes (changes w ++ numbered (currentVersion w) (accepted b))
          w)).
Proof.
  intro H. destruct (batch_cases b) as [[_ F]|[->|[_ [rest E]]]];
    [congruence | discriminate |].
  rewrite E at 1. unfold applyChanges, bind.
  rewrite assign_versions_stall. reflexivity.
Qed.

Lemma applyChanges_not_iterable w : applyChanges NotIterable w = (Throw, w).
Proof. reflexivity. Qed.

Lemma puts_fail_cases f :
  puts_succeed f = false ->
  (exists r, f = true :: r) \/ (exists r, f = false :: true :: r).
Proof.
  destruct f as [|[] [|[] r]]; simpl; intro H; try discriminate; eauto.
Qed.

(** Whatever the storage does, the in-memory log and counter move on. *)
Lemma applyChanges_records_log l w :
  log_of (snd (applyChanges (records l) w))
  = (changes w ++ numbered (currentVersion w) l,
     currentVersion w + Z.of_nat (List.length l)).
Proof.
  destruct (puts_succeed (faults w)) eqn:H.
  - rewrite (applyChanges_ok l w H). reflexivity.
  - destruct (puts_fail_cases _ H) as [[r Hr]|[r Hr]].
    + rewrite (applyChanges_first_put_fails l w r Hr). reflexivity.
    + rewrite (applyChanges_second_put_fails l w r Hr). reflexivity.
Qed.

Lemma applyChanges_log b w :
  log_of (snd (applyChanges b w))
  = (changes w ++ numbered (currentVersion w) (accepted b),
     currentVersion w + Z.of_nat (List.length (accepted b))
     + (if stalls b then 1 else 0)).
Proof.
  destruct (batch_cases b) as [[E F]|[->|[F _]]].
  - rewrite F, Z.add_0_r. rewrite E at 1. apply applyChanges_records_log.
  - unfold log_of. simpl. rewrite app_nil_r, !Z.add_0_r. reflexivity.
  - rewrite F, (applyChanges_stall b w F). reflexivity.
Qed.

(** ** Broadcasts *)

Lemma with_trace_same w : with_trace (trace w) w = w.
Proof. destruct w; reflexivity. Qed.

Lemma for_of_send (p : WebSocket * Session.t -> bool) (m : ServerMessage.t)
    (body : WebSocket * Session.t -> M unit)
    (all : list (WebSocket * Session.t)) :
  (forall e, body e = if p e then try_catch (ws_send (fst e) m) (ret tt)
                      else ret tt) ->
  forall w,
    for_of all body w
    = (Return tt,
       with_trace (trace w ++ attempts m (map fst (filter p all)) w) w).
Proof.
  intro Hbody. induction all as [|e r IH]; intro w.
  - simpl. rewrite app_nil_r, with_trace_same. reflexivity.
  - cbn [for_of filter]. unfold bind. rewrite Hbody.
    destruct (p e).
    + rewrite ws_send_total, IH. cbn [map attempts].
      rewrite trace_emit, <- app_assoc. reflexivity.
    + unfold ret at 1. apply IH.
Qed.

Lemma broadcast_spec m w :
  broadcast m w
  = (Return tt, with_trace (trace w ++ attempts m (recipients w) w) w).
Proof.
  unfold broadcast, bind, gets.
  apply (for_of_send (fun e => truthy_opt (Session.workspaceId (snd e)))).
  intros [ws s]. reflexivity.
Qed.

Lemma broadcastExcept_spec sender m w :
  broadcastExcept sender m w
  = (Return tt,
     with_trace (trace w ++ attempts m (recipients_except sender w) w) w).
Proof.
  unfold broadcastExcept, bind, gets.
  apply (for_of_send
           (fun e => negb (Nat.eqb (fst e) sender)
                     && truthy_opt (Session.workspaceId (snd e)))).
  intros [ws s]. reflexivity.
Qed.

(** ** Push and pull *)

Lemma guard_is_joined s :
  negb (truthy (Session.accountId s))
  || negb (truthy_opt (Session.workspaceId s)) = negb (is_joined s).
Proof. unfold is_joined. rewrite negb_andb. reflexivity. Qed.

Lemma handlePush_rejected ws s b w :
  is_joined s = false ->
  handlePush ws s b w
  = (Return tt,
     emit (SendTo ws
             (ServerMessage.error "NOT_JOINED" "Must join a workspace first")
             (negb (is_closed ws w))) w).
Proof.
  intro H. unfold handlePush. rewrite guard_is_joined, H. apply sendError_spec.
Qed.

Lemma handlePull_rejected ws s v w :
  is_joined s = false ->
  handlePull ws s v w
  = (Return tt,
     emit (SendTo ws
             (ServerMessage.error "NOT_JOINED" "Must join a workspace first")
             (negb (is_closed ws w))) w).
Proof.
  intro H. unfold handlePull. rewrite guard_is_joined, H. apply sendError_spec.
Qed.

Lemma handlePull_spec ws s v w :
  is_joined s = true ->
  handlePull ws s v w
  = (Return tt, emit (SendTo ws (pull_reply v w) (negb (is_closed ws w))) w).
Proof.
  intro H. unfold handlePull. rewrite guard_is_joined, H. simpl.
  unfold bind, gets. apply send_spec.
Qed.

Lemma handlePush_ok ws s l w :
  is_joined s = true ->
  puts_succeed (faults w) = true ->
  let v' := currentVersion w + Z.of_nat (List.length l) in
  let log' := changes w ++ numbered (currentVersion w) l in
  handlePush ws s (records l) w
  = (Return tt,
     mkWorld (sessions w) log' v' (env w) (mkStorage (Some v') (Some log'))
             (crypto w) (now w) (closed w) (tl (tl (faults w)))
             (next_socket w)
             (trace w
              ++ [PutVersion v' true; PutChanges log' true;
                  SendTo ws (ServerMessage.pushed v') (negb (is_closed ws w))]
              ++ attempts
                   (ServerMessage.changes (numbered (currentVersion w) l) v')
                   (recipients_except ws w) w)).
Proof.
  intros Hj Hf v' log'. unfold handlePush. rewrite guard_is_joined, Hj.
  change (negb true) with false. cbv beta iota. unfold bind at 1.
  rewrite (applyChanges_ok l w Hf). fold v' log'.
  unfold bind, gets. rewrite send_spec, broadcastExcept_spec.
  unfold emit, with_trace, attempts, recipients_except, is_closed. simpl.
  rewrite <- !app_assoc. reflexivity.
Qed.

Lemma handlePush_fails ws s l w :
  is_joined s = true ->
  puts_succeed (faults w) = false ->
  let v' := currentVersion w + Z.of_nat (List.length l) in
  let log' := changes w ++ numbered (currentVersion w) l in
  exists w',
    handlePush ws s (records l) w = (Throw, w')
    /\ sessions w' = sessions w /\ closed w' = closed w
    /\ log_of w' = (log', v')
    /\ (trace w' = trace w ++ [PutVersion v' false]
        \/ trace w' = trace w ++ [PutVersion v' true; PutChanges log' false]).
Proof.
  intros Hj Hf v' log'. unfold handlePush. rewrite guard_is_joined, Hj.
  change (negb true) with false. cbv beta iota. unfold bind at 1.
  destruct (puts_fail_cases _ Hf) as [[r Hr]|[r Hr]].
  - rewrite (applyChanges_first_put_fails l w r Hr). fold v' log'.
    eexists. split; [reflexivity|]. simpl. auto.
  - rewrite (applyChanges_second_put_fails l w r Hr). fold v' log'.
    eexists. split; [reflexivity|]. simpl. auto.
Qed.

(** A push of a batch at which the loop stops, by a joined session:
    [handlePush] throws with the records before the stop in the log and
    the counter one beyond them; nothing is written or sent. *)
Lemma handlePush_stall ws s b w :
  is_joined s = true ->
  stalls b = true ->
  handlePush ws s b w
  = (Throw,
     with_currentVersion
       (currentVersion w + Z.of_nat (List.length (accepted b)) + 1)
       (with_changes (changes w ++ numbered (currentVersion w) (accepted b))
          w)).
Proof.
  intros Hj Hb. unfold handlePush. rewrite guard_is_joined, Hj.
  change (negb true) with false. cbv beta iota. unfold bind at 1.
  rewrite (applyChanges_stall b w Hb). reflexivity.
Qed.

Lemma handlePush_not_iterable ws s w :
  is_joined s = true -> handlePush ws s NotIterable w = (Throw, w).
Proof.
  intro Hj. unfold handlePush. rewrite guard_is_joined, Hj. reflexivity.
Qed.

(** ** The log invariant along a run *)

Lemma snd_try_catch_keeps {T} (obs : World -> T) {A} (m h : M A) w :
  keeps obs h -> obs (snd (try_catch m h w)) = obs (snd (m w)).
Proof.
  intro Hh. unfold try_catch. destruct (m w) as [[a|] w']; simpl; auto.
Qed.

Lemma extends_log_nil w w' : log_of w' = log_of w -> extends_log w w' [] 0.
Proof.
  intro H. unfold extends_log. rewrite H. unfold log_of. simpl.
  rewrite app_nil_r, !Z.add_0_r. reflexivity.
Qed.

Lemma handlePush_records_log ws s l w :
  log_of (snd (handlePush ws s (records l) w))
  = if is_joined s
    then (changes w ++ numbered (currentVersion w) l,
          currentVersion w + Z.of_nat (List.length l))
    else log_of w.
Proof.
  destruct (is_joined s) eqn:Hj.
  - destruct (puts_succeed (faults w)) eqn:Hf.
    + rewrite (handlePush_ok ws s l w Hj Hf). reflexivity.
    + destruct (handlePush_fails ws s l w Hj Hf) as (w' & E & _ & _ & L & _).
      rewrite E. exact L.
  - rewrite (handlePush_rejected ws s (records l) w Hj). reflexivity.
Qed.

Lemma handlePush_log ws s b w :
  log_of (snd (handlePush ws s b w))
  = if is_joined s
    then (changes w ++ numbered (currentVersion w) (accepted b),
          currentVersion w + Z.of_nat (List.length (accepted b))
          + (if stalls b then 1 else 0))
    else log_of w.
Proof.
  destruct (is_joined s) eqn:Hj;
    [|rewrite (handlePush_rejected ws s b w Hj); reflexivity].
  destruct (batch_cases b) as [[E F]|[->|[F _]]].
  - rewrite F, Z.add_0_r. rewrite E at 1.
    rewrite handlePush_records_log, Hj. reflexivity.
  - rewrite (handlePush_not_iterable ws s w Hj). unfold log_of. simpl.
    rewrite app_nil_r, !Z.add_0_r. reflexivity.
  - rewrite F, (handlePush_stall ws s b w Hj F). reflexivity.
Qed.

Lemma is_joined_set_lastSeen n s :
  is_joined (Session.set_lastSeen n s) = is_joined s.
Proof. reflexivity. Qed.

Lemma log_of_sessions x w : log_of (with_sessions x w) = log_of w.
Proof. reflexivity. Qed.
Lemma log_of_trace x w : log_of (with_trace x w) = log_of w.
Proof. reflexivity. Qed.
Lemma log_of_next_socket x w : log_of (with_next_socket x w) = log_of w.
Proof. reflexivity. Qed.

Lemma ledger_sessions x w : ledger (with_sessions x w) = ledger w.
Proof. reflexivity. Qed.
Lemma ledger_trace x w : ledger (with_trace x w) = ledger w.
Proof. reflexivity. Qed.
Lemma ledger_next_socket x w : ledger (with_next_socket x w) = ledger w.
Proof. reflexivity. Qed.

Create HintDb frame.
#[local] Hint Resolve log_of_sessions log_of_trace log_of_next_socket
  ledger_sessions ledger_trace ledger_next_socket : frame.
#[local] Hint Resolve keeps_ret keeps_throw keeps_gets keeps_send
  keeps_sendError keeps_update_session keeps_broadcast keeps_broadcastExcept
  keeps_broadcastPresence keeps_verifyToken keeps_handleAuth keeps_handleJoin
  keeps_handleLeave keeps_handlePull keeps_handleWebSocket
  keeps_webSocketClose keeps_webSocketError : frame.

Lemma update_session_log ws f w :
  log_of (snd (update_session ws f w)) = log_of w.
Proof. apply keeps_update_session; auto with frame. Qed.

Lemma webSocketMessage_extends ws message w :
  exists l k,
    extends_log w (snd (webSocketMessage ws message w)) l k
    /\ (k = 0
        \/ k = 1
           /\ exists b,
                message = Parsed (SyncMessage.push b) /\ stalls b = true).
Proof.
  unfold webSocketMessage, bind at 1, gets at 1.
  destruct (Map_get ws (sessions w)) as [s|] eqn:Hs;
    [|exists [], 0; split; [apply extends_log_nil; reflexivity | auto]].
  unfold bind at 1, gets at 1. unfold bind at 1.
  destruct (update_session ws (Session.set_lastSeen (now w)) w)
    as [[[]|] w1] eqn:Hu;
    [|unfold update_session, modify in Hu; discriminate].
  assert (L1 : log_of w1 = log_of w).
  { change w1 with (snd (Return tt, w1)). rewrite <- Hu.
    apply update_session_log. }
  assert (C1 : changes w1 = changes w) by (injection L1; auto).
  assert (V1 : currentVersion w1 = currentVersion w) by (injection L1; auto).
  unfold extends_log.
  rewrite (snd_try_catch_keeps log_of) by auto with frame.
  fold (extends_log w).
  destruct message as [| |[token|wid| |b|v|v]];
    try (exists [], 0; split; [|auto]; apply extends_log_nil; rewrite <- L1;
         first [ reflexivity
               | apply keeps_handleAuth; auto with frame
               | apply keeps_handleJoin; auto with frame
               | apply keeps_handleLeave; auto with frame
               | apply keeps_handlePull; auto with frame ]).
  unfold extends_log. rewrite handlePush_log, is_joined_set_lastSeen.
  destruct (is_joined s).
  - exists (accepted b), (if stalls b then 1 else 0). rewrite C1, V1.
    split; [reflexivity|].
    destruct (stalls b) eqn:F; [right | left; reflexivity].
    split; [reflexivity|]. exists b. split; [reflexivity | exact F].
  - exists [], 0. split; [|auto]. rewrite L1. unfold log_of. simpl.
    rewrite app_nil_r, !Z.add_0_r. reflexivity.
Qed.

Lemma bind_gets A B (f : World -> A) (k : A -> M B) w :
  bind (gets f) k w = k (f w) w.
Proof. reflexivity. Qed.

Lemma snd_bind_keeps {T} (obs : World -> T) {A B} (m : M A) (k : A -> M B) w :
  (forall a, keeps obs (k a)) -> obs (snd (bind m k w)) = obs (snd (m w)).
Proof.
  intro Hk. unfold bind. destruct (m w) as [[a|] w']; simpl;
    [apply Hk | reflexivity].
Qed.

Lemma verifyToken_run token w :
  verifyToken token (secret_of w) w = (Return (token_payload token w), w).
Proof. reflexivity. Qed.

Lemma bind_verifyToken B token (k : option AuthToken.t -> M B) w :
  bind (verifyToken token (secret_of w)) k w = k (token_payload token w) w.
Proof. reflexivity. Qed.

(** ** The stateless endpoints *)

Lemma fetch_get request w :
  is_upgrade request = false ->
  pathname request = "/changes" ->
  method request = "GET" ->
  fetch request w
  = (Return (Json 200
       (BodyChanges
          (changes_since (parseInt (or_default (since request) "0")) w)
          (currentVersion w))),
     w).
Proof.
  intros Hu Hp Hm. unfold fetch. fold (is_upgrade request).
  rewrite Hu, Hp, Hm. reflexivity.
Qed.

Lemma fetch_post_unauthorized request w :
  is_upgrade request = false ->
  pathname request = "/changes" ->
  method request = "POST" ->
  bearer_identity request w = None ->
  exists reason,
    fetch request w = (Return (Json 401 (BodyError reason)), w).
Proof.
  intros Hu Hp Hm Hb. unfold fetch. fold (is_upgrade request).
  rewrite Hu, Hp, Hm. simpl. unfold bearer_identity in Hb.
  destruct (authorization request) as [h|]; [|eexists; reflexivity].
  destruct (prefix "Bearer " h); [|eexists; reflexivity].
  rewrite bind_gets, bind_verifyToken, Hb. eexists; reflexivity.
Qed.

Lemma fetch_post_authorized request w p :
  is_upgrade request = false ->
  pathname request = "/changes" ->
  method request = "POST" ->
  bearer_identity request w = Some p ->
  fetch request w
  = match body request with
    | None => (Throw, w)
    | Some newChanges =>
        (newChanges' <- applyChanges newChanges ;;
         v <- gets currentVersion ;;
         broadcast (ServerMessage.changes newChanges' v) ;;
         v <- gets currentVersion ;;
         ret (Json 200 (BodySuccess v))) w
    end.
Proof.
  intros Hu Hp Hm Hb. unfold fetch. fold (is_upgrade request).
  rewrite Hu, Hp, Hm. simpl. unfold bearer_identity in Hb.
  destruct (authorization request) as [h|]; [|discriminate].
  destruct (prefix "Bearer " h); [|discriminate].
  rewrite bind_gets, bind_verifyToken, Hb.
  destruct (body request); reflexivity.
Qed.

Lemma fetch_other request w :
  is_upgrade request = false ->
  (String.eqb (pathname request) "/changes"
   && (String.eqb (method request) "GET"
       || String.eqb (method request) "POST")) = false ->
  fetch request w = (Return (Text 404 "Not found"), w).
Proof.
  intros Hu H. unfold fetch. fold (is_upgrade request). rewrite Hu.
  destruct (String.eqb (pathname request) "/changes");
    destruct (String.eqb (method request) "GET");
    destruct (String.eqb (method request) "POST");
    simpl in *; try discriminate; reflexivity.
Qed.

Lemma fetch_extends request w :
  exists l k,
    extends_log w (snd (fetch request w)) l k
    /\ (k = 0
        \/ k = 1
           /\ exists b,
                pushed_batch (Serve (Fetch request)) = Some b
                /\ stalls b = true).
Proof.
  destruct (is_upgrade request) eqn:Hu.
  { exists [], 0. split; [|auto]. apply extends_log_nil. unfold fetch.
    fold (is_upgrade request). rewrite Hu.
    apply keeps_handleWebSocket; auto with frame. }
  destruct (String.eqb_spec (pathname request) "/changes") as [Hp|Hp].
  2:{ exists [], 0. split; [|auto]. apply extends_log_nil.
      rewrite fetch_other; auto.
      apply String.eqb_neq in Hp. rewrite Hp. reflexivity. }
  destruct (String.eqb_spec (method request) "GET") as [Hg|Hg].
  { exists [], 0. split; [|auto]. apply extends_log_nil.
    rewrite fetch_get; auto. }
  destruct (String.eqb_spec (method request) "POST") as [Ho|Ho].
  2:{ exists [], 0. split; [|auto]. apply extends_log_nil.
      rewrite fetch_other; auto.
      apply String.eqb_neq in Hg, Ho. rewrite Hg, Ho.
      apply andb_false_r. }
  destruct (bearer_identity request w) as [p|] eqn:Hb.
  2:{ destruct (fetch_post_unauthorized request w Hu Hp Ho Hb) as [r E].
      exists [], 0. split; [|auto]. apply extends_log_nil. rewrite E.
      reflexivity. }
  rewrite (fetch_post_authorized request w p Hu Hp Ho Hb).
  destruct (body request) as [b|] eqn:Hl;
    [|exists [], 0; split; [apply extends_log_nil; reflexivity | auto]].
  exists (accepted b), (if stalls b then 1 else 0). split.
  - unfold extends_log. rewrite (snd_bind_keeps log_of).
    + apply applyChanges_log.
    + intro a. repeat (apply keeps_bind; [auto with frame|intro]).
      auto with frame.
  - destruct (stalls b) eqn:F; [right | left; reflexivity].
    split; [reflexivity|]. exists b. split; [|exact F].
    unfold pushed_batch, is_push. rewrite Hu, Hp, Ho. exact Hl.
Qed.

Lemma serve_extends c w :
  exists l k,
    extends_log w (serve c w) l k
    /\ (k = 0
        \/ k = 1
           /\ exists b, pushed_batch (Serve c) = Some b /\ stalls b = true).
Proof.
  destruct c as [request|ws message|ws|ws]; [apply fetch_extends|..]; simpl.
  - destruct (webSocketMessage_extends ws message w)
      as (l & k & E & [K|[K (b & -> & F)]]);
      exists l, k; (split; [exact E|]); [left; exact K | right].
    split; [exact K|]. exists b. split; [reflexivity | exact F].
  - exists [], 0. split; [|auto]. apply extends_log_nil.
    apply keeps_webSocketClose; auto with frame.
  - exists [], 0. split; [|auto]. apply extends_log_nil. reflexivity.
Qed.

Lemma step_extends w s :
  exists l k,
    extends_log w (step w s) l k
    /\ (k = 0
        \/ k = 1 /\ exists b, pushed_batch s = Some b /\ stalls b = true).
Proof.
  destruct s as [c|n cl f]; simpl.
  - apply serve_extends.
  - exists [], 0. split; [|auto]. apply extends_log_nil. reflexivity.
Qed.

Lemma seq_offset k n s :
  map Z.of_nat (seq (s + k) n)
  = map (fun i => Z.of_nat k + Z.of_nat i) (seq s n).
Proof.
  revert s. induction n as [|n IH]; intro s; simpl; [reflexivity|].
  f_equal; [lia|]. apply (IH (S s)).
Qed.

Lemma one_to_app a n :
  0 <= a ->
  one_to (a + Z.of_nat n)
  = one_to a ++ map (fun i => a + Z.of_nat i) (seq 1 n).
Proof.
  intro Ha. unfold one_to.
  replace (Z.to_nat (a + Z.of_nat n)) with (Z.to_nat a + n)%nat by lia.
  rewrite seq_app, map_app. f_equal.
  rewrite seq_offset. apply map_ext. intro i. lia.
Qed.

Lemma gapless_extends w w' l :
  gapless w -> extends_log w w' l 0 -> gapless w'.
Proof.
  intros [Hv H0] E. unfold extends_log, log_of in E.
  injection E as Ec Ev. unfold gapless, versions in *.
  rewrite Ec, Ev, Z.add_0_r, map_app, Hv, numbered_versions, one_to_app
    by assumption.
  split; [reflexivity|lia].
Qed.

Lemma gapless_run steps w :
  gapless w -> no_stall steps -> gapless (run steps w).
Proof.
  revert w. induction steps as [|s r IH]; intros w H N; simpl; [exact H|].
  apply IH.
  - destruct (step_extends w s) as (l & k & E & [->|[_ (b & P & F)]]).
    + exact (gapless_extends w _ l H E).
    + rewrite (N s b (or_introl eq_refl) P) in F. discriminate.
  - intros s' b Hs. apply N. right. exact Hs.
Qed.

Lemma gapless_start e cr : gapless (start e cr).
Proof. split; [reflexivity|]. simpl. lia. Qed.

Lemma sorted_app l1 l2 :
  StronglySorted Z.lt l1 ->
  StronglySorted Z.lt l2 ->
  (forall x y, In x l1 -> In y l2 -> x < y) ->
  StronglySorted Z.lt (l1 ++ l2).
Proof.
  intros H1 H2 H. induction H1 as [|a l Hs IH Ha]; simpl; [exact H2|].
  constructor.
  - apply IH. intros x y Hx. apply H. right. exact Hx.
  - apply Forall_app. split; [exact Ha|].
    apply Forall_forall. intros y Hy. apply H; [left; reflexivity | exact Hy].
Qed.

Lemma offsets_sorted v n :
  StronglySorted Z.lt (map (fun i => v + Z.of_nat i) (seq 1 n)).
Proof.
  generalize 1%nat as s. induction n as [|n IH]; intro s; simpl; constructor.
  - apply IH.
  - apply Forall_forall. intros x Hx. apply in_map_iff in Hx.
    destruct Hx as (i & <- & Hi). apply in_seq in Hi. lia.
Qed.

Lemma log_ok_extends w w' l k :
  log_ok w -> extends_log w w' l k -> 0 <= k -> log_ok w'.
Proof.
  intros (Hs & Hb & H0) E Hk. unfold extends_log, log_of in E.
  injection E as Ec Ev. unfold log_ok, versions in *.
  rewrite Ec, Ev, map_app, numbered_versions.
  rewrite Forall_forall in Hb. refine (conj _ (conj _ _)).
  - apply sorted_app; [exact Hs | apply offsets_sorted |].
    intros x y Hx Hy. specialize (Hb x Hx). apply in_map_iff in Hy.
    destruct Hy as (i & <- & Hi). apply in_seq in Hi. lia.
  - apply Forall_app. split; apply Forall_forall; intros x Hx.
    + specialize (Hb x Hx). lia.
    + apply in_map_iff in Hx. destruct Hx as (i & <- & Hi).
      apply in_seq in Hi. lia.
  - lia.
Qed.

Lemma log_ok_run steps w : log_ok w -> log_ok (run steps w).
Proof.
  revert w. induction steps as [|s r IH]; intros w H; simpl; [exact H|].
  apply IH. destruct (step_extends w s) as (l & k & E & K).
  apply (log_ok_extends w _ l k H E). destruct K as [->|[-> _]]; lia.
Qed.

Lemma log_ok_start e cr : log_ok (start e cr).
Proof.
  refine (conj _ (conj _ _)); [constructor | constructor | simpl; lia].
Qed.

Lemma one_to_sorted n : StronglySorted Z.lt (one_to n).
Proof.
  unfold one_to. generalize (Z.to_nat n) as k. intro k. generalize 1%nat as s.
  induction k as [|k IH]; intro s; simpl; constructor.
  - apply IH.
  - apply Forall_forall. intros x Hx. apply in_map_iff in Hx.
    destruct Hx as (i & <- & Hi). apply in_seq in Hi. lia.
Qed.

Lemma one_to_In n v : In v (one_to n) <-> 1 <= v <= n.
Proof.
  unfold one_to. rewrite in_map_iff. split.
  - intros (i & <- & Hi). apply in_seq in Hi. lia.
  - intro H. exists (Z.to_nat v). split; [lia|]. apply in_seq. lia.
Qed.

Lemma one_to_length n : 0 <= n -> Z.of_nat (List.length (one_to n)) = n.
Proof. intro H. unfold one_to. rewrite length_map, length_seq. lia. Qed.

Lemma sorted_lt_NoDup l : StronglySorted Z.lt l -> NoDup l.
Proof.
  induction 1 as [|a l Hs IH Hall]; constructor; auto.
  intro Hin. rewrite Forall_forall in Hall. specialize (Hall a Hin). lia.
Qed.

Lemma apply_batches_log batches w :
  log_of (apply_batches batches w)
  = (changes w ++ numbered (currentVersion w) (List.concat batches),
     currentVersion w + Z.of_nat (List.length (List.concat batches))).
Proof.
  revert w. induction batches as [|b r IH]; intro w; simpl.
  - unfold log_of. rewrite app_nil_r, Z.add_0_r. reflexivity.
  - unfold apply_batches in IH. rewrite IH.
    pose proof (applyChanges_records_log b w) as E. unfold log_of in E.
    injection E as Ec Ev. rewrite Ec, Ev, numbered_app, length_app.
    rewrite <- app_assoc. f_equal. lia.
Qed.

Example demo_alice_registered :
  Map_get 1%nat (sessions demo_joined) = Some demo_alice.
Proof. vm_compute. reflexivity. Qed.

Example demo_pushed_versions :
  versions demo_pushed = [1; 2; 3] /\ currentVersion demo_pushed = 3.
Proof. vm_compute. split; reflexivity. Qed.

(** The first scenario of the specification: Alice pushes two records;
    both writes reach the storage, Alice is sent [pushed 2], and the
    records go out with versions 1 and 2 to Bob (whose socket is dead)
    and to Carol. *)
Example demo_push_scenario :
  let relay :=
    ServerMessage.changes
      [EncryptedChange.set_version 1 change_a;
       EncryptedChange.set_version 2 change_b] 2 in
  skipn (List.length (trace demo_joined))
        (trace (serve (SocketMessage 1%nat
                         (Parsed (SyncMessage.push
                                 (records [change_a; change_b]))))
                      demo_joined))
  = [PutVersion 2 true;
     PutChanges [EncryptedChange.set_version 1 change_a;
                 EncryptedChange.set_version 2 change_b] true;
     SendTo 1%nat (ServerMessage.pushed 2) true;
     SendTo 3%nat relay false;
     SendTo 5%nat relay true].
Proof. vm_compute. reflexivity. Qed.

(* ===================================================================== *)
(** * The claims *)
(* ===================================================================== *)

(** C1.  The claim does not hold of the code.  Three records are in the
    log with the versions 1, 2, 3.  Alice, who has joined, then sends a
    push whose batch is [null]: the loop of [applyChanges] increments the
    counter to 4 before the assignment of [version] throws, so nothing is
    appended, nothing is written to the storage and nothing is relayed,
    and the push is answered with PARSE_ERROR.  The record of her next
    push gets version 5: the log then carries the versions 1, 2, 3, 5
    under the counter 5, and version 4 is never assigned. *)
Theorem ill_typed_push_leaves_a_gap :
  let w3 := demo_pushed in
  let w4 := step w3 null_push in
  let w5 :=
    run (demo_connect ++ demo_steps ++ demo_gap_steps)
        (start demo_env demo_crypto) in
  (versions w3 = [1; 2; 3] /\ currentVersion w3 = 3)
  /\ (versions w4 = [1; 2; 3] /\ currentVersion w4 = 4)
  /\ skipn (List.length (trace w3)) (trace w4)
     = [SendTo 1%nat
          (ServerMessage.error "PARSE_ERROR" "Invalid message format") true]
  /\ storage w4 = storage w3
  /\ (versions w5 = [1; 2; 3; 5] /\ currentVersion w5 = 5)
  /\ versions w5 <> one_to (currentVersion w5).
Proof.
  vm_compute.
  refine (conj (conj eq_refl eq_refl)
            (conj (conj eq_refl eq_refl)
               (conj eq_refl (conj eq_refl (conj (conj eq_refl eq_refl) _))))).
  intro H. discriminate H.
Qed.

(** ** The log along every run *)

Lemma sorted_bounded_length l a n :
  StronglySorted Z.lt l ->
  Forall (fun v => a <= v <= n) l ->
  a <= n + 1 ->
  Z.of_nat (List.length l) <= n - a + 1.
Proof.
  intro Hs. revert a. induction Hs as [|x r Hr IH Hx]; intros a Hb Ha.
  - simpl. lia.
  - inversion Hb as [|? ? Hxa Hra]; subst. cbn [List.length].
    assert (Hr' : Forall (fun v => a + 1 <= v <= n) r).
    { rewrite Forall_forall in *. intros v Hv.
      specialize (Hx v Hv). specialize (Hra v Hv). lia. }
    specialize (IH (a + 1) Hr'). lia.
Qed.

(** X26.  Along every run of one instance that starts over empty storage,
    whatever calls are served and however the platform behaves, the
    versions of the log increase strictly in append order, without
    duplicate, each between 1 and the counter, and a step never rewrites
    a record already in the log.  When no push of the run carries a batch
    with an element that is not an object, the versions are exactly 1, 2,
    ..., currentVersion, without gap.  The log and counter that result
    from a sequence of batches of records are those that result from the
    same records submitted as one batch. *)
Theorem versions_increase_and_skip_only_on_a_stall
    (e : Env) (cr : WebCrypto) (steps : list Step) :
  let w := run steps (start e cr) in
  StronglySorted Z.lt (versions w)
  /\ NoDup (versions w)
  /\ (forall v, In v (versions w) -> 1 <= v <= currentVersion w)
  /\ Z.of_nat (List.length (changes w)) <= currentVersion w
  /\ (forall s, exists l, changes (step w s) = changes w ++ l)
  /\ (no_stall steps ->
      versions w = one_to (currentVersion w)
      /\ currentVersion w = Z.of_nat (List.length (changes w))
      /\ (forall v, In v (versions w) <-> 1 <= v <= currentVersion w))
  /\ (forall batches,
        log_of (apply_batches batches w)
        = log_of (apply_batches [List.concat batches] w)).
Proof.
  intro w.
  assert (H : log_ok w) by (apply log_ok_run, log_ok_start).
  destruct H as (Hs & Hb & H0).
  refine (conj Hs (conj _ (conj _ (conj _ (conj _ (conj _ _)))))).
  - apply sorted_lt_NoDup, Hs.
  - rewrite Forall_forall in Hb. exact Hb.
  - pose proof (sorted_bounded_length _ 1 _ Hs Hb) as L.
    unfold versions in L. rewrite length_map in L. lia.
  - intro s. destruct (step_extends w s) as (l & k & E & _).
    exists (numbered (currentVersion w) l). unfold extends_log, log_of in E.
    injection E as Ec _. exact Ec.
  - intro N.
    assert (G : gapless w) by (apply gapless_run; [apply gapless_start|exact N]).
    destruct G as [Hv _]. refine (conj Hv (conj _ _)).
    + unfold versions in Hv.
      rewrite <- (length_map EncryptedChange.version), Hv.
      symmetry. apply one_to_length. exact H0.
    + intro v. rewrite Hv. apply one_to_In.
  - intro batches. rewrite !apply_batches_log. simpl.
    rewrite app_nil_r. reflexivity.
Qed.

(** X26 at the demo deployment: three records pushed in two batches by
    two sessions carry the versions 1, 2, 3. *)
Lemma versions_increase_and_skip_only_on_a_stall_witness :
  no_stall (demo_connect ++ demo_steps)
  /\ versions demo_pushed = one_to (currentVersion demo_pushed)
  /\ NoDup (versions demo_pushed).
Proof.
  assert (N : no_stall (demo_connect ++ demo_steps)).
  { intros s b Hs Hb. simpl in Hs.
    repeat (destruct Hs as [<-|Hs];
            [vm_compute in Hb;
             first [ discriminate Hb
                   | injection Hb as <-; vm_compute; reflexivity ]|]).
    destruct Hs. }
  destruct (versions_increase_and_skip_only_on_a_stall demo_env demo_crypto
              (demo_connect ++ demo_steps)) as (_ & H2 & _ & _ & _ & H6 & _).
  split; [exact N|]. split; [exact (proj1 (H6 N)) | exact H2].
Defined.

(** ** Push *)

Lemma set_version_payload v c1 c2 :
  EncryptedChange.payload c1 = EncryptedChange.payload c2 ->
  EncryptedChange.set_version v c1 = EncryptedChange.set_version v c2.
Proof.
  destruct c1, c2. unfold EncryptedChange.payload, EncryptedChange.set_version.
  simpl. intro H. injection H as -> -> -> -> -> -> ->. reflexivity.
Qed.

Lemma numbered_ignores_version v l1 l2 :
  map EncryptedChange.payload l1 = map EncryptedChange.payload l2 ->
  numbered v l1 = numbered v l2.
Proof.
  revert v l2.
  induction l1 as [|c1 r1 IH]; intros v [|c2 r2] H; cbn [map numbered] in *;
    try discriminate; [reflexivity|].
  pose proof (f_equal (@List.hd _ (EncryptedChange.payload c1)) H) as Hc.
  pose proof (f_equal (@List.tl _) H) as Hr. cbn [List.hd List.tl] in Hc, Hr.
  rewrite (set_version_payload _ c1 c2 Hc), (IH _ r2 Hr).
  reflexivity.
Qed.

Lemma bind_cong A B (m1 m2 : M A) (k : A -> M B) w :
  m1 w = m2 w -> bind m1 k w = bind m2 k w.
Proof. intro H. unfold bind. rewrite H. reflexivity. Qed.

Lemma handlePush_ignores_version ws s l1 l2 w :
  map EncryptedChange.payload l1 = map EncryptedChange.payload l2 ->
  handlePush ws s (records l1) w = handlePush ws s (records l2) w.
Proof.
  intro H. unfold handlePush. destruct (_ || _); [reflexivity|].
  apply bind_cong. unfold applyChanges, records. apply bind_cong.
  rewrite !assign_versions_spec.
  rewrite (numbered_ignores_version _ l1 l2 H).
  assert (L : List.length l1 = List.length l2).
  { rewrite <- (length_map EncryptedChange.payload l1), H. apply length_map. }
  rewrite L. reflexivity.
Qed.

(** C2.  A push of the records [l] by a joined session, with the counter
    at [v]: the log grows by exactly those records in the submitted
    order, the i-th of them (from 0) stored with version [v + i + 1] and
    otherwise as submitted, and the counter ends at [v + k].  The version
    fields the client wrote have no influence on anything the coordinator
    does.  When the two storage writes succeed, the sender is sent
    [pushed] with the new counter, right after the writes and before the
    relay to the other joined sessions. *)
Theorem push_assigns_consecutive_versions
    (ws : WebSocket) (s : Session.t) (l : list EncryptedChange.t) (w : World) :
  is_joined s = true ->
  let w' := snd (handlePush ws s (records l) w) in
  let v := currentVersion w in
  let k := Z.of_nat (List.length l) in
  (exists l', changes w' = changes w ++ l'
      /\ List.length l' = List.length l
      /\ map EncryptedChange.payload l' = map EncryptedChange.payload l
      /\ (forall i c, nth_error l i = Some c ->
            nth_error l' i
            = Some (EncryptedChange.set_version (v + Z.of_nat i + 1) c))
      /\ (puts_succeed (faults w) = true ->
            fst (handlePush ws s (records l) w) = Return tt
            /\ trace w'
               = trace w
                 ++ [PutVersion (v + k) true; PutChanges (changes w') true;
                     SendTo ws (ServerMessage.pushed (v + k))
                            (negb (is_closed ws w))]
                 ++ attempts (ServerMessage.changes l' (v + k))
                             (recipients_except ws w) w))
  /\ currentVersion w' = v + k
  /\ (forall l2,
        map EncryptedChange.payload l2 = map EncryptedChange.payload l ->
        handlePush ws s (records l2) w = handlePush ws s (records l) w).
Proof.
  intros Hj w' v k. split; [|split].
  - exists (numbered v l).
    pose proof (handlePush_records_log ws s l w) as L. rewrite Hj in L.
    fold w' in L. unfold log_of in L. injection L as Lc Lv.
    split; [exact Lc|]. split; [apply numbered_length|].
    split; [apply numbered_payload|].
    split; [intros i c Hi; apply numbered_nth; exact Hi|].
    intro Hf. unfold w'. rewrite (handlePush_ok ws s l w Hj Hf).
    split; reflexivity.
  - pose proof (handlePush_records_log ws s l w) as L. rewrite Hj in L.
    injection L as _ Lv. exact Lv.
  - intros l2 H. apply handlePush_ignores_version. exact H.
Qed.

(** C2 at the demo deployment: Alice pushes two records, one of them
    claiming version 99; they are stored as versions 1 and 2. *)
Lemma push_assigns_consecutive_versions_witness :
  is_joined demo_alice = true
  /\ currentVersion (snd (handlePush 1%nat demo_alice
                                     (records [change_a; change_b])
                                     demo_joined)) = 2.
Proof.
  split; [reflexivity|].
  rewrite (proj1 (proj2 (push_assigns_consecutive_versions 1%nat demo_alice
                           [change_a; change_b] demo_joined eq_refl))).
  vm_compute. reflexivity.
Defined.

(** ** Pull *)

Lemma changes_since_In v w c :
  In c (changes_since (Num v) w)
  <-> In c (changes w) /\ v < EncryptedChange.version c.
Proof.
  unfold changes_since. rewrite filter_In. simpl. rewrite Z.ltb_lt. tauto.
Qed.

Lemma filter_sorted (A : Type) (R : A -> A -> Prop) (f : A -> bool) l :
  StronglySorted R l -> StronglySorted R (filter f l).
Proof.
  induction 1 as [|a l Hs IH Hall]; simpl; [constructor|].
  destruct (f a); [|exact IH]. constructor; [exact IH|].
  rewrite Forall_forall in *. intros x Hx. apply filter_In in Hx.
  apply Hall, Hx.
Qed.

Lemma map_filter_version (f : Z -> bool) l :
  map EncryptedChange.version
      (filter (fun c => f (EncryptedChange.version c)) l)
  = filter f (map EncryptedChange.version l).
Proof.
  induction l as [|c r IH]; simpl; [reflexivity|].
  destruct (f (EncryptedChange.version c)); simpl; rewrite IH; reflexivity.
Qed.

Lemma changes_since_sorted n w :
  log_ok w ->
  StronglySorted Z.lt (map EncryptedChange.version (changes_since n w)).
Proof.
  intros [Hs _]. unfold changes_since.
  rewrite (map_filter_version (fun v => gt_number v n)).
  apply filter_sorted. exact Hs.
Qed.

(** C3.  In every state an instance reaches from empty storage, a pull by
    a joined session with [sinceVersion = v] is answered, on the session's
    own socket, with the log records whose version is greater than [v], in
    log order, which is strictly increasing version order, and with the
    counter.  Nothing but the trace of sends changes: log, counter and
    storage stay as they were, and pulling again is answered with the
    same message.  (The bound 0 <= v of the claim is not needed.) *)
Theorem pull_returns_newer_records_in_order
    (e : Env) (cr : WebCrypto) (steps : list Step)
    (ws : WebSocket) (s : Session.t) (v : Z) :
  is_joined s = true ->
  let w := run steps (start e cr) in
  let reply := ServerMessage.changes (changes_since (Num v) w)
                                     (currentVersion w) in
  let sent := SendTo ws reply (negb (is_closed ws w)) in
  handlePull ws s v w = (Return tt, emit sent w)
  /\ (forall c, In c (changes_since (Num v) w)
                <-> In c (changes w) /\ v < EncryptedChange.version c)
  /\ (exists before, changes w = before ++ changes_since (Num v) w
        /\ Forall (fun c => EncryptedChange.version c <= v) before)
  /\ StronglySorted Z.lt
       (map EncryptedChange.version (changes_since (Num v) w))
  /\ ledger (snd (handlePull ws s v w)) = ledger w
  /\ handlePull ws s v (snd (handlePull ws s v w))
     = (Return tt, emit sent (emit sent w)).
Proof.
  intros Hj w reply sent.
  assert (Hok : log_ok w) by (apply log_ok_run, log_ok_start).
  assert (E : handlePull ws s v w = (Return tt, emit sent w))
    by (apply handlePull_spec; exact Hj).
  refine (conj E (conj _ (conj _ (conj _ (conj _ _))))).
  - intro c. apply changes_since_In.
  - destruct Hok as [Hs _]. unfold changes_since, versions in *.
    clear E sent reply. revert Hs.
    generalize (changes w) as l. clear. intros l Hs.
    induction l as [|c r IH]; simpl.
    + exists []. split; [reflexivity | constructor].
    + simpl in Hs. inversion Hs as [|? ? Hr Hall]; subst.
      destruct (Z.ltb_spec v (EncryptedChange.version c)) as [Hlt|Hge].
      * exists []. split; [|constructor]. simpl. f_equal.
        symmetry. apply forallb_filter_id. apply forallb_forall.
        intros x Hx. apply Z.ltb_lt. rewrite Forall_forall in Hall.
        specialize (Hall (EncryptedChange.version x) (in_map _ _ _ Hx)). lia.
      * destruct (IH Hr) as (before & Eb & Fb).
        exists (c :: before). split; [simpl; f_equal; exact Eb|].
        constructor; [exact Hge | exact Fb].
  - apply changes_since_sorted. exact Hok.
  - rewrite E. reflexivity.
  - rewrite E. simpl. rewrite (handlePull_spec ws s v (emit sent w) Hj).
    reflexivity.
Qed.

(** C3 at the demo deployment: Alice pulls since version 1 and is sent
    the records 2 and 3. *)
Lemma pull_returns_newer_records_in_order_witness :
  is_joined demo_alice = true
  /\ map EncryptedChange.version (changes_since (Num 1) demo_pushed) = [2; 3]
  /\ handlePull 1%nat demo_alice 1 demo_pushed
     = (Return tt, emit (SendTo 1%nat (pull_reply 1 demo_pushed) true)
                        demo_pushed).
Proof.
  split; [reflexivity|]. split; [vm_compute; reflexivity|].
  destruct (pull_returns_newer_records_in_order demo_env demo_crypto
              (demo_connect ++ demo_steps) 1%nat demo_alice 1 eq_refl)
    as (H & _).
  unfold demo_pushed. rewrite H. vm_compute. reflexivity.
Defined.

(** ** Guards *)

Lemma not_joined_phase s : phase s <> Joined <-> is_joined s = false.
Proof.
  unfold phase, is_joined.
  destruct (truthy (Session.accountId s)),
           (truthy_opt (Session.workspaceId s)); simpl;
    split; intro H; try reflexivity; try discriminate; congruence.
Qed.

Lemma connected_phase s :
  phase s = Connected <-> truthy (Session.accountId s) = false.
Proof.
  unfold phase.
  destruct (truthy (Session.accountId s)),
           (truthy_opt (Session.workspaceId s)); simpl;
    split; intro H; try reflexivity; try discriminate.
Qed.

Lemma handleJoin_rejected ws s wid w :
  truthy (Session.accountId s) = false ->
  handleJoin ws s wid w
  = (Return tt,
     emit (SendTo ws
             (ServerMessage.error "NOT_AUTHENTICATED" "Must authenticate first")
             (negb (is_closed ws w))) w).
Proof. intro H. unfold handleJoin. rewrite H. apply sendError_spec. Qed.

Lemma webSocketMessage_push ws s b w :
  Map_get ws (sessions w) = Some s ->
  webSocketMessage ws (Parsed (SyncMessage.push b)) w
  = try_catch (handlePush ws (Session.set_lastSeen (now w) s) b)
              (sendError ws "PARSE_ERROR" "Invalid message format")
              (with_sessions
                 (Map_set ws (Session.set_lastSeen (now w) s) (sessions w)) w).
Proof.
  intro Hs. unfold webSocketMessage. rewrite bind_gets, Hs, bind_gets.
  unfold bind, update_session, modify. rewrite Hs. reflexivity.
Qed.

(** C4.  A push or a pull by a session that has not joined is answered
    with the error NOT_JOINED and nothing else happens; a join by a
    session that has not authenticated is answered with the error
    NOT_AUTHENTICATED and nothing else happens.  In particular the
    rejected push leaves the log, the counter and the storage as they
    were, also when it arrives through [webSocketMessage]. *)
Theorem unjoined_or_unauthenticated_is_rejected
    (ws : WebSocket) (s : Session.t) (b : Batch)
    (v : Z) (workspaceId : string) (w : World) :
  let not_joined :=
    SendTo ws (ServerMessage.error "NOT_JOINED" "Must join a workspace first")
           (negb (is_closed ws w)) in
  let not_authenticated :=
    SendTo ws
           (ServerMessage.error "NOT_AUTHENTICATED" "Must authenticate first")
           (negb (is_closed ws w)) in
  (phase s <> Joined ->
     handlePush ws s b w = (Return tt, emit not_joined w)
     /\ handlePull ws s v w = (Return tt, emit not_joined w)
     /\ changes (snd (handlePush ws s b w)) = changes w
     /\ currentVersion (snd (handlePush ws s b w)) = currentVersion w
     /\ storage (snd (handlePush ws s b w)) = storage w)
  /\ (phase s = Connected ->
        handleJoin ws s workspaceId w = (Return tt, emit not_authenticated w))
  /\ (phase s <> Joined ->
      Map_get ws (sessions w) = Some s ->
      let w' := serve (SocketMessage ws (Parsed (SyncMessage.push b))) w in
      ledger w' = ledger w /\ trace w' = trace w ++ [not_joined]).
Proof.
  intros nj na. split; [|split].
  - intro H. apply not_joined_phase in H.
    rewrite (handlePush_rejected ws s b w H), (handlePull_rejected ws s v w H).
    repeat split.
  - intro H. apply connected_phase in H. apply handleJoin_rejected. exact H.
  - intros H Hs w'. apply not_joined_phase in H. unfold w', serve.
    rewrite (webSocketMessage_push ws s b w Hs). unfold try_catch.
    rewrite handlePush_rejected by exact H. split; reflexivity.
Qed.

(** C4 at the demo deployment: Dave has authenticated but not joined and
    his push is refused; an anonymous session's join is refused. *)
Lemma unjoined_or_unauthenticated_is_rejected_witness :
  phase demo_dave <> Joined
  /\ phase demo_anonymous = Connected
  /\ versions (snd (handlePush 7%nat demo_dave (records [change_a])
                           demo_pushed))
     = versions demo_pushed
  /\ fst (handleJoin 9%nat demo_anonymous "W" demo_pushed) = Return tt.
Proof.
  assert (D : phase demo_dave <> Joined) by discriminate.
  destruct (unjoined_or_unauthenticated_is_rejected 7%nat demo_dave
              (records [change_a]) 0 "W" demo_pushed) as (H1 & _ & _).
  destruct (unjoined_or_unauthenticated_is_rejected 9%nat demo_anonymous
              (records [change_a]) 0 "W" demo_pushed) as (_ & H2 & _).
  split; [exact D|]. split; [reflexivity|]. split.
  - unfold versions. destruct (H1 D) as (_ & _ & -> & _). reflexivity.
  - rewrite (H2 eq_refl). reflexivity.
Defined.

(** ** Persistence before acknowledgement *)

(** C5.  A push by a joined session first assigns versions in memory and
    then writes the counter and the full log to the storage.  When both
    writes succeed, the storage holds the new counter and the whole new
    log, and only then is [pushed] sent to the sender and the records
    relayed to the other joined sessions.  When a write fails,
    [handlePush] throws right there: nothing is sent to anyone by it, and
    its caller [webSocketMessage] answers the sender with an error
    message only, so the push is neither acknowledged nor broadcast.  A
    push whose batch is not an array of records throws before any write:
    [handlePush] stores nothing and sends nothing. *)
Theorem push_persists_before_acknowledging
    (ws : WebSocket) (s : Session.t) (l : list EncryptedChange.t) (w : World) :
  is_joined s = true ->
  let w' := snd (handlePush ws s (records l) w) in
  let v' := currentVersion w + Z.of_nat (List.length l) in
  let log' := changes w ++ numbered (currentVersion w) l in
  (puts_succeed (faults w) = true ->
     fst (handlePush ws s (records l) w) = Return tt
     /\ storage w' = mkStorage (Some v') (Some log')
     /\ persisted w'
     /\ trace w'
        = trace w
          ++ [PutVersion v' true; PutChanges log' true;
              SendTo ws (ServerMessage.pushed v') (negb (is_closed ws w))]
          ++ attempts
               (ServerMessage.changes (numbered (currentVersion w) l) v')
               (recipients_except ws w) w)
  /\ (puts_succeed (faults w) = false ->
        fst (handlePush ws s (records l) w) = Throw
        /\ (trace w' = trace w ++ [PutVersion v' false]
            \/ trace w'
               = trace w ++ [PutVersion v' true; PutChanges log' false]))
  /\ (puts_succeed (faults w) = false ->
      Map_get ws (sessions w) = Some s ->
      let w'' :=
        serve (SocketMessage ws (Parsed (SyncMessage.push (records l)))) w in
      exists puts,
        trace w''
        = trace w ++ puts
          ++ [SendTo ws
                (ServerMessage.error "PARSE_ERROR" "Invalid message format")
                (negb (is_closed ws w))]
        /\ (puts = [PutVersion v' false]
            \/ puts = [PutVersion v' true; PutChanges log' false])
        /\ existsb is_ack_or_relay
             (puts
              ++ [SendTo ws
                    (ServerMessage.error "PARSE_ERROR" "Invalid message format")
                    (negb (is_closed ws w))])
           = false)
  /\ (forall b,
        well_typed b = false ->
        fst (handlePush ws s b w) = Throw
        /\ trace (snd (handlePush ws s b w)) = trace w
        /\ storage (snd (handlePush ws s b w)) = storage w).
Proof.
  intros Hj w' v' log'. split; [|split; [|split]]; cycle 3.
  { intros b Ht. destruct (batch_cases b) as [[E F]|[->|[F _]]].
    - assert (T : well_typed b = true)
        by (apply well_typed_records; eexists; exact E).
      congruence.
    - rewrite (handlePush_not_iterable ws s w Hj). repeat split.
    - rewrite (handlePush_stall ws s b w Hj F). repeat split. }
  - intro Hf. unfold w'. rewrite (handlePush_ok ws s l w Hj Hf).
    repeat split.
  - intro Hf. destruct (handlePush_fails ws s l w Hj Hf)
      as (w1 & E & _ & _ & _ & T).
    unfold w'. rewrite E. split; [reflexivity | exact T].
  - intros Hf Hs w''. unfold w'', serve.
    rewrite (webSocketMessage_push ws s (records l) w Hs).
    set (w0 := with_sessions _ w).
    destruct (handlePush_fails ws (Session.set_lastSeen (now w) s) l w0 Hj Hf)
      as (w1 & E & _ & C & _ & T).
    unfold try_catch. rewrite E, sendError_spec. simpl.
    change (trace w0) with (trace w) in T.
    change (currentVersion w0) with (currentVersion w) in T.
    change (changes w0) with (changes w) in T.
    unfold is_closed. rewrite C. fold (is_closed ws w).
    destruct T as [T|T]; rewrite T, <- app_assoc;
      eexists; (split; [reflexivity|]); split; auto.
Qed.

(** C5 at the demo deployment: with the first storage write failing,
    Alice's push is answered with an error and nobody is sent anything
    else; with the storage working she is sent [pushed 2]. *)
Lemma push_persists_before_acknowledging_witness :
  is_joined demo_alice = true
  /\ puts_succeed (faults demo_joined) = true
  /\ puts_succeed (faults (with_platform 0 [] [true] demo_joined)) = false
  /\ fst (handlePush 1%nat demo_alice (records [change_a; change_b])
            demo_joined)
     = Return tt
  /\ fst (handlePush 1%nat demo_alice (records [change_a; change_b])
            (with_platform 0 [] [true] demo_joined)) = Throw.
Proof.
  split; [reflexivity|]. split; [reflexivity|]. split; [reflexivity|].
  destruct (push_persists_before_acknowledging 1%nat demo_alice
              [change_a; change_b] demo_joined eq_refl) as (H1 & _).
  destruct (push_persists_before_acknowledging 1%nat demo_alice
              [change_a; change_b] (with_platform 0 [] [true] demo_joined)
              eq_refl) as (_ & H2 & _).
  split; [exact (proj1 (H1 eq_refl)) | exact (proj1 (H2 eq_refl))].
Defined.

(** ** Durability *)

Lemma persisted_restart w : persisted w -> log_of (restart w) = log_of w.
Proof.
  intros [Hv Hc]. unfold restart, constructor, bind, modify, gets, ret. simpl.
  rewrite Hv. simpl. rewrite Hc. reflexivity.
Qed.

Lemma persisted_ledger w w' : ledger w' = ledger w -> persisted w -> persisted w'.
Proof.
  unfold ledger, persisted. intros E H. injection E as -> -> ->. exact H.
Qed.

Lemma fetch_upgrade request w :
  is_upgrade request = true ->
  fetch request w
  = (Return (SwitchingProtocols (next_socket w)),
     with_sessions
       (Map_set (S (next_socket w))
                (Session.mk EmptyString EmptyString None (now w) (now w))
                (sessions w))
       (with_next_socket (S (S (next_socket w))) w)).
Proof.
  intro Hu. unfold fetch. fold (is_upgrade request). rewrite Hu. reflexivity.
Qed.

Lemma fetch_post_ok request w p l :
  is_upgrade request = false ->
  pathname request = "/changes" ->
  method request = "POST" ->
  bearer_identity request w = Some p ->
  body request = Some (records l) ->
  puts_succeed (faults w) = true ->
  let v' := currentVersion w + Z.of_nat (List.length l) in
  let log' := changes w ++ numbered (currentVersion w) l in
  fetch request w
  = (Return (Json 200 (BodySuccess v')),
     mkWorld (sessions w) log' v' (env w) (mkStorage (Some v') (Some log'))
             (crypto w) (now w) (closed w) (tl (tl (faults w)))
             (next_socket w)
             (trace w
              ++ [PutVersion v' true; PutChanges log' true]
              ++ attempts
                   (ServerMessage.changes (numbered (currentVersion w) l) v')
                   (recipients w) w)).
Proof.
  intros Hu Hp Hm Hb Hl Hf v' log'.
  rewrite (fetch_post_authorized request w p Hu Hp Hm Hb), Hl.
  unfold bind at 1. rewrite (applyChanges_ok l w Hf). fold v' log'.
  unfold bind, gets. rewrite broadcast_spec.
  unfold emit, with_trace, attempts, recipients, is_closed, ret. simpl.
  rewrite <- !app_assoc. reflexivity.
Qed.

Lemma fetch_post_fails request w p l :
  is_upgrade request = false ->
  pathname request = "/changes" ->
  method request = "POST" ->
  bearer_identity request w = Some p ->
  body request = Some (records l) ->
  puts_succeed (faults w) = false ->
  fst (fetch request w) = Throw.
Proof.
  intros Hu Hp Hm Hb Hl Hf.
  rewrite (fetch_post_authorized request w p Hu Hp Hm Hb), Hl.
  unfold bind at 1.
  destruct (puts_fail_cases _ Hf) as [[r Hr]|[r Hr]].
  - rewrite (applyChanges_first_put_fails l w r Hr). reflexivity.
  - rewrite (applyChanges_second_put_fails l w r Hr). reflexivity.
Qed.

(** A stateless push whose body is not an array of records throws. *)
Lemma fetch_post_ill_typed request w p b :
  is_upgrade request = false ->
  pathname request = "/changes" ->
  method request = "POST" ->
  bearer_identity request w = Some p ->
  body request = Some b ->
  well_typed b = false ->
  fst (fetch request w) = Throw.
Proof.
  intros Hu Hp Hm Hb Hl Ht.
  rewrite (fetch_post_authorized request w p Hu Hp Hm Hb), Hl.
  unfold bind at 1.
  destruct (batch_cases b) as [[E F]|[->|[F _]]].
  - assert (T : well_typed b = true)
      by (apply well_typed_records; eexists; exact E).
    congruence.
  - reflexivity.
  - rewrite (applyChanges_stall b w F). reflexivity.
Qed.

Lemma push_completed_persisted w0 w : push_completed w0 w -> persisted w.
Proof.
  intros [(ws & s & b & Hj & E)|(request & v & E)].
  - destruct (batch_cases b) as [[Eb _]|[->|[F _]]].
    + rewrite Eb in E. destruct (puts_succeed (faults w0)) eqn:Hf.
      * rewrite (handlePush_ok ws s _ w0 Hj Hf) in E. injection E as <-.
        split; reflexivity.
      * destruct (handlePush_fails ws s (accepted b) w0 Hj Hf)
          as (w' & E' & _).
        rewrite E' in E. discriminate.
    + rewrite (handlePush_not_iterable ws s w0 Hj) in E. discriminate.
    + rewrite (handlePush_stall ws s b w0 Hj F) in E. discriminate.
  - destruct (is_upgrade request) eqn:Hu.
    { rewrite (fetch_upgrade request w0 Hu) in E. discriminate. }
    destruct (String.eqb_spec (pathname request) "/changes") as [Hp|Hp].
    2:{ rewrite fetch_other in E; [discriminate|exact Hu|].
        apply String.eqb_neq in Hp. rewrite Hp. reflexivity. }
    destruct (String.eqb_spec (method request) "GET") as [Hg|Hg].
    { rewrite (fetch_get request w0 Hu Hp Hg) in E. discriminate. }
    destruct (String.eqb_spec (method request) "POST") as [Ho|Ho].
    2:{ rewrite fetch_other in E; [discriminate|exact Hu|].
        apply String.eqb_neq in Hg, Ho. rewrite Hg, Ho. apply andb_false_r. }
    destruct (bearer_identity request w0) as [p|] eqn:Hb.
    2:{ destruct (fetch_post_unauthorized request w0 Hu Hp Ho Hb) as [r E'].
        rewrite E' in E. discriminate. }
    destruct (body request) as [b|] eqn:Hl.
    2:{ rewrite (fetch_post_authorized request w0 p Hu Hp Ho Hb), Hl in E.
        discriminate. }
    destruct (well_typed b) eqn:Ht.
    2:{ pose proof (fetch_post_ill_typed request w0 p b Hu Hp Ho Hb Hl Ht)
          as E'.
        rewrite E in E'. discriminate. }
    apply well_typed_records in Ht. destruct Ht as [l ->].
    destruct (puts_succeed (faults w0)) eqn:Hf.
    + rewrite (fetch_post_ok request w0 p l Hu Hp Ho Hb Hl Hf) in E.
      injection E as _ <-. split; reflexivity.
    + pose proof (fetch_post_fails request w0 p l Hu Hp Ho Hb Hl Hf) as E'.
      rewrite E in E'. discriminate.
Qed.

Lemma webSocketMessage_quiet ws message w :
  is_push (SocketMessage ws message) = false ->
  ledger (snd (webSocketMessage ws message w)) = ledger w.
Proof.
  intro Hq. revert w. change (keeps ledger (webSocketMessage ws message)).
  unfold webSocketMessage.
  apply keeps_bind; [auto with frame|]. intros [s|]; [|auto with frame].
  apply keeps_bind; [auto with frame|]. intro n.
  apply keeps_bind; [auto with frame|]. intro.
  apply keeps_try_catch; [|auto with frame].
  destruct message as [| |[token|wid| |l|v|v]]; auto with frame.
  discriminate.
Qed.

Lemma fetch_quiet request w :
  is_push (Fetch request) = false ->
  ledger (snd (fetch request w)) = ledger w.
Proof.
  simpl. intro Hq.
  destruct (is_upgrade request) eqn:Hu.
  { rewrite (fetch_upgrade request w Hu). reflexivity. }
  destruct (String.eqb_spec (pathname request) "/changes") as [Hp|Hp].
  2:{ rewrite fetch_other; auto. apply String.eqb_neq in Hp.
      rewrite Hp. reflexivity. }
  destruct (String.eqb_spec (method request) "GET") as [Hg|Hg].
  { rewrite fetch_get; auto. }
  rewrite fetch_other; auto.
  apply String.eqb_neq in Hg. rewrite Hg. simpl.
  simpl in Hq. rewrite Hq. apply andb_false_r.
Qed.

Lemma quiet_step_ledger s w : quiet s = true -> ledger (step w s) = ledger w.
Proof.
  destruct s as [[request|ws message|ws|ws]|n c f]; simpl; intro Hq.
  - apply fetch_quiet. apply negb_true_iff in Hq. exact Hq.
  - apply webSocketMessage_quiet. apply negb_true_iff in Hq. exact Hq.
  - apply keeps_webSocketClose; auto with frame.
  - reflexivity.
  - reflexivity.
Qed.

Lemma quiet_run_ledger steps w :
  forallb quiet steps = true -> ledger (run steps w) = ledger w.
Proof.
  revert w. induction steps as [|s r IH]; intros w H; simpl in *;
    [reflexivity|].
  apply andb_true_iff in H. destruct H as [Hs Hr].
  rewrite (IH _ Hr). apply quiet_step_ledger. exact Hs.
Qed.

(** C6.  Once a push has run to completion, the storage holds the log and
    the counter, and it still does after any further calls that are not
    pushes.  An instance constructed afterwards over that storage has the
    same log and the same counter (and no sessions), so a pull with the
    same [sinceVersion] is answered with the same records and the same
    version as before the restart. *)
Theorem log_and_counter_survive_restart
    (w0 w : World) (steps : list Step)
    (ws : WebSocket) (s : Session.t) (v : Z) :
  push_completed w0 w ->
  forallb quiet steps = true ->
  is_joined s = true ->
  let w1 := run steps w in
  persisted w
  /\ changes (restart w1) = changes w1
  /\ currentVersion (restart w1) = currentVersion w1
  /\ storage (restart w1) = storage w1
  /\ sessions (restart w1) = []
  /\ pull_reply v (restart w1) = pull_reply v w1
  /\ handlePull ws s v (restart w1)
     = (Return tt,
        emit (SendTo ws (pull_reply v w1) (negb (is_closed ws w1)))
             (restart w1)).
Proof.
  intros Hc Hq Hj w1.
  assert (P : persisted w) by (exact (push_completed_persisted w0 w Hc)).
  assert (P1 : persisted w1).
  { apply (persisted_ledger w); [|exact P]. apply quiet_run_ledger, Hq. }
  pose proof (persisted_restart w1 P1) as L. unfold log_of in L.
  injection L as Lc Lv.
  assert (R : pull_reply v (restart w1) = pull_reply v w1).
  { unfold pull_reply, changes_since. rewrite Lc, Lv. reflexivity. }
  refine (conj P (conj Lc (conj Lv (conj _ (conj _ (conj R _)))))).
  - destruct P1 as [Hv Hl]. unfold restart, constructor, bind, modify, gets.
    simpl. rewrite Hv. simpl. rewrite Hl. reflexivity.
  - destruct P1 as [Hv Hl]. unfold restart, constructor, bind, modify, gets.
    simpl. rewrite Hv. simpl. rewrite Hl. reflexivity.
  - rewrite (handlePull_spec ws s v (restart w1) Hj), R. do 3 f_equal.
    destruct P1 as [Hv Hl]. unfold restart, constructor, bind, modify, gets.
    simpl. rewrite Hv. simpl. rewrite Hl. reflexivity.
Qed.

(** C6 at the demo deployment: Alice pushes two records and disconnects,
    Carol pulls, the instance restarts; a pull since 0 is answered with
    versions 1 and 2 and the counter 2, as before the restart. *)
Lemma log_and_counter_survive_restart_witness :
  let w := snd (handlePush 1%nat demo_alice (records [change_a; change_b])
                  demo_joined) in
  let w1 := run demo_quiet_steps w in
  push_completed demo_joined w
  /\ forallb quiet demo_quiet_steps = true
  /\ is_joined demo_alice = true
  /\ pull_reply 0 (restart w1) = pull_reply 0 w1
  /\ versions (restart w1) = [1; 2]
  /\ currentVersion (restart w1) = 2.
Proof.
  intros w w1.
  assert (C : push_completed demo_joined w).
  { left. exists 1%nat, demo_alice, (records [change_a; change_b]).
    split; [reflexivity|]. unfold w.
    rewrite (surjective_pairing (handlePush 1%nat demo_alice
                                   (records [change_a; change_b])
                                   demo_joined)) at 1.
    apply f_equal2; [vm_compute; reflexivity | reflexivity]. }
  split; [exact C|]. split; [reflexivity|]. split; [reflexivity|].
  destruct (log_and_counter_survive_restart demo_joined w demo_quiet_steps
              9%nat demo_alice 0 C eq_refl eq_refl)
    as (_ & Hc & Hv & _ & _ & R & _).
  split; [exact R|]. fold w1 in Hc, Hv. unfold versions. rewrite Hc, Hv.
  split; vm_compute; reflexivity.
Defined.

(** ** The stateless endpoints and credentials *)

(** C7.  The claim does not hold of the code, for the GET half.  Three
    records are in the log of the demo deployment.  A GET /changes without
    any Authorization header is not rejected: it is answered 200 with the
    whole log.  The POST beside it answers the same caller 401 and leaves
    the state as it was, and over the socket a session that has only
    connected is refused the same pull with NOT_JOINED. *)
Theorem stateless_get_is_served_without_credential :
  authorization anonymous_get = None
  /\ bearer_identity anonymous_get demo_pushed = None
  /\ fst (fetch anonymous_get demo_pushed)
     = Return (Json 200 (BodyChanges (changes demo_pushed)
                                     (currentVersion demo_pushed)))
  /\ versions demo_pushed = [1; 2; 3]
  /\ (forall reason,
        fst (fetch anonymous_get demo_pushed)
        <> Return (Json 401 (BodyError reason)))
  /\ authorization anonymous_post = None
  /\ fetch anonymous_post demo_pushed
     = (Return (Json 401 (BodyError "Unauthorized")), demo_pushed)
  /\ handlePull 7%nat demo_anonymous 0 demo_pushed
     = (Return tt,
        emit (SendTo 7%nat
                (ServerMessage.error "NOT_JOINED" "Must join a workspace first")
                (negb (is_closed 7%nat demo_pushed))) demo_pushed).
Proof.
  assert (E : fst (fetch anonymous_get demo_pushed)
              = Return (Json 200 (BodyChanges (changes demo_pushed)
                                              (currentVersion demo_pushed))))
    by (vm_compute; reflexivity).
  split; [reflexivity|]. split; [reflexivity|]. split; [exact E|].
  split; [vm_compute; reflexivity|].
  split; [intro reason; rewrite E; discriminate|].
  split; [reflexivity|]. split; [vm_compute; reflexivity|].
  apply handlePull_rejected. reflexivity.
Qed.

(** X27.  POST /changes checks the bearer token before anything else:
    without a valid bearer credential the request is answered 401 and the
    world is left exactly as it was (log, counter, storage, sessions,
    nothing sent).  With a valid credential, a body that is an array of
    records and working storage, the push is applied, relayed to every
    joined session and answered with the new counter, and no session is
    created, joined or changed for the caller.  With a valid credential
    and a body that is not an array of records the call throws. *)
Theorem stateless_post_requires_valid_bearer
    (request : Request) (w : World) :
  is_upgrade request = false ->
  pathname request = "/changes" ->
  method request = "POST" ->
  (bearer_identity request w = None ->
   exists reason,
     fetch request w = (Return (Json 401 (BodyError reason)), w))
  /\ (forall p b,
        bearer_identity request w = Some p ->
        body request = Some b ->
        well_typed b = false ->
        fst (fetch request w) = Throw)
  /\ (forall p l,
        bearer_identity request w = Some p ->
        body request = Some (records l) ->
        puts_succeed (faults w) = true ->
        let v' := currentVersion w + Z.of_nat (List.length l) in
        let log' := changes w ++ numbered (currentVersion w) l in
        fetch request w
        = (Return (Json 200 (BodySuccess v')),
           mkWorld (sessions w) log' v' (env w)
                   (mkStorage (Some v') (Some log'))
                   (crypto w) (now w) (closed w) (tl (tl (faults w)))
                   (next_socket w)
                   (trace w
                    ++ [PutVersion v' true; PutChanges log' true]
                    ++ attempts
                         (ServerMessage.changes
                            (numbered (currentVersion w) l) v')
                         (recipients w) w))).
Proof.
  intros Hu Hp Hm. split; [|split].
  - intro Hb. apply fetch_post_unauthorized; assumption.
  - intros p b Hb Hl Ht.
    apply (fetch_post_ill_typed request w p b); assumption.
  - intros p l Hb Hl Hf. apply (fetch_post_ok request w p l); assumption.
Qed.

(** X27 at the demo deployment: a POST without a header and a POST with a
    badly signed token are both answered 401 and change nothing. *)
Lemma stateless_post_requires_valid_bearer_witness :
  bearer_identity anonymous_post demo_pushed = None
  /\ bearer_identity forged_post demo_pushed = None
  /\ snd (fetch anonymous_post demo_pushed) = demo_pushed
  /\ snd (fetch forged_post demo_pushed) = demo_pushed.
Proof.
  split; [reflexivity|]. split; [reflexivity|].
  destruct (stateless_post_requires_valid_bearer anonymous_post
              demo_pushed eq_refl eq_refl eq_refl) as (H1 & _).
  destruct (stateless_post_requires_valid_bearer forged_post
              demo_pushed eq_refl eq_refl eq_refl) as (H2 & _).
  destruct (H1 eq_refl) as [r1 E1].
  destruct (H2 eq_refl) as [r2 E2].
  rewrite E1, E2. split; reflexivity.
Defined.

(** ** Broadcast *)

Lemma attempts_In m to w ws :
  In ws to -> In (SendTo ws m (negb (is_closed ws w))) (attempts m to w).
Proof.
  intro H. unfold attempts.
  apply (in_map (fun x => SendTo x m (negb (is_closed x w)))). exact H.
Qed.

(** C8.  A broadcast never throws, whatever sockets are closed.  It makes
    exactly one send attempt per joined session (other than the sender,
    for [broadcastExcept]), in the order of the session map, and each
    attempt succeeds or fails with the state of its own socket alone: a
    closed socket among the recipients changes nothing for the others, so
    every recipient whose own socket is open is delivered the message.
    Nothing but the trace of sends changes. *)
Theorem broadcast_isolates_send_failures
    (sender : WebSocket) (message : ServerMessage.t) (w : World) :
  broadcastExcept sender message w
  = (Return tt,
     with_trace
       (trace w ++ attempts message (recipients_except sender w) w) w)
  /\ broadcast message w
     = (Return tt,
        with_trace (trace w ++ attempts message (recipients w) w) w)
  /\ (forall ws,
        In ws (recipients_except sender w) ->
        is_closed ws w = false ->
        In (SendTo ws message true)
           (trace (snd (broadcastExcept sender message w))))
  /\ (forall ws,
        In ws (recipients w) ->
        is_closed ws w = false ->
        In (SendTo ws message true) (trace (snd (broadcast message w)))).
Proof.
  refine (conj (broadcastExcept_spec sender message w)
            (conj (broadcast_spec message w) (conj _ _))).
  - intros ws Hin Hopen. rewrite broadcastExcept_spec. simpl.
    apply in_or_app. right.
    pose proof (attempts_In message (recipients_except sender w) w ws Hin) as H.
    rewrite Hopen in H. exact H.
  - intros ws Hin Hopen. rewrite broadcast_spec. simpl.
    apply in_or_app. right.
    pose proof (attempts_In message (recipients w) w ws Hin) as H.
    rewrite Hopen in H. exact H.
Qed.

(** C8 at the demo deployment: Bob's socket (3) is closed; a relay of
    Alice's push still reaches Carol (5), after the failed attempt on
    Bob's socket. *)
Lemma broadcast_isolates_send_failures_witness :
  recipients_except 1%nat demo_joined = [3%nat; 5%nat]
  /\ is_closed 3%nat demo_joined = true
  /\ is_closed 5%nat demo_joined = false
  /\ In (SendTo 5%nat (ServerMessage.pushed 0) true)
        (trace (snd (broadcastExcept 1%nat (ServerMessage.pushed 0)
                                     demo_joined))).
Proof.
  split; [vm_compute; reflexivity|]. split; [reflexivity|].
  split; [reflexivity|].
  destruct (broadcast_isolates_send_failures 1%nat (ServerMessage.pushed 0)
              demo_joined) as (_ & _ & H & _).
  apply H; [|reflexivity].
  replace (recipients_except 1%nat demo_joined) with [3%nat; 5%nat]
    by (vm_compute; reflexivity).
  right. left. reflexivity.
Defined.

(** ** Authentication *)

Lemma Map_get_set ws x m : Map_get ws (Map_set ws x m) = Some x.
Proof.
  induction m as [|[k s] r IH]; simpl.
  - rewrite Nat.eqb_refl. reflexivity.
  - destruct (Nat.eqb k ws) eqn:E; simpl; rewrite E; [reflexivity | exact IH].
Qed.

Lemma Map_set_set ws x y m : Map_set ws x (Map_set ws y m) = Map_set ws x m.
Proof.
  induction m as [|[k s] r IH]; simpl.
  - rewrite Nat.eqb_refl. reflexivity.
  - destruct (Nat.eqb k ws) eqn:E; simpl; rewrite E; [reflexivity|].
    rewrite IH. reflexivity.
Qed.

Lemma Map_get_set_other ws ws' x m :
  ws' <> ws -> Map_get ws' (Map_set ws x m) = Map_get ws' m.
Proof.
  intro H. induction m as [|[k s] r IH]; simpl.
  - destruct (Nat.eqb_spec ws ws'); [congruence | reflexivity].
  - destruct (Nat.eqb_spec k ws) as [->|Hk]; simpl.
    + destruct (Nat.eqb_spec ws ws'); [congruence | reflexivity].
    + destruct (Nat.eqb k ws'); [reflexivity | exact IH].
Qed.

Lemma update_session_found ws f s w :
  Map_get ws (sessions w) = Some s ->
  update_session ws f w
  = (Return tt, with_sessions (Map_set ws (f s) (sessions w)) w).
Proof. intro H. unfold update_session, modify. rewrite H. reflexivity. Qed.

Lemma handleAuth_ok ws s0 s token p w :
  Map_get ws (sessions w) = Some s ->
  token_payload token w = Some p ->
  handleAuth ws s0 token w
  = (Return tt,
     emit (SendTo ws (ServerMessage.authenticated (AuthToken.accountId p))
                  (negb (is_closed ws w)))
          (with_sessions
             (Map_set ws
                (Session.set_identity (AuthToken.accountId p)
                   ("site-" ++ AuthToken.accountId p ++ "-"
                    ++ decimal (now w))%string s)
                (sessions w)) w)).
Proof.
  intros Hs Hp. unfold handleAuth.
  rewrite bind_gets, bind_verifyToken, Hp, bind_gets.
  unfold bind. rewrite (update_session_found ws _ s w Hs), send_spec.
  reflexivity.
Qed.

Lemma handleAuth_failed ws s token w :
  token_payload token w = None ->
  handleAuth ws s token w
  = (Return tt,
     emit (SendTo ws
             (ServerMessage.error "AUTH_FAILED" "Invalid or expired token")
             (negb (is_closed ws w))) w).
Proof.
  intro Hp. unfold handleAuth. rewrite bind_gets, bind_verifyToken, Hp.
  apply sendError_spec.
Qed.

Lemma token_payload_valid token w p :
  token_payload token w = Some p ->
  now w / 1000 <= AuthToken.exp p
  /\ exists payloadB64 sigB64,
       split "." token = [payloadB64; sigB64]
       /\ decode_payload (crypto w) payloadB64 = Some p
       /\ hmac_verify (crypto w) (secret_of w) sigB64 p = Some true.
Proof.
  unfold token_payload, verifyToken, gets. simpl.
  destruct (split "." token) as [|a [|b [|c r]]]; try discriminate.
  destruct (decode_payload (crypto w) a) as [q|] eqn:D; [|discriminate].
  destruct (Z.ltb_spec (AuthToken.exp q) (now w / 1000)); [discriminate|].
  destruct (hmac_verify (crypto w) (secret_of w) b q) as [[|]|] eqn:V;
    try discriminate.
  intro E. injection E as <-. split; [assumption|]. exists a, b. auto.
Qed.

(** C9.  Authenticating with a valid token writes the token's account id
    and a site id derived from it and the clock into the session, sends
    [authenticated], and touches neither log, counter nor storage.  Doing
    it again with the same token leaves the session as the first time:
    same account id, same workspace, same phase; at the same clock reading
    the whole session map is unchanged, at a later one only the site id is
    rewritten.  A token is valid only if it is well formed, unexpired and
    correctly signed; with any other token the only thing that happens is
    an AUTH_FAILED error sent to the session. *)
Theorem authenticate_is_idempotent
    (ws : WebSocket) (s : Session.t) (token : string) (w : World) :
  Map_get ws (sessions w) = Some s ->
  let w1 := snd (handleAuth ws s token w) in
  (forall p,
     token_payload token w = Some p ->
     let site n := ("site-" ++ AuthToken.accountId p ++ "-" ++ decimal n)%string in
     let s1 := Session.set_identity (AuthToken.accountId p) (site (now w)) s in
     Map_get ws (sessions w1) = Some s1
     /\ ledger w1 = ledger w
     /\ trace w1
        = trace w
          ++ [SendTo ws (ServerMessage.authenticated (AuthToken.accountId p))
                     (negb (is_closed ws w))]
     /\ sessions (snd (handleAuth ws s1 token w1)) = sessions w1
     /\ ledger (snd (handleAuth ws s1 token w1)) = ledger w
     /\ (forall n c f,
           token_payload token (with_platform n c f w1) = Some p ->
           let w2 := snd (handleAuth ws s1 token (with_platform n c f w1)) in
           Map_get ws (sessions w2)
           = Some (Session.set_identity (AuthToken.accountId p) (site n) s1)
           /\ (forall ws', ws' <> ws ->
                 Map_get ws' (sessions w2) = Map_get ws' (sessions w))
           /\ phase (Session.set_identity (AuthToken.accountId p) (site n) s1)
              = phase s1
           /\ ledger w2 = ledger w)
     /\ now w / 1000 <= AuthToken.exp p)
  /\ (token_payload token w = None ->
      handleAuth ws s token w
      = (Return tt,
         emit (SendTo ws
                 (ServerMessage.error "AUTH_FAILED" "Invalid or expired token")
                 (negb (is_closed ws w))) w)).
Proof.
  intros Hs w1. split; [|apply handleAuth_failed].
  intros p Hp site s1.
  assert (E1 : handleAuth ws s token w
               = (Return tt,
                  emit (SendTo ws
                          (ServerMessage.authenticated (AuthToken.accountId p))
                          (negb (is_closed ws w)))
                       (with_sessions (Map_set ws s1 (sessions w)) w)))
    by (apply handleAuth_ok; assumption).
  assert (W1 : w1 = emit (SendTo ws
                          (ServerMessage.authenticated (AuthToken.accountId p))
                          (negb (is_closed ws w)))
                       (with_sessions (Map_set ws s1 (sessions w)) w))
    by (unfold w1; rewrite E1; reflexivity).
  assert (G1 : Map_get ws (sessions w1) = Some s1)
    by (rewrite W1; apply Map_get_set).
  assert (P1 : token_payload token w1 = Some p) by (rewrite W1; exact Hp).
  refine (conj G1 (conj _ (conj _ (conj _ (conj _ (conj _ _)))))).
  - rewrite W1. reflexivity.
  - rewrite W1. reflexivity.
  - rewrite (handleAuth_ok ws s1 s1 token p w1 G1 P1). rewrite W1. simpl.
    apply Map_set_set.
  - rewrite (handleAuth_ok ws s1 s1 token p w1 G1 P1). rewrite W1.
    reflexivity.
  - intros n c f P2 w2.
    assert (G2 : Map_get ws (sessions (with_platform n c f w1)) = Some s1)
      by exact G1.
    unfold w2.
    rewrite (handleAuth_ok ws s1 s1 token p (with_platform n c f w1) G2 P2).
    simpl. refine (conj (Map_get_set _ _ _) (conj _ (conj _ _))).
    + intros ws' Hne. rewrite Map_get_set_other by exact Hne.
      rewrite W1. simpl. apply Map_get_set_other. exact Hne.
    + reflexivity.
    + rewrite W1. reflexivity.
  - apply (token_payload_valid token w p Hp).
Qed.

(** C9 at the demo deployment: Alice authenticates again with her token
    and nothing persisted changes; a badly signed token is answered with
    an error. *)
Lemma authenticate_is_idempotent_witness :
  Map_get 1%nat (sessions demo_joined) = Some demo_alice
  /\ token_payload "alice.k" demo_joined
     = Some (AuthToken.mk "alice" 4102444800 0)
  /\ token_payload "alice.wrong" demo_joined = None
  /\ ledger (snd (handleAuth 1%nat demo_alice "alice.k" demo_joined))
     = ledger demo_joined
  /\ fst (handleAuth 1%nat demo_alice "alice.wrong" demo_joined) = Return tt.
Proof.
  assert (R : Map_get 1%nat (sessions demo_joined) = Some demo_alice)
    by (vm_compute; reflexivity).
  assert (P : token_payload "alice.k" demo_joined
              = Some (AuthToken.mk "alice" 4102444800 0))
    by (vm_compute; reflexivity).
  assert (N : token_payload "alice.wrong" demo_joined = None)
    by (vm_compute; reflexivity).
  destruct (authenticate_is_idempotent 1%nat demo_alice "alice.k"
              demo_joined R) as (H & _).
  destruct (authenticate_is_idempotent 1%nat demo_alice "alice.wrong"
              demo_joined R) as (_ & F).
  destruct (H _ P) as (_ & L & _).
  split; [exact R|]. split; [exact P|]. split; [exact N|].
  split; [exact L|]. rewrite (F N). reflexivity.
Defined.

(** ** The since parameter *)

Lemma changes_since_NaN w : changes_since NaN w = [].
Proof.
  unfold changes_since. induction (changes w) as [|c r IH]; simpl; auto.
Qed.

(** C10, refuted as stated: a [since] parameter that is present but
    empty is not a parsable integer ([parseInt] of it is NaN), yet the
    response carries the whole log of the demo deployment: the source
    reads an empty parameter as "0" before parsing. *)
Lemma empty_since_is_answered_with_the_log :
  since empty_since_get = Some EmptyString
  /\ parseInt EmptyString = NaN
  /\ fst (fetch empty_since_get demo_pushed)
     = Return (Json 200 (BodyChanges (changes demo_pushed)
                                     (currentVersion demo_pushed)))
  /\ versions demo_pushed = [1; 2; 3]
  /\ fst (fetch empty_since_get demo_pushed)
     <> Return (Json 200 (BodyChanges [] (currentVersion demo_pushed))).
Proof.
  assert (E : fst (fetch empty_since_get demo_pushed)
              = Return (Json 200 (BodyChanges (changes demo_pushed)
                                              (currentVersion demo_pushed))))
    by (vm_compute; reflexivity).
  split; [reflexivity|]. split; [reflexivity|]. split; [exact E|].
  split; [vm_compute; reflexivity|].
  rewrite E. vm_compute. discriminate.
Qed.

Lemma parseInt_no_leading_number c r :
  is_white_space c = false ->
  c <> "-"%char -> c <> "+"%char ->
  digit_value 10 c = None ->
  parseInt (String c r) = NaN.
Proof.
  intros Hw Hm Hp Hd. unfold parseInt. cbn [trim_start]. rewrite Hw.
  destruct c as [[] [] [] [] [] [] [] []];
    try (exfalso; apply Hm; reflexivity);
    try (exfalso; apply Hp; reflexivity);
    try (vm_compute in Hd; discriminate Hd);
    try (vm_compute in Hw; discriminate Hw);
    cbn [parse_digits]; rewrite Hd; reflexivity.
Qed.

(** C10, amended.  On GET /changes, when the [since] parameter is
    present, not empty, and [parseInt] makes NaN of it (as it does of any
    text that starts with neither white space, a sign nor a decimal
    digit), no version compares greater than it and the response is 200
    with an empty list of changes and the true counter; nothing changes.
    An absent or empty parameter is read as "0": the response carries the
    records of version greater than 0. *)
Theorem unparsable_since_yields_no_changes
    (request : Request) (w : World) :
  is_upgrade request = false ->
  pathname request = "/changes" ->
  method request = "GET" ->
  (forall s,
     since request = Some s -> s <> EmptyString -> parseInt s = NaN ->
     (forall v, gt_number v (parseInt s) = false)
     /\ fetch request w
        = (Return (Json 200 (BodyChanges [] (currentVersion w))), w))
  /\ (forall c r,
        is_white_space c = false ->
        c <> "-"%char -> c <> "+"%char ->
        digit_value 10 c = None ->
        parseInt (String c r) = NaN)
  /\ (since request = None \/ since request = Some EmptyString ->
      fetch request w
      = (Return (Json 200 (BodyChanges (changes_since (Num 0) w)
                                       (currentVersion w))), w)).
Proof.
  intros Hu Hp Hm. split; [|split].
  - intros s Hs Hne Hnan. split; [intro v; rewrite Hnan; reflexivity|].
    rewrite (fetch_get request w Hu Hp Hm), Hs.
    destruct s as [|c r]; [congruence|]. simpl or_default.
    rewrite Hnan, changes_since_NaN. reflexivity.
  - apply parseInt_no_leading_number.
  - intros [Hs|Hs]; rewrite (fetch_get request w Hu Hp Hm), Hs; reflexivity.
Qed.

(** C10 amended, at the demo deployment: [since=abc] is answered with no
    changes and version 3. *)
Lemma unparsable_since_yields_no_changes_witness :
  since garbage_since_get = Some "abc"
  /\ "abc" <> EmptyString
  /\ parseInt "abc" = NaN
  /\ fst (fetch garbage_since_get demo_pushed)
     = Return (Json 200 (BodyChanges [] 3)).
Proof.
  assert (D : "abc" <> EmptyString) by discriminate.
  split; [reflexivity|]. split; [exact D|]. split; [reflexivity|].
  destruct (unparsable_since_yields_no_changes garbage_since_get demo_pushed
              eq_refl eq_refl eq_refl) as (H & _).
  destruct (H "abc" eq_refl D eq_refl) as (_ & E).
  assert (V : currentVersion demo_pushed = 3) by (vm_compute; reflexivity).
  rewrite E. cbn [fst]. rewrite V. reflexivity.
Defined.

(* ===================================================================== *)
(** * Further properties of the coordinator *)
(* ===================================================================== *)

(** ** More frames *)

Section Steady.
Context {T : Type} (obs : World -> T).
Hypothesis obs_trace : forall x w, obs (with_trace x w) = obs w.
Hypothesis obs_changes : forall x w, obs (with_changes x w) = obs w.
Hypothesis obs_currentVersion :
  forall x w, obs (with_currentVersion x w) = obs w.
Hypothesis obs_storage : forall x w, obs (with_storage x w) = obs w.
Hypothesis obs_faults : forall x w, obs (with_faults x w) = obs w.

Lemma keeps_storage_put store e : keeps obs (storage_put store e).
Proof.
  intro w. unfold storage_put.
  destruct (faults w) as [|[] f]; simpl; unfold emit;
    rewrite obs_trace, ?obs_storage, obs_faults; reflexivity.
Qed.

Lemma keeps_assign_versions l : keeps obs (assign_versions l).
Proof.
  induction l as [|[c|] r IH]; cbn [assign_versions].
  - apply keeps_ret.
  - apply keeps_bind; [intro w; apply obs_currentVersion|]. intro.
    apply keeps_bind; [apply keeps_gets|]. intro v.
    apply keeps_bind; [intro w; apply obs_changes|]. intro.
    apply keeps_bind; [exact IH|]. intro. apply keeps_ret.
  - apply keeps_bind; [intro w; apply obs_currentVersion|]. intro.
    apply keeps_bind; [apply keeps_gets|]. intro v. apply keeps_throw.
Qed.

Lemma keeps_applyChanges b : keeps obs (applyChanges b).
Proof.
  destruct b as [l|]; [|apply keeps_throw]. unfold applyChanges.
  apply keeps_bind; [apply keeps_assign_versions|]. intro a.
  apply keeps_bind; [apply keeps_gets|]. intro v.
  apply keeps_bind; [apply keeps_storage_put|]. intro.
  apply keeps_bind; [apply keeps_gets|]. intro c.
  apply keeps_bind; [apply keeps_storage_put|]. intro.
  apply keeps_ret.
Qed.

Lemma keeps_handlePush ws s l : keeps obs (handlePush ws s l).
Proof.
  unfold handlePush. destruct (_ || _); [apply keeps_sendError; auto|].
  apply keeps_bind; [apply keeps_applyChanges|]. intro a.
  apply keeps_bind; [apply keeps_gets|]. intro v.
  apply keeps_bind; [apply keeps_send; auto|]. intro.
  apply keeps_bind; [apply keeps_gets|]. intro v'.
  apply keeps_broadcastExcept; auto.
Qed.
End Steady.

Lemma sessions_trace x w : sessions (with_trace x w) = sessions w.
Proof. reflexivity. Qed.
Lemma sessions_changes x w : sessions (with_changes x w) = sessions w.
Proof. reflexivity. Qed.
Lemma sessions_currentVersion x w :
  sessions (with_currentVersion x w) = sessions w.
Proof. reflexivity. Qed.
Lemma sessions_storage x w : sessions (with_storage x w) = sessions w.
Proof. reflexivity. Qed.
Lemma sessions_faults x w : sessions (with_faults x w) = sessions w.
Proof. reflexivity. Qed.

Lemma platform_sessions x w : platform_of (with_sessions x w) = platform_of w.
Proof. reflexivity. Qed.
Lemma platform_trace x w : platform_of (with_trace x w) = platform_of w.
Proof. reflexivity. Qed.
Lemma platform_next_socket x w :
  platform_of (with_next_socket x w) = platform_of w.
Proof. reflexivity. Qed.
Lemma platform_changes x w : platform_of (with_changes x w) = platform_of w.
Proof. reflexivity. Qed.
Lemma platform_currentVersion x w :
  platform_of (with_currentVersion x w) = platform_of w.
Proof. reflexivity. Qed.
Lemma platform_storage x w : platform_of (with_storage x w) = platform_of w.
Proof. reflexivity. Qed.
Lemma platform_faults x w : platform_of (with_faults x w) = platform_of w.
Proof. reflexivity. Qed.

#[local] Hint Resolve sessions_trace sessions_changes sessions_currentVersion
  sessions_storage sessions_faults platform_sessions platform_trace
  platform_next_socket platform_changes platform_currentVersion
  platform_storage platform_faults : frame.
#[local] Hint Resolve keeps_applyChanges keeps_handlePush keeps_bind
  keeps_try_catch : frame.

(** ** The session map *)

Lemma Map_get_In ws s m : Map_get ws m = Some s -> In (ws, s) m.
Proof.
  induction m as [|[k x] r IH]; simpl; [discriminate|].
  destruct (Nat.eqb_spec k ws) as [->|Hk]; intro H.
  - injection H as ->. left. reflexivity.
  - right. apply IH, H.
Qed.

Lemma In_Map_set k s ws x m :
  In (k, s) (Map_set ws x m) -> (k = ws /\ s = x) \/ In (k, s) m.
Proof.
  induction m as [|[k0 s0] r IH]; simpl.
  - intros [H|[]]. injection H as <- <-. left. split; reflexivity.
  - destruct (Nat.eqb_spec k0 ws) as [->|Hk]; simpl.
    + intros [H|H]; [injection H as <- <-; left; split; reflexivity|].
      right. right. exact H.
    + intros [H|H]; [right; left; exact H|].
      destruct (IH H) as [E|E]; [left; exact E | right; right; exact E].
Qed.

Lemma Map_set_keys ws s x m :
  Map_get ws m = Some s -> map fst (Map_set ws x m) = map fst m.
Proof.
  induction m as [|[k s0] r IH]; simpl; [discriminate|].
  destruct (Nat.eqb_spec k ws) as [->|Hk]; simpl; intro H; [reflexivity|].
  rewrite (IH H). reflexivity.
Qed.

Lemma Map_set_new_keys ws x m :
  ~ In ws (map fst m) -> Map_set ws x m = m ++ [(ws, x)].
Proof.
  induction m as [|[k s0] r IH]; simpl; intro H; [reflexivity|].
  destruct (Nat.eqb_spec k ws) as [->|Hk]; [exfalso; apply H; left; reflexivity|].
  rewrite IH; [reflexivity|]. intro Hin. apply H. right. exact Hin.
Qed.

Lemma Map_get_None_keys ws m : Map_get ws m = None <-> ~ In ws (map fst m).
Proof.
  induction m as [|[k s0] r IH]; simpl; [tauto|].
  destruct (Nat.eqb_spec k ws) as [->|Hk].
  - split; [discriminate|]. intro H. exfalso. apply H. left. reflexivity.
  - rewrite IH. tauto.
Qed.

Lemma Map_get_delete ws m : Map_get ws (Map_delete ws m) = None.
Proof.
  induction m as [|[k s0] r IH]; simpl; [reflexivity|].
  destruct (Nat.eqb_spec k ws) as [->|Hk]; simpl; [exact IH|].
  destruct (Nat.eqb_spec k ws); [contradiction | exact IH].
Qed.

Lemma Map_get_delete_other k ws m :
  k <> ws -> Map_get k (Map_delete ws m) = Map_get k m.
Proof.
  intro H. induction m as [|[k0 s0] r IH]; simpl; [reflexivity|].
  destruct (Nat.eqb_spec k0 ws) as [->|Hk]; simpl.
  - destruct (Nat.eqb_spec ws k); [congruence | exact IH].
  - rewrite IH. reflexivity.
Qed.

Lemma In_Map_delete e ws m : In e (Map_delete ws m) -> In e m /\ fst e <> ws.
Proof.
  unfold Map_delete. rewrite filter_In. intros [H1 H2]. split; [exact H1|].
  apply negb_true_iff in H2. apply Nat.eqb_neq. exact H2.
Qed.

(** ** Join, leave, close *)

Lemma broadcastPresence_spec w :
  broadcastPresence w
  = (Return tt,
     with_trace (trace w ++ attempts (presence_of w) (recipients w) w) w).
Proof. unfold broadcastPresence. rewrite bind_gets. apply broadcast_spec. Qed.

Lemma handleJoin_ok ws s0 s workspaceId w :
  Map_get ws (sessions w) = Some s ->
  truthy (Session.accountId s0) = true ->
  let w' :=
    with_sessions
      (Map_set ws (Session.set_workspaceId (Some workspaceId) s) (sessions w))
      w in
  handleJoin ws s0 workspaceId w
  = (Return tt,
     with_trace
       (trace w
        ++ [SendTo ws (ServerMessage.joined workspaceId (currentVersion w))
                   (negb (is_closed ws w))]
        ++ attempts (presence_of w') (recipients w') w)
       w').
Proof.
  intros Hs Ha w'. unfold handleJoin. rewrite Ha. cbn [negb].
  unfold bind at 1. rewrite (update_session_found ws _ s w Hs). fold w'.
  rewrite bind_gets. unfold bind. rewrite send_spec, broadcastPresence_spec.
  unfold emit, with_trace. simpl. rewrite <- app_assoc. reflexivity.
Qed.

Lemma handleLeave_spec ws s0 s w :
  Map_get ws (sessions w) = Some s ->
  let w' :=
    with_sessions (Map_set ws (Session.set_workspaceId None s) (sessions w))
                  w in
  handleLeave ws s0 w
  = (Return tt,
     with_trace (trace w ++ attempts (presence_of w') (recipients w') w) w').
Proof.
  intros Hs w'. unfold handleLeave, bind.
  rewrite (update_session_found ws _ s w Hs). fold w'.
  rewrite broadcastPresence_spec. reflexivity.
Qed.

Lemma webSocketClose_spec ws s w :
  Map_get ws (sessions w) = Some s ->
  let w' := with_sessions (Map_delete ws (sessions w)) w in
  webSocketClose ws w
  = (Return tt,
     with_trace (trace w ++ attempts (presence_of w') (recipients w') w) w').
Proof.
  intros Hs w'. unfold webSocketClose. rewrite bind_gets, Hs.
  unfold bind, modify. fold w'. rewrite broadcastPresence_spec. reflexivity.
Qed.

Lemma webSocketClose_unknown ws w :
  Map_get ws (sessions w) = None -> webSocketClose ws w = (Return tt, w).
Proof.
  intro Hs. unfold webSocketClose. rewrite bind_gets, Hs. reflexivity.
Qed.

(** ** One inbound message *)

Lemma webSocketMessage_enter ws s message w :
  Map_get ws (sessions w) = Some s ->
  let session := Session.set_lastSeen (now w) s in
  webSocketMessage ws message w
  = try_catch
      match message with
      | Malformed => throw
      | UnknownType => ret tt
      | Parsed (SyncMessage.auth token) => handleAuth ws session token
      | Parsed (SyncMessage.join workspaceId) =>
          handleJoin ws session workspaceId
      | Parsed SyncMessage.leave => handleLeave ws session
      | Parsed (SyncMessage.push changes) => handlePush ws session changes
      | Parsed (SyncMessage.pull sinceVersion) =>
          handlePull ws session sinceVersion
      | Parsed (SyncMessage.ack _) => ret tt
      end
      (sendError ws "PARSE_ERROR" "Invalid message format")
      (with_sessions (Map_set ws session (sessions w)) w).
Proof.
  intros Hs session. unfold webSocketMessage. rewrite bind_gets, Hs, bind_gets.
  unfold bind, update_session, modify. rewrite Hs. reflexivity.
Qed.

Lemma webSocketMessage_unregistered ws message w :
  Map_get ws (sessions w) = None ->
  webSocketMessage ws message w = (Return tt, w).
Proof.
  intro Hs. unfold webSocketMessage. rewrite bind_gets, Hs. reflexivity.
Qed.

Lemma try_catch_returns (m : M unit) ws code msg w :
  fst (try_catch m (sendError ws code msg) w) = Return tt.
Proof.
  unfold try_catch. destruct (m w) as [[[]|] w1]; [reflexivity|].
  rewrite sendError_spec. reflexivity.
Qed.

Lemma webSocketMessage_sessions ws s message w :
  Map_get ws (sessions w) = Some s ->
  sessions (snd (webSocketMessage ws message w))
  = Map_set ws (session_after w s message) (sessions w).
Proof.
  intro Hs. rewrite (webSocketMessage_enter ws s message w Hs).
  set (s' := Session.set_lastSeen (now w) s).
  set (w1 := with_sessions (Map_set ws s' (sessions w)) w).
  rewrite (snd_try_catch_keeps sessions)
    by (apply keeps_sendError; auto with frame).
  assert (G1 : Map_get ws (sessions w1) = Some s') by apply Map_get_set.
  destruct message as [| |[token|wid| |l|v|v]]; try reflexivity.
  - (* auth *)
    unfold session_after. fold s'.
    change (token_payload token w) with (token_payload token w1).
    destruct (token_payload token w1) as [p|] eqn:Hp.
    + rewrite (handleAuth_ok ws s' s' token p w1 G1 Hp). simpl.
      apply Map_set_set.
    + rewrite (handleAuth_failed ws s' token w1 Hp). reflexivity.
  - (* join *)
    unfold session_after. fold s'.
    change (Session.accountId s) with (Session.accountId s').
    destruct (truthy (Session.accountId s')) eqn:Ha.
    + rewrite (handleJoin_ok ws s' s' wid w1 G1 Ha). simpl.
      apply Map_set_set.
    + rewrite (handleJoin_rejected ws s' wid w1 Ha). reflexivity.
  - (* leave *)
    rewrite (handleLeave_spec ws s' s' w1 G1). simpl. apply Map_set_set.
  - (* push *)
    transitivity (sessions w1); [|reflexivity].
    apply (keeps_handlePush sessions); auto with frame.
  - (* pull *)
    transitivity (sessions w1); [|reflexivity].
    apply (keeps_handlePull sessions); auto with frame.
Qed.

Lemma webSocketMessage_platform ws message w :
  platform_of (snd (webSocketMessage ws message w)) = platform_of w.
Proof.
  revert w. change (keeps platform_of (webSocketMessage ws message)).
  unfold webSocketMessage.
  apply keeps_bind; [auto with frame|]. intros [s|]; [|auto with frame].
  apply keeps_bind; [auto with frame|]. intro n.
  apply keeps_bind; [auto with frame|]. intro.
  apply keeps_try_catch; [|auto with frame].
  destruct message as [| |[token|wid| |l|v|v]]; auto with frame.
Qed.

(** X1.  [webSocketMessage] never lets an exception escape, whatever the
    message and whatever fails inside the handlers.  A message on a
    socket that has no session is ignored and changes nothing.  For a
    registered session, a message on which [JSON.parse] or a property
    read throws before any handler has changed anything is answered with
    PARSE_ERROR on that socket and only refreshes [lastSeen], and so is
    the push by a joined session of a batch that cannot be iterated; a
    message of unknown type and an [ack] refresh [lastSeen] and do
    nothing else.  The push by a joined session of a batch with an
    element that is not an object is answered with PARSE_ERROR as well,
    but it does more than refresh [lastSeen]: the records before that
    element are in the log in memory with their versions, and the counter
    stands one beyond the last of them, while the storage is as it
    was. *)
Theorem webSocketMessage_contains_failures
    (ws : WebSocket) (message : Inbound) (w : World) :
  fst (webSocketMessage ws message w) = Return tt
  /\ (Map_get ws (sessions w) = None ->
      webSocketMessage ws message w = (Return tt, w))
  /\ (forall s,
        Map_get ws (sessions w) = Some s ->
        let w1 :=
          with_sessions
            (Map_set ws (Session.set_lastSeen (now w) s) (sessions w)) w in
        webSocketMessage ws Malformed w
        = (Return tt,
           emit (SendTo ws
                   (ServerMessage.error "PARSE_ERROR" "Invalid message format")
                   (negb (is_closed ws w))) w1)
        /\ webSocketMessage ws UnknownType w = (Return tt, w1)
        /\ (forall v,
              webSocketMessage ws (Parsed (SyncMessage.ack v)) w
              = (Return tt, w1))
        /\ (is_joined s = true ->
            webSocketMessage ws (Parsed (SyncMessage.push NotIterable)) w
            = (Return tt,
               emit (SendTo ws
                       (ServerMessage.error "PARSE_ERROR"
                          "Invalid message format")
                       (negb (is_closed ws w))) w1))
        /\ (forall b,
              is_joined s = true ->
              stalls b = true ->
              let v' :=
                currentVersion w + Z.of_nat (List.length (accepted b)) + 1 in
              let log' :=
                changes w ++ numbered (currentVersion w) (accepted b) in
              webSocketMessage ws (Parsed (SyncMessage.push b)) w
              = (Return tt,
                 emit (SendTo ws
                         (ServerMessage.error "PARSE_ERROR"
                            "Invalid message format")
                         (negb (is_closed ws w)))
                      (with_currentVersion v' (with_changes log' w1)))
              /\ storage (snd (webSocketMessage
                                 ws (Parsed (SyncMessage.push b)) w))
                 = storage w)).
Proof.
  split; [|split].
  - destruct (Map_get ws (sessions w)) as [s|] eqn:Hs.
    + rewrite (webSocketMessage_enter ws s message w Hs).
      apply try_catch_returns.
    + rewrite (webSocketMessage_unregistered ws message w Hs). reflexivity.
  - apply webSocketMessage_unregistered.
  - intros s Hs w1.
    rewrite !(fun m => webSocketMessage_enter ws s m w Hs). fold w1.
    split; [|split; [|split; [|split]]].
    + unfold try_catch, throw. rewrite sendError_spec. reflexivity.
    + reflexivity.
    + intro v. rewrite (webSocketMessage_enter ws s _ w Hs). reflexivity.
    + intro Hj. unfold try_catch.
      rewrite (handlePush_not_iterable
                 ws (Session.set_lastSeen (now w) s) w1 Hj), sendError_spec.
      reflexivity.
    + intros b Hj Hb v' log'.
      rewrite (webSocketMessage_enter ws s _ w Hs). fold w1.
      unfold try_catch.
      rewrite (handlePush_stall
                 ws (Session.set_lastSeen (now w) s) b w1 Hj Hb),
        sendError_spec.
      split; reflexivity.
Qed.

(** X1 at the demo deployment: garbage on Alice's socket is answered
    with an error and the call returns normally; so is her push of the
    batch [[null]], which moves the counter from 0 to 1 and leaves the
    log empty. *)
Lemma webSocketMessage_contains_failures_witness :
  let w' :=
    snd (webSocketMessage 1%nat
           (Parsed (SyncMessage.push (Iterable [Primitive]))) demo_joined) in
  Map_get 1%nat (sessions demo_joined) = Some demo_alice
  /\ fst (webSocketMessage 1%nat Malformed demo_joined) = Return tt
  /\ trace (snd (webSocketMessage 1%nat Malformed demo_joined))
     = trace demo_joined
       ++ [SendTo 1%nat
             (ServerMessage.error "PARSE_ERROR" "Invalid message format")
             true]
  /\ is_joined demo_alice = true
  /\ stalls (Iterable [Primitive]) = true
  /\ currentVersion demo_joined = 0
  /\ currentVersion w' = 1
  /\ changes w' = []
  /\ storage w' = storage demo_joined.
Proof.
  intro w'.
  assert (R : Map_get 1%nat (sessions demo_joined) = Some demo_alice)
    by (vm_compute; reflexivity).
  destruct (webSocketMessage_contains_failures 1%nat Malformed demo_joined)
    as (H1 & _ & H3).
  destruct (H3 demo_alice R) as (E & _ & _ & _ & S).
  destruct (S (Iterable [Primitive]) eq_refl eq_refl) as (E' & St).
  split; [exact R|]. split; [exact H1|].
  split; [rewrite E; vm_compute; reflexivity|].
  split; [reflexivity|]. split; [reflexivity|].
  split; [vm_compute; reflexivity|].
  unfold w'. split; [|split; [|exact St]].
  - rewrite E'. vm_compute. reflexivity.
  - rewrite E'. vm_compute. reflexivity.
Defined.

(** X2.  The session map changes by one pure transition per message: a
    message from a registered session replaces that session by
    [session_after] (refresh [lastSeen]; on a valid [auth] overwrite the
    identity; on [join] by an authenticated session set the workspace; on
    [leave] clear it) and leaves every other session, the order of the
    map and everything the platform decides untouched. *)
Theorem session_map_follows_session_after
    (ws : WebSocket) (s : Session.t) (message : Inbound) (w : World) :
  Map_get ws (sessions w) = Some s ->
  let w' := serve (SocketMessage ws message) w in
  sessions w' = Map_set ws (session_after w s message) (sessions w)
  /\ Map_get ws (sessions w') = Some (session_after w s message)
  /\ map fst (sessions w') = map fst (sessions w)
  /\ (forall k, k <> ws -> Map_get k (sessions w') = Map_get k (sessions w))
  /\ platform_of w' = platform_of w
  /\ Session.joinedAt (session_after w s message) = Session.joinedAt s
  /\ Session.lastSeen (session_after w s message) = now w.
Proof.
  intros Hs w'.
  assert (E : sessions w' = Map_set ws (session_after w s message) (sessions w))
    by (apply webSocketMessage_sessions; exact Hs).
  refine (conj E (conj _ (conj _ (conj _ (conj _ (conj _ _)))))).
  - rewrite E. apply Map_get_set.
  - rewrite E. apply (Map_set_keys ws s). exact Hs.
  - intros k Hk. rewrite E. apply Map_get_set_other. exact Hk.
  - apply webSocketMessage_platform.
  - unfold session_after.
    destruct message as [| |[token|wid| |l|v|v]]; try reflexivity.
    + destruct (token_payload token w); reflexivity.
    + destruct (truthy (Session.accountId s)); reflexivity.
  - unfold session_after.
    destruct message as [| |[token|wid| |l|v|v]]; try reflexivity.
    + destruct (token_payload token w); reflexivity.
    + destruct (truthy (Session.accountId s)); reflexivity.
Qed.

(** X2 at the demo deployment: Alice leaves; her session loses its
    workspace and Carol's session is as before. *)
Lemma session_map_follows_session_after_witness :
  Map_get 1%nat (sessions demo_joined) = Some demo_alice
  /\ Map_get 1%nat
       (sessions (serve (SocketMessage 1%nat (Parsed SyncMessage.leave))
                        demo_joined))
     = Some (Session.set_workspaceId None
               (Session.set_lastSeen 1700000001000 demo_alice))
  /\ Map_get 5%nat
       (sessions (serve (SocketMessage 1%nat (Parsed SyncMessage.leave))
                        demo_joined))
     = Map_get 5%nat (sessions demo_joined).
Proof.
  assert (R : Map_get 1%nat (sessions demo_joined) = Some demo_alice)
    by (vm_compute; reflexivity).
  destruct (session_map_follows_session_after 1%nat demo_alice
              (Parsed SyncMessage.leave) demo_joined R)
    as (_ & H2 & _ & H4 & _).
  split; [exact R|]. split.
  - rewrite H2. vm_compute. reflexivity.
  - apply H4. discriminate.
Defined.

(** ** What the stateless endpoints and the calls leave alone *)

Section Inert.
Context {T : Type} (obs : World -> T).
Hypothesis obs_trace : forall x w, obs (with_trace x w) = obs w.
Hypothesis obs_changes : forall x w, obs (with_changes x w) = obs w.
Hypothesis obs_currentVersion :
  forall x w, obs (with_currentVersion x w) = obs w.
Hypothesis obs_storage : forall x w, obs (with_storage x w) = obs w.
Hypothesis obs_faults : forall x w, obs (with_faults x w) = obs w.

Lemma keeps_fetch_plain request :
  is_upgrade request = false -> keeps obs (fetch request).
Proof.
  intro Hu. unfold fetch. fold (is_upgrade request). rewrite Hu.
  destruct (_ && _).
  { repeat (apply keeps_bind; [apply keeps_gets|intro]). apply keeps_ret. }
  destruct (_ && _); [|apply keeps_ret].
  destruct (authorization request) as [h|]; [|apply keeps_ret].
  destruct (prefix "Bearer " h); [|apply keeps_ret].
  apply keeps_bind; [apply keeps_gets|]. intro secret.
  apply keeps_bind; [apply keeps_verifyToken|]. intros [p|]; [|apply keeps_ret].
  destruct (body request) as [l|]; [|apply keeps_throw].
  apply keeps_bind; [apply keeps_applyChanges; assumption|]. intro a.
  apply keeps_bind; [apply keeps_gets|]. intro v.
  apply keeps_bind; [apply keeps_broadcast; assumption|]. intro.
  apply keeps_bind; [apply keeps_gets|]. intro v'. apply keeps_ret.
Qed.

Hypothesis obs_sessions : forall x w, obs (with_sessions x w) = obs w.

Lemma keeps_webSocketMessage ws message : keeps obs (webSocketMessage ws message).
Proof.
  unfold webSocketMessage.
  apply keeps_bind; [apply keeps_gets|]. intros [s|]; [|apply keeps_ret].
  apply keeps_bind; [apply keeps_gets|]. intro n.
  apply keeps_bind; [apply keeps_update_session; assumption|]. intro.
  apply keeps_try_catch; [|apply keeps_sendError; assumption].
  destruct message as [| |[token|wid| |l|v|v]].
  - apply keeps_throw.
  - apply keeps_ret.
  - apply keeps_handleAuth; assumption.
  - apply keeps_handleJoin; assumption.
  - apply keeps_handleLeave; assumption.
  - apply keeps_handlePush; assumption.
  - apply keeps_handlePull; assumption.
  - apply keeps_ret.
Qed.
End Inert.

Lemma fetch_platform request w :
  platform_of (snd (fetch request w)) = platform_of w.
Proof.
  destruct (is_upgrade request) eqn:Hu.
  - rewrite (fetch_upgrade request w Hu). reflexivity.
  - apply (keeps_fetch_plain platform_of); auto with frame.
Qed.

Lemma serve_platform c w : platform_of (serve c w) = platform_of w.
Proof.
  destruct c as [request|ws message|ws|ws]; simpl.
  - apply fetch_platform.
  - apply webSocketMessage_platform.
  - apply (keeps_webSocketClose platform_of); auto with frame.
  - reflexivity.
Qed.

Lemma next_socket_sessions x w : next_socket (with_sessions x w) = next_socket w.
Proof. reflexivity. Qed.
Lemma next_socket_trace x w : next_socket (with_trace x w) = next_socket w.
Proof. reflexivity. Qed.
Lemma next_socket_changes x w : next_socket (with_changes x w) = next_socket w.
Proof. reflexivity. Qed.
Lemma next_socket_currentVersion x w :
  next_socket (with_currentVersion x w) = next_socket w.
Proof. reflexivity. Qed.
Lemma next_socket_storage x w : next_socket (with_storage x w) = next_socket w.
Proof. reflexivity. Qed.
Lemma next_socket_faults x w : next_socket (with_faults x w) = next_socket w.
Proof. reflexivity. Qed.

#[local] Hint Resolve next_socket_sessions next_socket_trace
  next_socket_changes next_socket_currentVersion next_socket_storage
  next_socket_faults : frame.

(** ** The registry along a run *)

Lemma Map_delete_keys ws m :
  map fst (Map_delete ws m)
  = filter (fun k => negb (Nat.eqb k ws)) (map fst m).
Proof.
  induction m as [|[k s] r IH]; simpl; [reflexivity|].
  destruct (Nat.eqb k ws); simpl; rewrite IH; reflexivity.
Qed.

Lemma registry_ok_same w w' :
  sessions w' = sessions w -> next_socket w' = next_socket w ->
  registry_ok w -> registry_ok w'.
Proof.
  intros Es En [Hn Hb]. unfold registry_ok. rewrite Es, En. split; assumption.
Qed.

Lemma registry_ok_keys w w' :
  map fst (sessions w') = map fst (sessions w) ->
  next_socket w' = next_socket w ->
  registry_ok w -> registry_ok w'.
Proof.
  intros Es En [Hn Hb]. unfold registry_ok. rewrite Es, En. split; assumption.
Qed.

Lemma registry_ok_serve c w : registry_ok w -> registry_ok (serve c w).
Proof.
  intros [Hn Hb]. destruct c as [request|ws message|ws|ws]; simpl.
  - destruct (is_upgrade request) eqn:Hu.
    + rewrite (fetch_upgrade request w Hu). unfold registry_ok. simpl.
      assert (Hf : ~ In (S (next_socket w)) (map fst (sessions w))).
      { intro Hin. specialize (Hb _ Hin). lia. }
      rewrite (Map_set_new_keys _ _ _ Hf), map_app. simpl. split.
      * apply NoDup_app; [exact Hn | repeat constructor; intros [] |].
        intros x Hx [<-|[]]. exact (Hf Hx).
      * intros k Hk. apply in_app_or in Hk. destruct Hk as [Hk|[<-|[]]];
          [specialize (Hb _ Hk)|]; lia.
    + apply (registry_ok_same w); [| |split; assumption].
      * apply (keeps_fetch_plain sessions); auto with frame.
      * apply (keeps_fetch_plain next_socket); auto with frame.
  - destruct (Map_get ws (sessions w)) as [s|] eqn:Hs.
    + apply (registry_ok_keys w); [| |split; assumption].
      * rewrite (webSocketMessage_sessions ws s message w Hs).
        apply (Map_set_keys ws s _ _ Hs).
      * apply (keeps_webSocketMessage next_socket); auto with frame.
    + rewrite (webSocketMessage_unregistered ws message w Hs).
      split; assumption.
  - destruct (Map_get ws (sessions w)) as [s|] eqn:Hs.
    + rewrite (webSocketClose_spec ws s w Hs). unfold registry_ok. simpl.
      rewrite Map_delete_keys. split.
      * apply NoDup_filter. exact Hn.
      * intros k Hk. apply filter_In in Hk. apply Hb, Hk.
    + rewrite (webSocketClose_unknown ws w Hs). split; assumption.
  - unfold webSocketError, modify, registry_ok. simpl.
    rewrite Map_delete_keys. split.
    + apply NoDup_filter. exact Hn.
    + intros k Hk. apply filter_In in Hk. apply Hb, Hk.
Qed.

Lemma registry_ok_run steps w : registry_ok w -> registry_ok (run steps w).
Proof.
  revert w. induction steps as [|[c|n cl f] r IH]; intros w H; simpl;
    [exact H| |].
  - apply IH, registry_ok_serve, H.
  - apply IH. exact H.
Qed.

Lemma registry_ok_start e cr : registry_ok (start e cr).
Proof. split; [constructor | intros k []]. Qed.

Lemma fetch_plain_sessions request w :
  is_upgrade request = false -> sessions (snd (fetch request w)) = sessions w.
Proof. intro Hu. apply (keeps_fetch_plain sessions); auto with frame. Qed.

(** ** Only authenticated sessions are joined *)

Lemma truthy_nonempty s : s <> EmptyString -> truthy s = true.
Proof. destruct s; [congruence | reflexivity]. Qed.

Lemma session_after_authenticated w s message :
  (forall a p, decode_payload (crypto w) a = Some p ->
               AuthToken.accountId p <> EmptyString) ->
  (truthy_opt (Session.workspaceId s) = true ->
   truthy (Session.accountId s) = true) ->
  truthy_opt (Session.workspaceId (session_after w s message)) = true ->
  truthy (Session.accountId (session_after w s message)) = true.
Proof.
  intros H Hs. unfold session_after.
  destruct message as [| |[token|wid| |l|v|v]]; simpl; try exact Hs.
  - destruct (token_payload token w) as [p|] eqn:Hp; simpl; [|exact Hs].
    intros _. apply truthy_nonempty.
    destruct (token_payload_valid token w p Hp) as (_ & a & b & _ & Hd & _).
    exact (H a p Hd).
  - destruct (truthy (Session.accountId s)) eqn:Ha; simpl.
    + intros _. exact Ha.
    + intro Hw. rewrite Ha. exact (Hs Hw).
  - discriminate.
Qed.

Lemma joined_are_authenticated_serve c w :
  (forall a p, decode_payload (crypto w) a = Some p ->
               AuthToken.accountId p <> EmptyString) ->
  joined_are_authenticated w -> joined_are_authenticated (serve c w).
Proof.
  intros H I. destruct c as [request|ws message|ws|ws]; simpl.
  - destruct (is_upgrade request) eqn:Hu.
    + rewrite (fetch_upgrade request w Hu). intros k s Hin. simpl in Hin.
      apply In_Map_set in Hin. destruct Hin as [[_ ->]|Hin];
        [discriminate | apply (I k s Hin)].
    + unfold joined_are_authenticated.
      rewrite (fetch_plain_sessions request w Hu). exact I.
  - destruct (Map_get ws (sessions w)) as [s|] eqn:Hs.
    + unfold joined_are_authenticated.
      rewrite (webSocketMessage_sessions ws s message w Hs).
      intros k s' Hin. apply In_Map_set in Hin.
      destruct Hin as [[_ ->]|Hin]; [|apply (I k s' Hin)].
      apply session_after_authenticated; [exact H|].
      apply (I ws s). apply Map_get_In, Hs.
    + rewrite (webSocketMessage_unregistered ws message w Hs). exact I.
  - destruct (Map_get ws (sessions w)) as [s|] eqn:Hs.
    + rewrite (webSocketClose_spec ws s w Hs). intros k s' Hin. simpl in Hin.
      apply In_Map_delete in Hin. apply (I k s'), Hin.
    + rewrite (webSocketClose_unknown ws w Hs). exact I.
  - intros k s' Hin. simpl in Hin. apply In_Map_delete in Hin.
    apply (I k s'), Hin.
Qed.

Lemma joined_are_authenticated_run steps w :
  (forall a p, decode_payload (crypto w) a = Some p ->
               AuthToken.accountId p <> EmptyString) ->
  joined_are_authenticated w -> joined_are_authenticated (run steps w).
Proof.
  revert w. induction steps as [|[c|n cl f] r IH]; intros w H I; simpl;
    [exact I| |].
  - apply IH.
    + pose proof (serve_platform c w) as P. unfold platform_of in P.
      injection P as _ P _ _. rewrite P. exact H.
    + apply joined_are_authenticated_serve; assumption.
  - apply IH; [exact H | exact I].
Qed.

(** X3.  When the token verifier never yields an empty account id, then
    along every run of an instance every session that has a workspace
    has an account: a session reaches the joined state only after it has
    authenticated, and every recipient of a broadcast is a session that
    passes the guard of push and pull. *)
Theorem joined_sessions_are_authenticated
    (e : Env) (cr : WebCrypto) (steps : list Step) :
  (forall a p, decode_payload cr a = Some p ->
               AuthToken.accountId p <> EmptyString) ->
  let w := run steps (start e cr) in
  (forall k s,
     Map_get k (sessions w) = Some s ->
     truthy_opt (Session.workspaceId s) = true ->
     is_joined s = true /\ phase s = Joined)
  /\ (forall k,
        In k (recipients w) ->
        exists s, Map_get k (sessions w) = Some s /\ is_joined s = true).
Proof.
  intros H w.
  assert (I : joined_are_authenticated w).
  { apply joined_are_authenticated_run; [exact H | intros k s []]. }
  assert (R : registry_ok w) by (apply registry_ok_run, registry_ok_start).
  assert (J : forall k s, In (k, s) (sessions w) ->
                truthy_opt (Session.workspaceId s) = true ->
                is_joined s = true /\ phase s = Joined).
  { intros k s Hin Hw. pose proof (I k s Hin Hw) as Ha.
    unfold is_joined, phase. rewrite Ha, Hw. split; reflexivity. }
  split.
  - intros k s Hg. apply (J k s). apply Map_get_In, Hg.
  - intros k Hk. unfold recipients in Hk. apply in_map_iff in Hk.
    destruct Hk as ([k' s] & <- & Hin). apply filter_In in Hin.
    destruct Hin as [Hin Hw]. simpl in Hw. exists s. split.
    + destruct R as [Hn _]. clear - Hin Hn. simpl.
      induction (sessions w) as [|[k0 s0] r IH]; [destruct Hin|].
      simpl in *. inversion Hn as [|? ? Hnot Hn']; subst.
      destruct Hin as [E|Hin].
      * injection E as -> ->. rewrite Nat.eqb_refl. reflexivity.
      * destruct (Nat.eqb_spec k0 k') as [->|Hne]; [|apply IH; assumption].
        exfalso. apply Hnot. apply (in_map fst) in Hin. exact Hin.
    + apply (J k' s Hin Hw).
Qed.

(** X3 at a demo deployment whose verifier refuses empty account ids:
    Alice's session has a workspace, and is joined. *)
Lemma joined_sessions_are_authenticated_witness :
  (forall a p, decode_payload strict_crypto a = Some p ->
               AuthToken.accountId p <> EmptyString)
  /\ In 1%nat (recipients strict_joined)
  /\ exists s, Map_get 1%nat (sessions strict_joined) = Some s
               /\ is_joined s = true.
Proof.
  assert (H : forall a p, decode_payload strict_crypto a = Some p ->
                          AuthToken.accountId p <> EmptyString).
  { intros a p. simpl. destruct a; simpl; [discriminate|].
    intro E. injection E as <-. discriminate. }
  assert (R : In 1%nat (recipients strict_joined))
    by (vm_compute; left; reflexivity).
  split; [exact H|]. split; [exact R|].
  exact (proj2 (joined_sessions_are_authenticated demo_env strict_crypto
                  demo_connect H) 1%nat R).
Defined.

(** ** Join, leave, disconnect, connect *)

Lemma presence_members_In ws s m :
  In (ws, s) m -> is_joined s = true -> In (member_of s) (presence_members m).
Proof.
  intros Hin Hj. unfold presence_members.
  apply (in_map (fun e => member_of (snd e)) _ (ws, s)).
  apply filter_In. split; [exact Hin | exact Hj].
Qed.

Lemma recipients_In ws s w :
  In (ws, s) (sessions w) -> truthy_opt (Session.workspaceId s) = true ->
  In ws (recipients w).
Proof.
  intros Hin Hw. unfold recipients.
  apply (in_map fst _ (ws, s)). apply filter_In. split; assumption.
Qed.

(** X4.  A join by an authenticated session stores the workspace id it
    names (any id: nothing is checked against the room or a membership
    list), answers [joined] with the current counter on the session's
    socket, and then broadcasts the presence list to every joined
    session.  With a non-empty id the session is joined from then on, is
    itself among the recipients of that presence message and is listed in
    it.  With the empty id the [joined] answer is sent all the same, but
    the session does not pass the guard of push and pull. *)
Theorem join_sets_workspace_and_announces
    (ws : WebSocket) (s : Session.t) (workspaceId : string) (w : World) :
  Map_get ws (sessions w) = Some s ->
  truthy (Session.accountId s) = true ->
  let s' := Session.set_workspaceId (Some workspaceId) s in
  let w' := with_sessions (Map_set ws s' (sessions w)) w in
  handleJoin ws s workspaceId w
  = (Return tt,
     with_trace
       (trace w
        ++ [SendTo ws (ServerMessage.joined workspaceId (currentVersion w))
                   (negb (is_closed ws w))]
        ++ attempts (presence_of w') (recipients w') w)
       w')
  /\ ledger (snd (handleJoin ws s workspaceId w)) = ledger w
  /\ (workspaceId <> EmptyString ->
      is_joined s' = true
      /\ In ws (recipients w')
      /\ In (member_of s') (presence_members (sessions w')))
  /\ (workspaceId = EmptyString ->
      is_joined s' = false /\ phase s' = Authenticated).
Proof.
  intros Hs Ha s' w'.
  assert (E := handleJoin_ok ws s s workspaceId w Hs Ha). cbv zeta in E.
  fold s' w' in E.
  assert (Hin : In (ws, s') (sessions w'))
    by (apply Map_get_In; apply Map_get_set).
  refine (conj E (conj _ (conj _ _))).
  - rewrite E. reflexivity.
  - intro Hne. apply truthy_nonempty in Hne.
    assert (Hj : is_joined s' = true)
      by (unfold is_joined; simpl; rewrite Ha, Hne; reflexivity).
    split; [exact Hj|]. split.
    + apply (recipients_In ws s'); [exact Hin | exact Hne].
    + apply (presence_members_In ws); assumption.
  - intros ->. unfold is_joined, phase. simpl. rewrite Ha. split; reflexivity.
Qed.

(** X4 at the demo deployment: Alice joins again, naming another
    workspace id; the id is taken as it is and she is answered [joined]. *)
Lemma join_sets_workspace_and_announces_witness :
  Map_get 1%nat (sessions demo_joined) = Some demo_alice
  /\ truthy (Session.accountId demo_alice) = true
  /\ Map_get 1%nat (sessions (snd (handleJoin 1%nat demo_alice "other"
                                              demo_joined)))
     = Some (Session.set_workspaceId (Some "other") demo_alice).
Proof.
  assert (R : Map_get 1%nat (sessions demo_joined) = Some demo_alice)
    by (vm_compute; reflexivity).
  destruct (join_sets_workspace_and_announces 1%nat demo_alice "other"
              demo_joined R eq_refl) as (E & _).
  split; [exact R|]. split; [reflexivity|]. rewrite E.
  vm_compute. reflexivity.
Defined.

Lemma filter_keys_absent (p : WebSocket * Session.t -> bool) ws m :
  ~ In ws (map fst m) ->
  filter (fun k => negb (Nat.eqb k ws)) (map fst (filter p m))
  = map fst (filter p m).
Proof.
  intro H. apply forallb_filter_id. apply forallb_forall. intros k Hk.
  apply negb_true_iff, Nat.eqb_neq. intros ->. apply H.
  apply in_map_iff in Hk. destruct Hk as (e & <- & He).
  apply filter_In in He. apply in_map, He.
Qed.

Lemma recipients_after_leave ws s m :
  NoDup (map fst m) ->
  Map_get ws m = Some s ->
  map fst
    (filter (fun e => truthy_opt (Session.workspaceId (snd e)))
            (Map_set ws (Session.set_workspaceId None s) m))
  = filter (fun k => negb (Nat.eqb k ws))
      (map fst (filter (fun e => truthy_opt (Session.workspaceId (snd e))) m)).
Proof.
  induction m as [|[k s0] r IH]; simpl; [discriminate|].
  intros Hn Hg. inversion Hn as [|? ? Hnot Hn']; subst.
  destruct (Nat.eqb_spec k ws) as [->|Hk].
  - simpl. destruct (truthy_opt (Session.workspaceId s0)); simpl;
      rewrite ?Nat.eqb_refl; simpl;
      symmetry; apply filter_keys_absent; exact Hnot.
  - simpl. destruct (truthy_opt (Session.workspaceId s0)); simpl.
    + destruct (Nat.eqb_spec k ws); [contradiction|]. simpl.
      rewrite (IH Hn' Hg). reflexivity.
    + apply (IH Hn' Hg).
Qed.

(** X5.  In every state an instance reaches, a leave by a registered
    session (joined or not, authenticated or not: nothing is checked and
    no error is sent) clears its workspace and broadcasts the presence
    list to the sessions that are still joined.  The session that left is
    not among them and gets no broadcast from then on; the other
    recipients are exactly those from before; log, counter and storage
    are untouched. *)
Theorem leave_clears_workspace
    (e : Env) (cr : WebCrypto) (steps : list Step)
    (ws : WebSocket) (s : Session.t) :
  let w := run steps (start e cr) in
  Map_get ws (sessions w) = Some s ->
  let s' := Session.set_workspaceId None s in
  let w' := with_sessions (Map_set ws s' (sessions w)) w in
  handleLeave ws s w
  = (Return tt,
     with_trace (trace w ++ attempts (presence_of w') (recipients w') w) w')
  /\ recipients w' = filter (fun k => negb (Nat.eqb k ws)) (recipients w)
  /\ ~ In ws (recipients w')
  /\ phase s' <> Joined
  /\ ledger (snd (handleLeave ws s w)) = ledger w.
Proof.
  intros w Hs s' w'.
  assert (E := handleLeave_spec ws s s w Hs). cbv zeta in E. fold s' w' in E.
  assert (R : registry_ok w) by (apply registry_ok_run, registry_ok_start).
  assert (Er : recipients w'
               = filter (fun k => negb (Nat.eqb k ws)) (recipients w)).
  { apply recipients_after_leave; [apply R | exact Hs]. }
  refine (conj E (conj Er (conj _ (conj _ _)))).
  - rewrite Er. intro Hin. apply filter_In in Hin. destruct Hin as [_ Hne].
    rewrite Nat.eqb_refl in Hne. discriminate.
  - unfold phase. simpl. destruct (truthy (Session.accountId s)); discriminate.
  - rewrite E. reflexivity.
Qed.

(** X5 at the demo deployment: Alice leaves; Bob and Carol remain the
    recipients of broadcasts. *)
Lemma leave_clears_workspace_witness :
  Map_get 1%nat (sessions demo_joined) = Some demo_alice
  /\ recipients demo_joined = [1%nat; 3%nat; 5%nat]
  /\ recipients
       (with_sessions
          (Map_set 1%nat (Session.set_workspaceId None demo_alice)
                   (sessions demo_joined)) demo_joined)
     = [3%nat; 5%nat].
Proof.
  assert (R : Map_get 1%nat (sessions demo_joined) = Some demo_alice)
    by (vm_compute; reflexivity).
  assert (A : recipients demo_joined = [1%nat; 3%nat; 5%nat])
    by (vm_compute; reflexivity).
  destruct (leave_clears_workspace demo_env demo_crypto demo_connect 1%nat
              demo_alice R) as (_ & H & _).
  split; [exact R|]. split; [exact A|].
  etransitivity; [exact H|]. vm_compute. reflexivity.
Defined.

(** X6.  Closing a socket that has a session removes the session and
    broadcasts the presence list to the sessions still joined; the closed
    socket is not among the recipients, the other sessions are untouched,
    and a second close of the same socket does nothing.  Closing a socket
    without a session does nothing at all.  A socket error removes the
    session too, but broadcasts nothing: the trace is left as it was. *)
Theorem close_announces_error_is_silent (ws : WebSocket) (w : World) :
  let w' := with_sessions (Map_delete ws (sessions w)) w in
  (forall s,
     Map_get ws (sessions w) = Some s ->
     webSocketClose ws w
     = (Return tt,
        with_trace (trace w ++ attempts (presence_of w') (recipients w') w) w')
     /\ webSocketClose ws (snd (webSocketClose ws w))
        = (Return tt, snd (webSocketClose ws w)))
  /\ (Map_get ws (sessions w) = None -> webSocketClose ws w = (Return tt, w))
  /\ webSocketError ws w = (Return tt, w')
  /\ Map_get ws (sessions w') = None
  /\ ~ In ws (recipients w')
  /\ (forall k, k <> ws -> Map_get k (sessions w') = Map_get k (sessions w)).
Proof.
  intro w'.
  refine (conj _ (conj (webSocketClose_unknown ws w)
            (conj eq_refl (conj (Map_get_delete ws (sessions w))
               (conj _ _))))).
  - intros s Hs. pose proof (webSocketClose_spec ws s w Hs) as E.
    cbv zeta in E. fold w' in E. split; [exact E|].
    apply webSocketClose_unknown. rewrite E. simpl. apply Map_get_delete.
  - unfold recipients. intro Hin. apply in_map_iff in Hin.
    destruct Hin as (e0 & <- & Hin). apply filter_In in Hin.
    destruct Hin as [Hin _]. simpl in Hin. apply In_Map_delete in Hin.
    destruct Hin as [_ Hne]. apply Hne. reflexivity.
  - intros k Hk. apply Map_get_delete_other. exact Hk.
Qed.

(** X6 at the demo deployment: Alice's socket closes; Carol is sent the
    presence list, on which Alice no longer is. *)
Lemma close_announces_error_is_silent_witness :
  Map_get 1%nat (sessions demo_joined) = Some demo_alice
  /\ fst (webSocketClose 1%nat demo_joined) = Return tt
  /\ Map_get 1%nat (sessions (snd (webSocketClose 1%nat demo_joined))) = None
  /\ trace (snd (webSocketError 1%nat demo_joined)) = trace demo_joined.
Proof.
  assert (R : Map_get 1%nat (sessions demo_joined) = Some demo_alice)
    by (vm_compute; reflexivity).
  destruct (close_announces_error_is_silent 1%nat demo_joined)
    as (H1 & _ & H3 & _).
  destruct (H1 demo_alice R) as (E & _).
  split; [exact R|]. rewrite E, H3.
  split; [reflexivity|]. split; vm_compute; reflexivity.
Defined.

(** X7.  In every state an instance reaches, a request with the header
    [Upgrade: websocket] (whatever its path and method) is answered 101
    with the client end of a new socket pair, and the server end gets a
    session of its own: the socket had no session before, the new session
    is appended to the map with empty identity and no workspace, every
    existing session is left as it was, and nothing is sent or stored. *)
Theorem connect_registers_fresh_session
    (e : Env) (cr : WebCrypto) (steps : list Step) (request : Request) :
  let w := run steps (start e cr) in
  is_upgrade request = true ->
  let server := S (next_socket w) in
  let session := Session.mk EmptyString EmptyString None (now w) (now w) in
  let w' := snd (fetch request w) in
  fst (fetch request w) = Return (SwitchingProtocols (next_socket w))
  /\ Map_get server (sessions w) = None
  /\ sessions w' = sessions w ++ [(server, session)]
  /\ Map_get server (sessions w') = Some session
  /\ (forall k, k <> server -> Map_get k (sessions w') = Map_get k (sessions w))
  /\ phase session = Connected
  /\ ~ In server (recipients w')
  /\ trace w' = trace w
  /\ ledger w' = ledger w.
Proof.
  intros w Hu server session w'.
  assert (E := fetch_upgrade request w Hu). fold server session in E.
  assert (R : registry_ok w) by (apply registry_ok_run, registry_ok_start).
  assert (F : ~ In server (map fst (sessions w))).
  { intro Hin. destruct R as [_ Hb]. specialize (Hb _ Hin). unfold server in Hb.
    lia. }
  assert (Es : sessions w' = sessions w ++ [(server, session)]).
  { unfold w'. rewrite E. simpl. apply Map_set_new_keys. exact F. }
  refine (conj _ (conj _ (conj Es (conj _ (conj _ (conj eq_refl
            (conj _ (conj _ _)))))))).
  - rewrite E. reflexivity.
  - apply Map_get_None_keys. exact F.
  - unfold w'. rewrite E. simpl. apply Map_get_set.
  - intros k Hk. unfold w'. rewrite E. simpl. apply Map_get_set_other. exact Hk.
  - unfold recipients. rewrite Es, filter_app, map_app. simpl.
    rewrite app_nil_r. intro Hin. apply F. apply in_map_iff in Hin.
    destruct Hin as (e0 & <- & Hin). apply filter_In in Hin. apply in_map, Hin.
  - unfold w'. rewrite E. reflexivity.
  - unfold w'. rewrite E. reflexivity.
Qed.

(** X7 at the demo deployment: a fourth client connects and gets the
    sockets 6 (client) and 7 (server). *)
Lemma connect_registers_fresh_session_witness :
  is_upgrade upgrade_request = true
  /\ fst (fetch upgrade_request demo_joined) = Return (SwitchingProtocols 6%nat)
  /\ Map_get 7%nat (sessions demo_joined) = None.
Proof.
  destruct (connect_registers_fresh_session demo_env demo_crypto demo_connect
              upgrade_request eq_refl) as (H1 & H2 & _).
  split; [reflexivity|]. split.
  - etransitivity; [exact H1|]. vm_compute. reflexivity.
  - vm_compute. reflexivity.
Defined.

(** ** Who is sent what *)

Section Adds.
Variable P : Effect -> Prop.

Lemma adds_ret A (a : A) : adds P (ret a).
Proof. intro w. exists []. rewrite app_nil_r. split; [reflexivity|constructor]. Qed.

Lemma adds_throw A : adds P (@throw A).
Proof. intro w. exists []. rewrite app_nil_r. split; [reflexivity|constructor]. Qed.

Lemma adds_gets A (f : World -> A) : adds P (gets f).
Proof. intro w. exists []. rewrite app_nil_r. split; [reflexivity|constructor]. Qed.

Lemma adds_silent A (m : M A) : keeps trace m -> adds P m.
Proof.
  intros H w. exists []. rewrite app_nil_r. split; [apply H|constructor].
Qed.

Lemma adds_bind A B (m : M A) (k : A -> M B) :
  adds P m -> (forall a, adds P (k a)) -> adds P (bind m k).
Proof.
  intros Hm Hk w. unfold bind. destruct (Hm w) as (fx & E & F).
  destruct (m w) as [[a|] w1]; simpl in *.
  - destruct (Hk a w1) as (fx2 & E2 & F2). exists (fx ++ fx2).
    rewrite E2, E, app_assoc. split; [reflexivity|].
    apply Forall_app. split; assumption.
  - exists fx. split; assumption.
Qed.

Lemma adds_try_catch A (m h : M A) :
  adds P m -> adds P h -> adds P (try_catch m h).
Proof.
  intros Hm Hh w. unfold try_catch. destruct (Hm w) as (fx & E & F).
  destruct (m w) as [[a|] w1]; simpl in *.
  - exists fx. split; assumption.
  - destruct (Hh w1) as (fx2 & E2 & F2). exists (fx ++ fx2).
    rewrite E2, E, app_assoc. split; [reflexivity|].
    apply Forall_app. split; assumption.
Qed.

Lemma adds_send ws m : (forall b, P (SendTo ws m b)) -> adds P (send ws m).
Proof.
  intros H w. rewrite send_spec. exists [SendTo ws m (negb (is_closed ws w))].
  split; [reflexivity|]. constructor; [apply H | constructor].
Qed.

Lemma adds_attempts m to w :
  (forall k b, P (SendTo k m b)) -> Forall P (attempts m to w).
Proof.
  intro H. unfold attempts. apply Forall_forall. intros e He.
  apply in_map_iff in He. destruct He as (k & <- & _). apply H.
Qed.

Lemma adds_broadcast m : (forall k b, P (SendTo k m b)) -> adds P (broadcast m).
Proof.
  intros H w. rewrite broadcast_spec. eexists. split; [reflexivity|].
  apply adds_attempts, H.
Qed.

Lemma adds_broadcastPresence :
  (forall k l b, P (SendTo k (ServerMessage.presence l) b)) ->
  adds P broadcastPresence.
Proof.
  intros H w. rewrite broadcastPresence_spec. eexists. split; [reflexivity|].
  apply adds_attempts. intros k b. apply H.
Qed.

Lemma adds_storage_put store e :
  (forall b, P (e b)) -> adds P (storage_put store e).
Proof.
  intros H w. unfold storage_put. destruct (faults w) as [|[] f]; simpl;
    eexists; (split; [reflexivity|]); constructor; auto.
Qed.

Lemma adds_applyChanges b :
  (forall v ok, P (PutVersion v ok)) -> (forall c ok, P (PutChanges c ok)) ->
  adds P (applyChanges b).
Proof.
  intros Hv Hc. destruct b as [l|]; [|apply adds_throw].
  unfold applyChanges.
  apply adds_bind.
  { apply adds_silent. apply keeps_assign_versions; intros; reflexivity. }
  intro a. apply adds_bind; [apply adds_gets|]. intro v.
  apply adds_bind; [apply adds_storage_put; intro; apply Hv|]. intros _.
  apply adds_bind; [apply adds_gets|]. intro c.
  apply adds_bind; [apply adds_storage_put; intro; apply Hc|]. intros _.
  apply adds_ret.
Qed.
End Adds.

Lemma trace_sessions x w : trace (with_sessions x w) = trace w.
Proof. reflexivity. Qed.

Lemma adds_update_session P ws f : adds P (update_session ws f).
Proof.
  apply adds_silent. apply keeps_update_session. apply trace_sessions.
Qed.

Lemma adds_webSocketMessage ws message :
  adds (routed_to ws) (webSocketMessage ws message).
Proof.
  unfold webSocketMessage.
  apply adds_bind; [apply adds_gets|]. intros [s|]; [|apply adds_ret].
  apply adds_bind; [apply adds_gets|]. intro n.
  apply adds_bind; [apply adds_update_session|]. intros _.
  apply adds_try_catch; [|apply adds_send; intro; reflexivity].
  destruct message as [| |[token|wid| |l|v|v]].
  - apply adds_throw.
  - apply adds_ret.
  - unfold handleAuth. apply adds_bind; [apply adds_gets|]. intro secret.
    apply adds_bind; [apply adds_gets|]. intros [p|].
    + apply adds_bind; [apply adds_gets|]. intro n'.
      apply adds_bind; [apply adds_update_session|]. intros _.
      apply adds_send. intro; reflexivity.
    + apply adds_send. intro; reflexivity.
  - unfold handleJoin. destruct (negb _); [apply adds_send; intro; reflexivity|].
    apply adds_bind; [apply adds_update_session|]. intros _.
    apply adds_bind; [apply adds_gets|]. intro v.
    apply adds_bind; [apply adds_send; intro; reflexivity|]. intros _.
    apply adds_broadcastPresence. intros; exact I.
  - unfold handleLeave. apply adds_bind; [apply adds_update_session|]. intros _.
    apply adds_broadcastPresence. intros; exact I.
  - unfold handlePush. destruct (_ || _); [apply adds_send; intro; reflexivity|].
    apply adds_bind; [apply adds_applyChanges; intros; exact I|]. intro a.
    apply adds_bind; [apply adds_gets|]. intro v.
    apply adds_bind; [apply adds_send; intro; reflexivity|]. intros _.
    apply adds_bind; [apply adds_gets|]. intro v'.
    intro w. rewrite broadcastExcept_spec. eexists. split; [reflexivity|].
    apply adds_attempts. intros; exact I.
  - unfold handlePull. destruct (_ || _); [apply adds_send; intro; reflexivity|].
    apply adds_bind; [apply adds_gets|]. intro c.
    apply adds_bind; [apply adds_gets|]. intro cv.
    apply adds_send. intro; exact I.
  - apply adds_ret.
Qed.

Lemma adds_fetch request : adds no_reply (fetch request).
Proof.
  destruct (is_upgrade request) eqn:Hu.
  { apply adds_silent. intro w. rewrite (fetch_upgrade request w Hu).
    reflexivity. }
  unfold fetch. fold (is_upgrade request). rewrite Hu.
  destruct (_ && _).
  { repeat (apply adds_bind; [apply adds_gets|intro]). apply adds_ret. }
  destruct (_ && _); [|apply adds_ret].
  destruct (authorization request) as [h|]; [|apply adds_ret].
  destruct (prefix "Bearer " h); [|apply adds_ret].
  apply adds_bind; [apply adds_gets|]. intro secret.
  apply adds_bind; [apply adds_gets|]. intros [p|]; [|apply adds_ret].
  destruct (body request) as [l|]; [|apply adds_throw].
  apply adds_bind; [apply adds_applyChanges; intros; exact I|]. intro a.
  apply adds_bind; [apply adds_gets|]. intro v.
  apply adds_bind; [apply adds_broadcast; intros; exact I|]. intros _.
  apply adds_bind; [apply adds_gets|]. intro v'. apply adds_ret.
Qed.

(** X8.  A call only ever appends to the trace of effects.  Serving a
    message from the socket [ws], every direct reply (error,
    authenticated, joined, pushed) goes to [ws] and to no other socket;
    the only messages other sessions are sent are relayed changes and
    presence lists.  The stateless endpoints, a close and a socket error
    send no direct reply over any socket. *)
Theorem replies_go_to_the_sender_only (c : Call) (w : World) :
  exists fx,
    trace (serve c w) = trace w ++ fx /\ Forall (routing c) fx.
Proof.
  destruct c as [request|ws message|ws|ws]; simpl.
  - apply adds_fetch.
  - apply adds_webSocketMessage.
  - destruct (Map_get ws (sessions w)) as [s|] eqn:Hs.
    + rewrite (webSocketClose_spec ws s w Hs). eexists.
      split; [reflexivity|]. apply adds_attempts. intros; exact I.
    + rewrite (webSocketClose_unknown ws w Hs). exists [].
      rewrite app_nil_r. split; [reflexivity | constructor].
  - exists []. rewrite app_nil_r. split; [reflexivity | constructor].
Qed.

Lemma recipients_except_In sender w k :
  In k (recipients_except sender w) <-> In k (recipients w) /\ k <> sender.
Proof.
  unfold recipients_except, recipients. rewrite !in_map_iff. split.
  - intros (e & <- & He). apply filter_In in He. destruct He as [He Hc].
    apply andb_true_iff in Hc. destruct Hc as [Hn Hw]. split.
    + exists e. split; [reflexivity|]. apply filter_In. split; assumption.
    + apply Nat.eqb_neq. apply negb_true_iff. exact Hn.
  - intros [(e & <- & He) Hne]. apply filter_In in He. destruct He as [He Hw].
    exists e. split; [reflexivity|]. apply filter_In. split; [exact He|].
    apply andb_true_iff. split; [|exact Hw].
    apply negb_true_iff, Nat.eqb_neq. exact Hne.
Qed.

Lemma recipients_iff w k :
  In k (recipients w)
  <-> exists session,
        In (k, session) (sessions w)
        /\ truthy_opt (Session.workspaceId session) = true.
Proof.
  unfold recipients. rewrite in_map_iff. split.
  - intros ([k' session] & <- & He). apply filter_In in He.
    exists session. exact He.
  - intros (session & Hin & Hw). exists (k, session).
    split; [reflexivity|]. apply filter_In. split; assumption.
Qed.

(** X9.  A push is never echoed.  Whatever the session, the batch and the
    state, the changes message that [handlePush] relays is attempted only
    on sockets other than the sender's, and [pushed] only on the
    sender's.  When the session is joined, the batch is an array of
    records and both storage writes succeed, what [handlePush] adds to
    the trace is the two writes, the acknowledgement to the sender and
    then one attempt of the changes message, with the records as they
    were numbered and the new counter, per session of the map that has a
    workspace and another socket than the sender's, in the order of the
    map: the relay is attempted on a socket exactly when a session with a
    workspace is registered under it and it is not the sender's. *)
Theorem push_is_not_echoed
    (ws : WebSocket) (s : Session.t) (b : Batch) (w : World) :
  (exists fx,
     trace (snd (handlePush ws s b w)) = trace w ++ fx
     /\ Forall (not_echoed ws) fx)
  /\ (forall l,
        b = records l ->
        is_joined s = true ->
        puts_succeed (faults w) = true ->
        let v' := currentVersion w + Z.of_nat (List.length l) in
        let log' := changes w ++ numbered (currentVersion w) l in
        let relayed :=
          ServerMessage.changes (numbered (currentVersion w) l) v' in
        exists fx,
          trace (snd (handlePush ws s b w)) = trace w ++ fx
          /\ fx = [PutVersion v' true; PutChanges log' true;
                   SendTo ws (ServerMessage.pushed v')
                          (negb (is_closed ws w))]
                  ++ attempts relayed (recipients_except ws w) w
          /\ (forall k,
                (exists ok, In (SendTo k relayed ok) fx)
                <-> (exists session,
                       In (k, session) (sessions w)
                       /\ truthy_opt (Session.workspaceId session) = true)
                    /\ k <> ws))
  /\ (forall k,
        In k (recipients_except ws w) <-> In k (recipients w) /\ k <> ws).
Proof.
  split; [|split; [|intro k; apply recipients_except_In]].
  - revert w. change (adds (not_echoed ws) (handlePush ws s b)).
    unfold handlePush. destruct (_ || _); [apply adds_send; intro; exact I|].
    apply adds_bind; [apply adds_applyChanges; intros; exact I|]. intro a.
    apply adds_bind; [apply adds_gets|]. intro v.
    apply adds_bind; [apply adds_send; intro; reflexivity|]. intros _.
    apply adds_bind; [apply adds_gets|]. intro v'.
    intro w. rewrite broadcastExcept_spec. eexists. split; [reflexivity|].
    unfold attempts. apply Forall_forall. intros e He.
    apply in_map_iff in He. destruct He as (k & <- & Hk).
    apply recipients_except_In in Hk. simpl. apply Hk.
  - intros l -> Hj Hf v' log' relayed.
    rewrite (handlePush_ok ws s l w Hj Hf). fold v' log' relayed.
    cbn [snd trace]. eexists. split; [reflexivity|]. split; [reflexivity|].
    intro k. rewrite <- recipients_iff, <- recipients_except_In. split.
    + intros [ok Hin]. unfold relayed in Hin.
      destruct Hin as [H|[H|[H|H]]]; try discriminate.
      unfold attempts in H. apply in_map_iff in H.
      destruct H as (k' & E & Hk'). injection E as -> _. exact Hk'.
    + intro Hk. exists (negb (is_closed k w)). do 3 right.
      apply attempts_In. exact Hk.
Qed.

(** X8 at the demo deployment: Dave's socket has no session, so his
    push adds nothing to the trace; Alice's push adds effects that all
    obey the routing rule. *)
Lemma replies_go_to_the_sender_only_witness :
  exists fx,
    trace (serve (SocketMessage 1%nat
                    (Parsed (SyncMessage.push (records [change_a]))))
                 demo_joined)
    = trace demo_joined ++ fx
    /\ Forall (routed_to 1%nat) fx.
Proof.
  exact (replies_go_to_the_sender_only
           (SocketMessage 1%nat
              (Parsed (SyncMessage.push (records [change_a]))))
           demo_joined).
Defined.

(** X9 at the demo deployment: Alice's push is relayed to the sockets 3
    and 5, not to her own socket 1. *)
Lemma push_is_not_echoed_witness :
  let relayed := ServerMessage.changes (numbered 0 [change_a]) 1 in
  recipients demo_joined = [1%nat; 3%nat; 5%nat]
  /\ (In 5%nat (recipients_except 1%nat demo_joined))
  /\ ~ In 1%nat (recipients_except 1%nat demo_joined)
  /\ is_joined demo_alice = true
  /\ puts_succeed (faults demo_joined) = true
  /\ exists fx,
       trace (snd (handlePush 1%nat demo_alice (records [change_a])
                     demo_joined))
       = trace demo_joined ++ fx
       /\ (exists ok, In (SendTo 3%nat relayed ok) fx)
       /\ (exists ok, In (SendTo 5%nat relayed ok) fx)
       /\ ~ (exists ok, In (SendTo 1%nat relayed ok) fx).
Proof.
  intro relayed.
  destruct (push_is_not_echoed 1%nat demo_alice (records [change_a])
              demo_joined) as (_ & R & H).
  assert (A : recipients demo_joined = [1%nat; 3%nat; 5%nat])
    by (vm_compute; reflexivity).
  assert (Hj : is_joined demo_alice = true) by reflexivity.
  assert (Hf : puts_succeed (faults demo_joined) = true)
    by (vm_compute; reflexivity).
  assert (V : currentVersion demo_joined = 0) by (vm_compute; reflexivity).
  split; [exact A|]. split; [|split; [|split; [exact Hj|split; [exact Hf|]]]].
  - apply (proj2 (H 5%nat)). rewrite A.
    split; [right; right; left; reflexivity | discriminate].
  - intro Hin. apply (proj1 (H 1%nat)) in Hin.
    destruct Hin as [_ Hne]. apply Hne. reflexivity.
  - destruct (R [change_a] eq_refl Hj Hf) as (fx & E & _ & T).
    rewrite V in T. exists fx. split; [exact E|].
    split; [|split].
    + apply (proj2 (T 3%nat)). split; [|discriminate].
      apply (proj1 (recipients_iff demo_joined 3%nat)). rewrite A.
      right; left; reflexivity.
    + apply (proj2 (T 5%nat)). split; [|discriminate].
      apply (proj1 (recipients_iff demo_joined 5%nat)). rewrite A.
      right; right; left; reflexivity.
    + intro Hin. apply (proj1 (T 1%nat)) in Hin.
      destruct Hin as [_ Hne]. apply Hne. reflexivity.
Defined.

(** ** A push whose storage write fails *)

Lemma handlePush_first_put_fails ws s l w f :
  is_joined s = true ->
  faults w = true :: f ->
  let v' := currentVersion w + Z.of_nat (List.length l) in
  let log' := changes w ++ numbered (currentVersion w) l in
  handlePush ws s (records l) w
  = (Throw,
     mkWorld (sessions w) log' v' (env w) (storage w) (crypto w) (now w)
             (closed w) f (next_socket w)
             (trace w ++ [PutVersion v' false])).
Proof.
  intros Hj Hf v' log'. unfold handlePush. rewrite guard_is_joined, Hj.
  change (negb true) with false. cbv beta iota. unfold bind at 1.
  rewrite (applyChanges_first_put_fails l w f Hf). reflexivity.
Qed.

Lemma handlePush_second_put_fails ws s l w f :
  is_joined s = true ->
  faults w = false :: true :: f ->
  let v' := currentVersion w + Z.of_nat (List.length l) in
  let log' := changes w ++ numbered (currentVersion w) l in
  handlePush ws s (records l) w
  = (Throw,
     mkWorld (sessions w) log' v' (env w)
             (mkStorage (Some v') (stored_changes (storage w)))
             (crypto w) (now w) (closed w) f (next_socket w)
             (trace w ++ [PutVersion v' true; PutChanges log' false])).
Proof.
  intros Hj Hf v' log'. unfold handlePush. rewrite guard_is_joined, Hj.
  change (negb true) with false. cbv beta iota. unfold bind at 1.
  rewrite (applyChanges_second_put_fails l w f Hf). reflexivity.
Qed.

Lemma restart_log w :
  log_of (restart w)
  = (match stored_changes (storage w) with Some l => l | None => [] end,
     match stored_version (storage w) with Some v => v | None => 0 end).
Proof.
  unfold restart, constructor, bind, modify, gets, ret. simpl.
  destruct (stored_version (storage w)); simpl;
    destruct (stored_changes (storage w)); reflexivity.
Qed.

(** X10.  When a storage write of a push fails, the versions have already
    been assigned in memory and stay there: the instance's log and
    counter include the records, so later pulls serve them, although the
    push was answered with an error.  The stored log is never touched by
    a failed push.  If it is the first write (the counter) that fails,
    the storage is unchanged, and an instance restarted over it has the
    log and counter from before the push.  If the counter was written and
    the log write fails, the storage holds the new counter beside the old
    log, and a restarted instance has the counter of the failed push with
    the log from before it. *)
Theorem failed_push_stays_in_memory
    (ws : WebSocket) (s : Session.t) (l : list EncryptedChange.t) (w : World) :
  is_joined s = true ->
  persisted w ->
  let w' := snd (handlePush ws s (records l) w) in
  let v' := currentVersion w + Z.of_nat (List.length l) in
  let log' := changes w ++ numbered (currentVersion w) l in
  (puts_succeed (faults w) = false ->
     changes w' = log' /\ currentVersion w' = v'
     /\ stored_changes (storage w') = Some (changes w)
     /\ (forall c v, In c (numbered (currentVersion w) l) ->
           v < EncryptedChange.version c ->
           In c (changes_since (Num v) w')))
  /\ (forall f, faults w = true :: f ->
        storage w' = storage w
        /\ changes (restart w') = changes w
        /\ currentVersion (restart w') = currentVersion w)
  /\ (forall f, faults w = false :: true :: f ->
        storage w' = mkStorage (Some v') (Some (changes w))
        /\ changes (restart w') = changes w
        /\ currentVersion (restart w') = v').
Proof.
  intros Hj [Pv Pc] w' v' log'. split; [|split].
  - intro Hf. destruct (puts_fail_cases _ Hf) as [[f Hr]|[f Hr]]; unfold w'.
    + rewrite (handlePush_first_put_fails ws s l w f Hj Hr). simpl.
      refine (conj eq_refl (conj eq_refl (conj Pc _))).
      intros c v Hin Hv. apply changes_since_In. simpl. split; [|exact Hv].
      apply in_or_app. right. exact Hin.
    + rewrite (handlePush_second_put_fails ws s l w f Hj Hr). simpl.
      refine (conj eq_refl (conj eq_refl (conj Pc _))).
      intros c v Hin Hv. apply changes_since_In. simpl. split; [|exact Hv].
      apply in_or_app. right. exact Hin.
  - intros f Hr. unfold w'.
    rewrite (handlePush_first_put_fails ws s l w f Hj Hr). cbn [snd].
    match goal with
    | |- context [restart ?W] => pose proof (restart_log W) as R
    end.
    cbn [storage stored_changes stored_version] in R. rewrite Pv, Pc in R.
    split; [reflexivity|].
    split; [exact (f_equal fst R) | exact (f_equal snd R)].
  - intros f Hr. unfold w'.
    rewrite (handlePush_second_put_fails ws s l w f Hj Hr). cbn [snd].
    rewrite Pc.
    match goal with
    | |- context [restart ?W] => pose proof (restart_log W) as R
    end.
    cbn [storage stored_changes stored_version] in R.
    split; [reflexivity|].
    split; [exact (f_equal fst R) | exact (f_equal snd R)].
Qed.

(** X10 at the demo deployment: three records are stored; Alice pushes a
    fourth while the write of the log fails.  After a restart the counter
    stands at 4 and the log ends at version 3. *)
Lemma failed_push_stays_in_memory_witness :
  let w := with_platform 0 [] [false; true] demo_pushed in
  let w' := snd (handlePush 1%nat demo_alice (records [change_a]) w) in
  is_joined demo_alice = true
  /\ persisted w
  /\ versions w' = [1; 2; 3; 4]
  /\ currentVersion (restart w') = 4
  /\ versions (restart w') = [1; 2; 3].
Proof.
  intros w w'.
  assert (P : persisted w) by (split; vm_compute; reflexivity).
  destruct (failed_push_stays_in_memory 1%nat demo_alice [change_a] w
              eq_refl P) as (_ & _ & H).
  destruct (H [] eq_refl) as (_ & Hc & Hv). fold w' in Hc, Hv.
  split; [reflexivity|]. split; [exact P|].
  split; [vm_compute; reflexivity|].
  unfold versions. rewrite Hc, Hv. split; vm_compute; reflexivity.
Defined.

(** ** The [since] parameter and the decimal rendering of integers *)

Ltac eval_digit :=
  match goal with
  | |- context [digit_value 10 ?c] =>
      let v := eval vm_compute in (digit_value 10 c) in
      change (digit_value 10 c) with v
  end.

Lemma parse_digits_pos d acc :
  parse_digits 10 (Some (Z.pos acc)) (NilEmpty.string_of_uint d)
  = Some (Z.pos (Pos.of_uint_acc d acc)).
Proof.
  revert acc.
  induction d; intro acc;
    cbn [NilEmpty.string_of_uint parse_digits Pos.of_uint_acc];
    [reflexivity|..];
    eval_digit; cbv beta iota; rewrite <- IHd; do 2 f_equal; lia.
Qed.

Lemma parse_digits_zero d :
  parse_digits 10 (Some 0) (NilEmpty.string_of_uint d)
  = Some (Z.of_N (Pos.of_uint d)).
Proof.
  induction d; cbn [NilEmpty.string_of_uint parse_digits Pos.of_uint];
    [reflexivity|..]; eval_digit; cbv beta iota;
    first [ exact IHd | apply parse_digits_pos ].
Qed.

Lemma parse_digits_none d :
  d <> Decimal.Nil ->
  parse_digits 10 None (NilEmpty.string_of_uint d)
  = Some (Z.of_N (Pos.of_uint d)).
Proof.
  intro H. destruct d; [congruence|..];
    cbn [NilEmpty.string_of_uint parse_digits Pos.of_uint];
    eval_digit; cbv beta iota;
    first [ apply parse_digits_zero | apply parse_digits_pos ].
Qed.

Lemma parseInt_uint_digits d :
  d <> Decimal.Nil ->
  parseInt (NilEmpty.string_of_uint d)
  = match parse_digits 10 None (NilEmpty.string_of_uint d) with
    | Some n => Num (1 * n)
    | None => NaN
    end
  /\ parseInt (String "-" (NilEmpty.string_of_uint d))
     = match parse_digits 10 None (NilEmpty.string_of_uint d) with
       | Some n => Num (-1 * n)
       | None => NaN
       end.
Proof.
  intro H. destruct d as [|d|d|d|d|d|d|d|d|d|d]; [congruence|..];
    try (split; reflexivity).
  destruct d; split; reflexivity.
Qed.

Lemma to_uint_nonnil p : Pos.to_uint p <> Decimal.Nil.
Proof.
  intro H. pose proof (DecimalPos.Unsigned.of_to p) as E.
  rewrite H in E. discriminate.
Qed.

Lemma string_of_uint_nonnil d :
  d <> Decimal.Nil -> NilZero.string_of_uint d = NilEmpty.string_of_uint d.
Proof. destruct d; [congruence|..]; reflexivity. Qed.

Lemma parseInt_decimal z : parseInt (decimal z) = Num z.
Proof.
  unfold decimal. destruct z as [|p|p]; [reflexivity| |];
    cbn [Z.to_int NilZero.string_of_int];
    rewrite (string_of_uint_nonnil _ (to_uint_nonnil p));
    destruct (parseInt_uint_digits _ (to_uint_nonnil p)) as [E1 E2].
  - rewrite E1, (parse_digits_none _ (to_uint_nonnil p)),
      DecimalPos.Unsigned.of_to. reflexivity.
  - rewrite E2, (parse_digits_none _ (to_uint_nonnil p)),
      DecimalPos.Unsigned.of_to. reflexivity.
Qed.

Lemma decimal_nonempty z : truthy (decimal z) = true.
Proof.
  unfold decimal. destruct z as [|p|p]; [reflexivity| |];
    cbn [Z.to_int NilZero.string_of_int]; [|reflexivity].
  rewrite (string_of_uint_nonnil _ (to_uint_nonnil p)).
  pose proof (to_uint_nonnil p) as H.
  destruct (Pos.to_uint p); [congruence|..]; reflexivity.
Qed.

(** X11.  [parseInt] reads back the decimal rendering of every integer,
    so the stateless pull agrees with the pull over a socket: a GET
    /changes whose [since] parameter is the decimal rendering of [v] is
    answered with exactly the changes and the version that a joined
    session pulling with [sinceVersion = v] is sent, and changes nothing.
    Unlike the socket pull it asks for no session and no credential. *)
Theorem stateless_pull_agrees_with_socket_pull
    (request : Request) (v : Z) (w : World) :
  is_upgrade request = false ->
  pathname request = "/changes" ->
  method request = "GET" ->
  since request = Some (decimal v) ->
  parseInt (decimal v) = Num v
  /\ fetch request w
     = (Return (Json 200 (BodyChanges (changes_since (Num v) w)
                                      (currentVersion w))), w)
  /\ (forall ws s,
        is_joined s = true ->
        handlePull ws s v w
        = (Return tt,
           emit (SendTo ws
                   (ServerMessage.changes (changes_since (Num v) w)
                                          (currentVersion w))
                   (negb (is_closed ws w))) w)).
Proof.
  intros Hu Hp Hm Hs. split; [apply parseInt_decimal|]. split.
  - rewrite (fetch_get request w Hu Hp Hm), Hs. unfold or_default.
    rewrite decimal_nonempty, parseInt_decimal. reflexivity.
  - intros ws s Hj. apply (handlePull_spec ws s v w Hj).
Qed.

(** X11 at the demo deployment: [since=2] is answered with the record of
    version 3. *)
Lemma stateless_pull_agrees_with_socket_pull_witness :
  since (mkRequest "GET" "/changes" None (Some "2") None None)
  = Some (decimal 2)
  /\ fst (fetch (mkRequest "GET" "/changes" None (Some "2") None None)
                demo_pushed)
     = Return (Json 200 (BodyChanges (changes_since (Num 2) demo_pushed)
                                     (currentVersion demo_pushed))).
Proof.
  split; [reflexivity|].
  destruct (stateless_pull_agrees_with_socket_pull
              (mkRequest "GET" "/changes" None (Some "2") None None) 2
              demo_pushed eq_refl eq_refl eq_refl eq_refl) as (_ & E & _).
  rewrite E. reflexivity.
Defined.

(** ** Tokens *)

Lemma split_nonempty sep s : split sep s <> [].
Proof.
  destruct s as [|c r]; simpl; [discriminate|].
  destruct (Ascii.eqb c sep); [discriminate|].
  destruct (split sep r); discriminate.
Qed.

Lemma split_one sep s b :
  split sep s = [b] <-> s = b /\ has_char sep b = false.
Proof.
  revert b. induction s as [|c r IH]; intro b; simpl.
  - split.
    + intro H. injection H as <-. split; reflexivity.
    + intros [<- _]. reflexivity.
  - destruct (Ascii.eqb c sep) eqn:Ec.
    + split.
      * intro H. injection H as _ H. exfalso. exact (split_nonempty sep r H).
      * intros [<- H]. simpl in H. rewrite Ec in H. discriminate.
    + destruct (split sep r) as [|h t] eqn:Es;
        [exfalso; exact (split_nonempty sep r Es)|].
      split.
      * intro H. injection H as <- ->. destruct (proj1 (IH h) eq_refl) as [-> Hh].
        split; [reflexivity|]. simpl. rewrite Ec. exact Hh.
      * intros [<- H]. simpl in H. rewrite Ec in H. simpl in H.
        assert (E : h :: t = [r]) by (apply (proj2 (IH r)); split; auto).
        injection E as -> ->. reflexivity.
Qed.

Lemma split_two sep s a b :
  split sep s = [a; b]
  <-> s = (a ++ String sep b)%string
      /\ has_char sep a = false /\ has_char sep b = false.
Proof.
  revert a. induction s as [|c r IH]; intro a; simpl.
  - split; [discriminate|]. intros [H _]. destruct a; discriminate.
  - destruct (Ascii.eqb_spec c sep) as [->|Hc].
    + split.
      * intro H. injection H as <- H. apply split_one in H.
        destruct H as [-> Hb]. repeat split. exact Hb.
      * intros (E & Ha & Hb). destruct a as [|c' a'].
        -- simpl in E. injection E as ->. f_equal.
           apply split_one. split; [reflexivity | exact Hb].
        -- simpl in E, Ha. injection E as <- _.
           rewrite Ascii.eqb_refl in Ha. discriminate.
    + destruct (split sep r) as [|h t] eqn:Es;
        [exfalso; exact (split_nonempty sep r Es)|].
      split.
      * intro H. injection H as <- ->.
        destruct (proj1 (IH h) eq_refl) as (-> & Hh & Hb).
        split; [reflexivity|]. split; [|exact Hb].
        simpl. apply Ascii.eqb_neq in Hc. rewrite Hc. exact Hh.
      * intros (E & Ha & Hb). destruct a as [|c' a'].
        -- simpl in E. injection E as -> _. congruence.
        -- simpl in E, Ha. injection E as <- ->.
           apply orb_false_iff in Ha. destruct Ha as [_ Ha].
           assert (E : h :: t = [a'; b])
             by (apply (proj2 (IH a')); repeat split; assumption).
           injection E as -> ->. reflexivity.
Qed.

Lemma verifyToken_run_any token secret w :
  exists r, verifyToken token secret w = (Return r, w).
Proof. eexists. reflexivity. Qed.

Lemma verifyToken_iff token secret w p :
  verifyToken token secret w = (Return (Some p), w)
  <-> exists payloadB64 sigB64,
        token = (payloadB64 ++ String "." sigB64)%string
        /\ has_char "." payloadB64 = false
        /\ has_char "." sigB64 = false
        /\ decode_payload (crypto w) payloadB64 = Some p
        /\ now w / 1000 <= AuthToken.exp p
        /\ hmac_verify (crypto w) secret sigB64 p = Some true.
Proof.
  unfold verifyToken, gets. split.
  - intro H. injection H as H.
    destruct (split "." token) as [|a [|b [|c r]]] eqn:Es; try discriminate.
    apply split_two in Es. destruct Es as (-> & Ha & Hb).
    destruct (decode_payload (crypto w) a) as [q|] eqn:D; [|discriminate].
    destruct (Z.ltb_spec (AuthToken.exp q) (now w / 1000)); [discriminate|].
    destruct (hmac_verify (crypto w) secret b q) as [[|]|] eqn:V;
      try discriminate.
    injection H as <-. exists a, b. repeat split; assumption.
  - intros (a & b & -> & Ha & Hb & D & Hx & V).
    rewrite (proj2 (split_two "." _ a b) (conj eq_refl (conj Ha Hb))), D.
    destruct (Z.ltb_spec (AuthToken.exp p) (now w / 1000)); [lia|].
    rewrite V. reflexivity.
Qed.

(** X12.  [verifyToken] accepts exactly the tokens of the form
    payload "." signature with no further dot, whose payload decodes,
    whose expiry [exp] is not before the current second (a token is still
    valid during the second of its expiry), and whose signature verifies
    under the secret; its result is then the decoded payload.  It never
    throws and changes nothing. *)
Theorem verifyToken_accepts_exactly
    (token secret : string) (w : World) (p : AuthToken.t) :
  (verifyToken token secret w = (Return (Some p), w)
   <-> exists payloadB64 sigB64,
         token = (payloadB64 ++ String "." sigB64)%string
         /\ has_char "." payloadB64 = false
         /\ has_char "." sigB64 = false
         /\ decode_payload (crypto w) payloadB64 = Some p
         /\ now w / 1000 <= AuthToken.exp p
         /\ hmac_verify (crypto w) secret sigB64 p = Some true)
  /\ exists r, verifyToken token secret w = (Return r, w).
Proof.
  split; [apply verifyToken_iff | apply verifyToken_run_any].
Qed.

(** X12 at the demo deployment: [alice.k] is accepted under the secret
    [k]; a token with two dots is not. *)
Lemma verifyToken_accepts_exactly_witness :
  verifyToken "alice.k" "k" demo_joined
  = (Return (Some (AuthToken.mk "alice" 4102444800 0)), demo_joined)
  /\ fst (verifyToken "alice.k.k" "k" demo_joined) = Return None.
Proof.
  split; [|vm_compute; reflexivity].
  apply (proj1 (verifyToken_accepts_exactly "alice.k" "k" demo_joined
                  (AuthToken.mk "alice" 4102444800 0))).
  exists "alice", "k". repeat split; vm_compute; try reflexivity.
  discriminate.
Defined.

(** X13.  A token made by [generateToken] for an account at clock
    reading [date_now] carries that account, [iat] = the second of the
    reading and [exp] = [iat] + 7 days.  Provided the platform's decoding
    and signature check invert its encoding and signing at that payload
    and the encodings contain no dot, [verifyToken] under the same secret
    accepts the token up to and including second [iat + 604800] and
    rejects it from the next second on.  When the payload cannot be
    encoded, [generateToken] throws. *)
Theorem generated_token_is_valid_for_seven_days
    (sg : TokenSigner) (accountId secret : string) (date_now : Z) (w : World) :
  let iat := date_now / 1000 in
  let p := AuthToken.mk accountId (iat + 604800) iat in
  (forall payloadB64,
     encode_payload sg p = Some payloadB64 ->
     has_char "." payloadB64 = false ->
     has_char "." (hmac_sign sg secret p) = false ->
     decode_payload (crypto w) payloadB64 = Some p ->
     hmac_verify (crypto w) secret (hmac_sign sg secret p) p = Some true ->
     let token := (payloadB64 ++ String "." (hmac_sign sg secret p))%string in
     generateToken sg accountId secret date_now = Some token
     /\ (now w / 1000 <= iat + 604800 ->
         verifyToken token secret w = (Return (Some p), w))
     /\ (iat + 604800 < now w / 1000 ->
         verifyToken token secret w = (Return None, w)))
  /\ (encode_payload sg p = None ->
      generateToken sg accountId secret date_now = None).
Proof.
  intros iat p. split.
  - intros enc He Hd1 Hd2 D V token.
    assert (G : generateToken sg accountId secret date_now = Some token).
    { unfold generateToken.
      change (TOKEN_EXPIRY_HOURS * 3600) with 604800. fold iat. fold p.
      rewrite He. reflexivity. }
    split; [exact G|]. split.
    + intro Hle.
      apply (verifyToken_iff token secret w p).
      exists enc, (hmac_sign sg secret p). repeat split; assumption.
    + intro Hgt. unfold verifyToken, gets. unfold token.
      rewrite (proj2 (split_two "." _ enc (hmac_sign sg secret p))
                 (conj eq_refl (conj Hd1 Hd2))), D.
      destruct (Z.ltb_spec (AuthToken.exp p) (now w / 1000)) as [_|Hge];
        [reflexivity|]. simpl in Hge. lia.
  - intro He. unfold generateToken.
    change (TOKEN_EXPIRY_HOURS * 3600) with 604800. fold iat. fold p.
    rewrite He. reflexivity.
Qed.

(** X13 with the toy signer: a token made at second 0 is accepted at
    second 604800 and rejected at second 604801. *)
Lemma generated_token_is_valid_for_seven_days_witness :
  let w1 := with_platform 604800999 [] [] (start demo_env window_crypto) in
  let w2 := with_platform 604801000 [] [] (start demo_env window_crypto) in
  generateToken demo_signer "alice" "k" 500 = Some "alice.k"
  /\ fst (verifyToken "alice.k" "k" w1)
     = Return (Some (AuthToken.mk "alice" 604800 0))
  /\ fst (verifyToken "alice.k" "k" w2) = Return None.
Proof.
  intros w1 w2.
  destruct (generated_token_is_valid_for_seven_days demo_signer "alice" "k"
              500 w1) as (H1 & _).
  destruct (generated_token_is_valid_for_seven_days demo_signer "alice" "k"
              500 w2) as (H2 & _).
  destruct (H1 "alice" eq_refl eq_refl eq_refl eq_refl eq_refl)
    as (G & A & _).
  destruct (H2 "alice" eq_refl eq_refl eq_refl eq_refl eq_refl)
    as (_ & _ & R).
  assert (Hle : now w1 / 1000 <= 500 / 1000 + 604800)
    by (vm_compute; discriminate).
  assert (Hgt : 500 / 1000 + 604800 < now w2 / 1000)
    by (vm_compute; reflexivity).
  split; [exact G|]. split.
  - exact (f_equal fst (A Hle)).
  - exact (f_equal fst (R Hgt)).
Defined.

(** ** Passwords *)

Lemma fold_lor_zero (f : nat -> Z) l acc :
  fold_left (fun result i => Z.lor result (f i)) l acc = 0
  <-> acc = 0 /\ forall i, In i l -> f i = 0.
Proof.
  revert acc. induction l as [|i r IH]; intro acc; simpl.
  - split; [intro H; split; [exact H | intros i []] | intros [H _]; exact H].
  - rewrite IH, Z.lor_eq_0_iff. split.
    + intros [[Ha Hi] Hr]. split; [exact Ha|].
      intros j [<-|Hj]; [exact Hi | apply Hr, Hj].
    + intros [Ha H]. split; [split; [exact Ha | apply H; left; reflexivity]|].
      intros j Hj. apply H. right. exact Hj.
Qed.

Lemma compare_loop_zero a b :
  List.length a = List.length b -> (compare_loop a b = 0 <-> a = b).
Proof.
  intro Hl. unfold compare_loop.
  rewrite (fold_lor_zero (fun i => Z.lxor (nth i a 0) (nth i b 0))). split.
  - intros [_ H]. apply (nth_ext a b 0 0 Hl). intros i Hi.
    apply Z.lxor_eq, H, in_seq. lia.
  - intros <-. split; [reflexivity|]. intros i _. apply Z.lxor_nilpotent.
Qed.

Lemma verifyPassword_true_iff pc password storedHash :
  verifyPassword pc password storedHash = Some true
  <-> exists combined,
        atob_bytes pc storedHash = Some combined
        /\ pbkdf2 pc password (firstn 16 combined) = skipn 16 combined.
Proof.
  unfold verifyPassword.
  destruct (atob_bytes pc storedHash) as [combined|]; split.
  - destruct (Nat.eqb_spec
                (List.length (pbkdf2 pc password (firstn 16 combined)))
                (List.length (skipn 16 combined))) as [Hl|Hl];
      simpl; [|discriminate].
    intro H. injection H as H. apply Z.eqb_eq in H.
    exists combined. split; [reflexivity|].
    apply (compare_loop_zero _ _ Hl), H.
  - intros (c & E & H). injection E as <-. rewrite H, Nat.eqb_refl. simpl.
    f_equal. apply Z.eqb_eq. apply compare_loop_zero; reflexivity.
  - discriminate.
  - intros (c & E & _). discriminate.
Qed.

(** X14.  [verifyPassword] answers true exactly when the stored hash
    decodes and the key derived from the password with the first 16
    stored bytes as salt equals the remaining stored bytes: the
    or-of-xors comparison is zero exactly on equal byte sequences.  A
    stored hash of the wrong length (too short, or empty) is answered
    false; the function throws only when the stored hash is not valid
    base64. *)
Theorem verifyPassword_accepts_exactly
    (pc : PasswordCrypto) (password storedHash : string) :
  (verifyPassword pc password storedHash = Some true
   <-> exists combined,
         atob_bytes pc storedHash = Some combined
         /\ pbkdf2 pc password (firstn 16 combined) = skipn 16 combined)
  /\ (verifyPassword pc password storedHash = None
      <-> atob_bytes pc storedHash = None)
  /\ (forall combined,
        atob_bytes pc storedHash = Some combined ->
        List.length (pbkdf2 pc password (firstn 16 combined))
        <> List.length (skipn 16 combined) ->
        verifyPassword pc password storedHash = Some false)
  /\ (forall a b,
        List.length a = List.length b -> (compare_loop a b = 0 <-> a = b)).
Proof.
  refine (conj (verifyPassword_true_iff pc password storedHash)
            (conj _ (conj _ compare_loop_zero))); unfold verifyPassword.
  - destruct (atob_bytes pc storedHash) as [combined|];
      [|split; reflexivity].
    split; [|discriminate].
    destruct (negb _); discriminate.
  - intros combined E Hl. rewrite E.
    apply Nat.eqb_neq in Hl. rewrite Hl. reflexivity.
Qed.

(** X14 with the toy primitives: a hash made for a five-letter password
    is accepted for another five-letter password (same toy key) and
    refused for a longer one; an empty stored hash is refused. *)
Lemma verifyPassword_accepts_exactly_witness :
  verifyPassword demo_password "hello"
                 (hashPassword demo_password demo_salt "hello") = Some true
  /\ verifyPassword demo_password "hello!"
                    (hashPassword demo_password demo_salt "hello") = Some false
  /\ verifyPassword demo_password "hello" EmptyString = Some false.
Proof.
  split.
  - apply (proj1 (verifyPassword_accepts_exactly demo_password "hello"
                    (hashPassword demo_password demo_salt "hello"))).
    eexists. split; vm_compute; reflexivity.
  - split; vm_compute; reflexivity.
Defined.

(** X15.  A hash made by [hashPassword] with a 16-byte salt verifies for
    the password it was made from, provided [atob] inverts [btoa] on it;
    any other password is accepted for it exactly when PBKDF2 derives the
    same key from it under that salt. *)
Theorem hashed_password_verifies
    (pc : PasswordCrypto) (salt : list Z) (password : string) :
  List.length salt = 16%nat ->
  atob_bytes pc (hashPassword pc salt password)
  = Some (salt ++ pbkdf2 pc password salt) ->
  verifyPassword pc password (hashPassword pc salt password) = Some true
  /\ (forall other,
        verifyPassword pc other (hashPassword pc salt password) = Some true
        <-> pbkdf2 pc other salt = pbkdf2 pc password salt).
Proof.
  intros Hl Hr.
  assert (F : firstn 16 (salt ++ pbkdf2 pc password salt) = salt).
  { rewrite <- Hl. rewrite firstn_app, Nat.sub_diag, firstn_all. simpl.
    apply app_nil_r. }
  assert (S : skipn 16 (salt ++ pbkdf2 pc password salt)
              = pbkdf2 pc password salt).
  { rewrite <- Hl. rewrite skipn_app, Nat.sub_diag, skipn_all. reflexivity. }
  assert (O : forall other,
            verifyPassword pc other (hashPassword pc salt password) = Some true
            <-> pbkdf2 pc other salt = pbkdf2 pc password salt).
  { intro other.
    rewrite (verifyPassword_true_iff pc other (hashPassword pc salt password)).
    split.
    - intros (c & E & H). rewrite Hr in E. injection E as <-.
      rewrite F, S in H. exact H.
    - intro H. exists (salt ++ pbkdf2 pc password salt).
      split; [exact Hr|]. rewrite F, S. exact H. }
  split; [apply O; reflexivity | exact O].
Qed.

(** X15 with the toy primitives and a 16-byte salt. *)
Lemma hashed_password_verifies_witness :
  List.length demo_salt = 16%nat
  /\ verifyPassword demo_password "secret"
                    (hashPassword demo_password demo_salt "secret")
     = Some true.
Proof.
  split; [reflexivity|].
  apply (hashed_password_verifies demo_password demo_salt "secret");
    vm_compute; reflexivity.
Defined.

(* ===================================================================== *)
(** * The account store *)
(* ===================================================================== *)

(** ** Addresses *)

Lemma lower_char_white c : is_white_space (lower_char c) = is_white_space c.
Proof. destruct c as [[] [] [] [] [] [] [] []]; reflexivity. Qed.

Lemma lower_char_idem c : lower_char (lower_char c) = lower_char c.
Proof. destruct c as [[] [] [] [] [] [] [] []]; reflexivity. Qed.

Lemma toLowerCase_idem s : toLowerCase (toLowerCase s) = toLowerCase s.
Proof.
  induction s as [|c r IH]; simpl; [reflexivity|].
  rewrite lower_char_idem, IH. reflexivity.
Qed.

Lemma toLowerCase_trim_start s :
  toLowerCase (trim_start s) = trim_start (toLowerCase s).
Proof.
  induction s as [|c r IH]; [reflexivity|].
  cbn [trim_start toLowerCase]. rewrite lower_char_white.
  destruct (is_white_space c); [exact IH | reflexivity].
Qed.

Lemma toLowerCase_trim_end s :
  toLowerCase (trim_end s) = trim_end (toLowerCase s).
Proof.
  induction s as [|c r IH]; [reflexivity|].
  cbn [trim_end toLowerCase]. rewrite <- IH, lower_char_white.
  destruct (trim_end r); cbn [toLowerCase]; [|reflexivity].
  destruct (is_white_space c); reflexivity.
Qed.

Lemma trim_end_cons c r :
  trim_end (String c r)
  = match trim_end r with
    | EmptyString =>
        if is_white_space c then EmptyString else String c EmptyString
    | r' => String c r'
    end.
Proof. reflexivity. Qed.

Lemma trim_end_idem s : trim_end (trim_end s) = trim_end s.
Proof.
  induction s as [|c r IH]; [reflexivity|].
  rewrite (trim_end_cons c r). destruct (trim_end r) as [|c' r'] eqn:E.
  - destruct (is_white_space c) eqn:W; [reflexivity|].
    rewrite trim_end_cons. cbn [trim_end]. rewrite W. reflexivity.
  - rewrite trim_end_cons, IH. reflexivity.
Qed.

Lemma trim_start_headed s : headed (trim_start s).
Proof.
  induction s as [|c r IH]; [exact I|].
  cbn [trim_start]. destruct (is_white_space c) eqn:W; [exact IH | exact W].
Qed.

Lemma trim_start_of_headed s : headed s -> trim_start s = s.
Proof.
  destruct s as [|c r]; [reflexivity|]. simpl. intros ->. reflexivity.
Qed.

Lemma trim_end_headed s : headed s -> headed (trim_end s).
Proof.
  destruct s as [|c r]; [exact (fun H => H)|]. cbn [trim_end headed].
  intro W. destruct (trim_end r); [rewrite W|]; exact W.
Qed.

Lemma trim_idem s : trim (trim s) = trim s.
Proof.
  unfold trim.
  rewrite (trim_start_of_headed _ (trim_end_headed _ (trim_start_headed s))).
  apply trim_end_idem.
Qed.

Lemma normalize_idem s :
  trim (toLowerCase (trim (toLowerCase s))) = trim (toLowerCase s).
Proof.
  unfold trim at 2.
  rewrite toLowerCase_trim_end, toLowerCase_trim_start, toLowerCase_idem.
  apply trim_idem.
Qed.

(** ** The namespace *)

Lemma lookup_same k v l : lookup k ((k, v) :: l) = Some v.
Proof. simpl. rewrite String.eqb_refl. reflexivity. Qed.

Lemma lookup_other k k' v l : k' <> k -> lookup k ((k', v) :: l) = lookup k l.
Proof. intro H. simpl. apply String.eqb_neq in H. rewrite H. reflexivity. Qed.

Lemma present_truthy o : present o = None <-> truthy_opt o = false.
Proof.
  destruct o as [s|]; simpl; [|split; reflexivity].
  destruct (truthy s); split; congruence.
Qed.

Lemma present_Some o s : present o = Some s <-> o = Some s /\ truthy s = true.
Proof.
  destruct o as [x|]; simpl.
  - destruct (truthy x) eqn:T; split.
    + intro H. injection H as <-. split; [reflexivity | exact T].
    + intros [H _]. exact H.
    + discriminate.
    + intros [H T']. injection H as ->. congruence.
  - split; [discriminate | intros [H _]; discriminate].
Qed.

Lemma puts_ok_head kv : puts_ok kv ->
  forall key value,
    kv_put key value kv
    = (Ok tt, mkKV ((key, value) :: entries kv) (tl (put_faults kv))).
Proof.
  intros H key value. unfold kv_put.
  destruct (put_faults kv) as [|[|] f] eqn:E; try reflexivity.
  specialize (H true). rewrite E in H. discriminate H. left. reflexivity.
Qed.

Lemma puts_ok_tl kv e : puts_ok kv -> puts_ok (mkKV e (tl (put_faults kv))).
Proof.
  intros H b Hb. apply H. simpl in Hb.
  destruct (put_faults kv); [destruct Hb | right; exact Hb].
Qed.

Lemma account_key_email id address :
  id <> ("email:" ++ address)%string ->
  ("account:" ++ id)%string <> ("account:email:" ++ address)%string.
Proof. intros H E. apply H. simpl in E. injection E as E. exact E. Qed.

Lemma createAccount_taken rt pc d request kv :
  truthy_opt (lookup (email_key (CreateAccountRequest.email request))
                     (entries kv)) = true ->
  createAccount rt pc d request kv
  = (Raise (Error "Account already exists"), kv).
Proof.
  intro H. unfold createAccount, kbind, kv_get.
  fold (email_key (CreateAccountRequest.email request)). rewrite H.
  reflexivity.
Qed.

Lemma createAccount_run rt pc d request kv :
  truthy_opt (lookup (email_key (CreateAccountRequest.email request))
                     (entries kv)) = false ->
  let a := new_account rt pc d request in
  let id_key := ("account:" ++ randomUUID d)%string in
  createAccount rt pc d request kv
  = match put_faults kv with
    | true :: f => (Raise PlatformException, mkKV (entries kv) f)
    | false :: true :: f =>
        (Raise PlatformException,
         mkKV ((id_key, stringify_account rt a) :: entries kv) f)
    | f =>
        (Ok a,
         mkKV ((email_key (CreateAccountRequest.email request), randomUUID d)
                 :: (id_key, stringify_account rt a) :: entries kv)
              (tl (tl f)))
    end.
Proof.
  intros H a id_key. unfold createAccount, kbind, kv_get.
  fold (email_key (CreateAccountRequest.email request)). rewrite H.
  fold (new_account rt pc d request). fold a. unfold kv_put, kret.
  destruct (put_faults kv) as [|[|] [|[|] f]]; reflexivity.
Qed.

Lemma login_run rt pc sg d secret request kv :
  login rt pc sg d secret request kv
  = match indexed (LoginRequest.email request) kv with
    | None => (Raise (Error "Invalid credentials"), kv)
    | Some id =>
        match record_of id kv with
        | None => (Raise (Error "Invalid credentials"), kv)
        | Some json =>
            match parse_account rt json with
            | None => (Raise PlatformException, kv)
            | Some a =>
                match verifyPassword pc (LoginRequest.password request)
                                     (Account.passwordHash a) with
                | None => (Raise PlatformException, kv)
                | Some false => (Raise (Error "Invalid credentials"), kv)
                | Some true =>
                    let a' := Account.with_lastLoginAt
                                (toISOString rt (Date_now d)) a in
                    match put_faults kv with
                    | true :: f =>
                        (Raise PlatformException, mkKV (entries kv) f)
                    | f =>
                        let kv' :=
                          mkKV ((("account:" ++ id)%string,
                                 stringify_account rt a') :: entries kv)
                               (tl f) in
                        match generateToken sg id secret (Date_now d) with
                        | None => (Raise PlatformException, kv')
                        | Some token =>
                            (Ok (LoginResponse.mk token id
                                   (toISOString rt (Date_now d + 604800000))),
                             kv')
                        end
                    end
                end
            end
        end
    end.
Proof.
  unfold login, kbind, kv_get, indexed, record_of.
  fold (email_key (LoginRequest.email request)).
  destruct (present (lookup _ (entries kv))) as [id|]; [|reflexivity].
  destruct (present (lookup _ (entries kv))) as [json|]; [|reflexivity].
  destruct (parse_account rt json) as [a|]; [|reflexivity].
  destruct (verifyPassword pc _ _) as [[|]|]; try reflexivity.
  unfold kv_put, kraise, kret.
  destruct (put_faults kv) as [|[|] f]; cbv beta iota;
    destruct (generateToken sg id secret (Date_now d)); reflexivity.
Qed.

Lemma getAccount_run rt accountId kv :
  getAccount rt accountId kv
  = (match record_of accountId kv with
     | None => Ok None
     | Some json =>
         match parse_account rt json with
         | Some a => Ok (Some a)
         | None => Raise PlatformException
         end
     end, kv).
Proof.
  unfold getAccount, kbind, kv_get, record_of.
  destruct (present _) as [json|]; [|reflexivity].
  destruct (parse_account rt json); reflexivity.
Qed.

(** ** Creation and login *)

Lemma createAccount_ok rt pc d request kv :
  indexed (CreateAccountRequest.email request) kv = None ->
  puts_ok kv ->
  createAccount rt pc d request kv
  = (Ok (new_account rt pc d request),
     mkKV ((email_key (CreateAccountRequest.email request), randomUUID d)
             :: (("account:" ++ randomUUID d)%string,
                 stringify_account rt (new_account rt pc d request))
             :: entries kv)
          (tl (tl (put_faults kv)))).
Proof.
  intros Hi Hp. apply present_truthy in Hi.
  rewrite (createAccount_run rt pc d request kv Hi).
  destruct (put_faults kv) as [|[|] [|[|] f]] eqn:E; try reflexivity;
    exfalso; assert (H : true = false) by (apply Hp; rewrite E; simpl; auto);
    discriminate H.
Qed.

Lemma verifyPassword_decoded pc password storedHash combined :
  atob_bytes pc storedHash = Some combined ->
  verifyPassword pc password storedHash = Some true
  \/ verifyPassword pc password storedHash = Some false.
Proof.
  intro H. unfold verifyPassword. rewrite H.
  destruct (negb _); [right; reflexivity|].
  destruct (_ =? 0); [left | right]; reflexivity.
Qed.

Lemma firstn_skipn_salt (salt hash : list Z) :
  List.length salt = 16%nat ->
  firstn 16 (salt ++ hash) = salt /\ skipn 16 (salt ++ hash) = hash.
Proof.
  intro Hl. rewrite <- Hl. split.
  - rewrite firstn_app, Nat.sub_diag, firstn_all. simpl. apply app_nil_r.
  - rewrite skipn_app, Nat.sub_diag, skipn_all. reflexivity.
Qed.

(** X16.  An account that was created can log in.  On a namespace where
    the address is not indexed and no write fails, with a non-empty
    identifier that is not "email:" followed by the address, [createAccount]
    returns the new record, [getAccount] then reads it back, and a [login]
    that names the same address up to case and surrounding white space
    succeeds with a token for the account's identifier when its password
    derives the stored key, and is refused with "Invalid credentials",
    writing nothing, when it does not. *)
Theorem created_account_can_log_in
    (rt : Runtime) (pc : PasswordCrypto) (sg : TokenSigner) (d d' : Draw)
    (c : CreateAccountRequest.t) (l : LoginRequest.t) (secret : string)
    (kv : KVNamespace) :
  let a := new_account rt pc d c in
  let salt := getRandomValues d in
  let key := pbkdf2 pc (CreateAccountRequest.password c) salt in
  let kv1 := snd (createAccount rt pc d c kv) in
  indexed (CreateAccountRequest.email c) kv = None ->
  puts_ok kv ->
  truthy (randomUUID d) = true ->
  randomUUID d
  <> ("email:" ++ trim (toLowerCase (CreateAccountRequest.email c)))%string ->
  List.length salt = 16%nat ->
  atob_bytes pc (Account.passwordHash a) = Some (salt ++ key) ->
  codec_ok rt a ->
  trim (toLowerCase (LoginRequest.email l))
  = trim (toLowerCase (CreateAccountRequest.email c)) ->
  fst (createAccount rt pc d c kv) = Ok a
  /\ getAccount rt (randomUUID d) kv1 = (Ok (Some a), kv1)
  /\ (pbkdf2 pc (LoginRequest.password l) salt = key ->
      forall token,
        generateToken sg (randomUUID d) secret (Date_now d') = Some token ->
        fst (login rt pc sg d' secret l kv1)
        = Ok (LoginResponse.mk token (randomUUID d)
                (toISOString rt (Date_now d' + 604800000))))
  /\ (pbkdf2 pc (LoginRequest.password l) salt <> key ->
      login rt pc sg d' secret l kv1
      = (Raise (Error "Invalid credentials"), kv1)).
Proof.
  intros a salt key kv1 Hi Hp Hu Hne Hl Hb [Hc Ht] He.
  assert (C := createAccount_ok rt pc d c kv Hi Hp). fold a in C.
  unfold kv1. rewrite C. cbn [fst snd].
  set (k1 := mkKV _ _).
  assert (I : indexed (LoginRequest.email l) k1 = Some (randomUUID d)).
  { unfold indexed, email_key. rewrite He.
    unfold k1. cbn [entries]. unfold email_key. rewrite lookup_same.
    apply present_Some. split; [reflexivity | exact Hu]. }
  assert (R : record_of (randomUUID d) k1 = Some (stringify_account rt a)).
  { unfold record_of, k1. cbn [entries].
    rewrite lookup_other, lookup_same.
    - apply present_Some. split; [reflexivity | exact Ht].
    - intro E. symmetry in E. revert E. apply account_key_email. exact Hne. }
  destruct (firstn_skipn_salt salt key Hl) as [F S].
  split; [reflexivity|]. split; [|split].
  - rewrite getAccount_run, R, Hc. reflexivity.
  - intros Hk token G. rewrite login_run, I, R, Hc.
    assert (V : verifyPassword pc (LoginRequest.password l)
                               (Account.passwordHash a) = Some true).
    { apply verifyPassword_true_iff. exists (salt ++ key).
      split; [exact Hb|]. rewrite F, S. exact Hk. }
    rewrite V, G. cbv zeta.
    assert (P : forall b, In b (put_faults k1) -> b = false).
    { exact (puts_ok_tl (mkKV (entries kv) (tl (put_faults kv))) (entries k1)
               (puts_ok_tl kv (entries kv) Hp)). }
    destruct (put_faults k1) as [|[|] f]; try reflexivity.
    discriminate (P true (or_introl eq_refl)).
  - intros Hk. rewrite login_run, I, R, Hc.
    destruct (verifyPassword_decoded pc (LoginRequest.password l) _ _ Hb)
      as [V|V]; rewrite V; [|reflexivity].
    exfalso. apply Hk. apply verifyPassword_true_iff in V.
    destruct V as (cmb & E & V). rewrite Hb in E. injection E as <-.
    rewrite F, S in V. exact V.
Qed.

(** X16 with the toy runtime: Alice signs up as " Alice@Example.ORG " and
    logs in as "alice@example.org". *)
Lemma created_account_can_log_in_witness :
  fst (createAccount demo_runtime demo_password demo_draw demo_signup empty_kv)
  = Ok (new_account demo_runtime demo_password demo_draw demo_signup)
  /\ fst (login demo_runtime demo_password demo_signer demo_later "k"
                demo_login demo_accounts)
     = Ok (LoginResponse.mk "u-1.k" "u-1" "604805000")
  /\ fst (login demo_runtime demo_password demo_signer demo_later "k"
                (LoginRequest.mk "alice@example.org" "secret!") demo_accounts)
     = Raise (Error "Invalid credentials").
Proof.
  assert (P : puts_ok empty_kv) by (intros b []).
  assert (N : randomUUID demo_draw
              <> ("email:" ++ trim (toLowerCase
                    (CreateAccountRequest.email demo_signup)))%string)
    by (vm_compute; discriminate).
  assert (C : codec_ok demo_runtime
                (new_account demo_runtime demo_password demo_draw demo_signup))
    by (split; vm_compute; reflexivity).
  destruct (created_account_can_log_in demo_runtime demo_password demo_signer
              demo_draw demo_later demo_signup demo_login "k" empty_kv
              eq_refl P eq_refl N eq_refl eq_refl C eq_refl)
    as (H1 & _ & H2 & _).
  destruct (created_account_can_log_in demo_runtime demo_password demo_signer
              demo_draw demo_later demo_signup
              (LoginRequest.mk "alice@example.org" "secret!") "k" empty_kv
              eq_refl P eq_refl N eq_refl eq_refl C eq_refl)
    as (_ & _ & _ & H3).
  split; [exact H1|]. split.
  - exact (H2 eq_refl "u-1.k" eq_refl).
  - unfold demo_accounts. rewrite H3; [reflexivity|].
    vm_compute. discriminate.
Defined.

(** X17.  A login is refused with "Invalid credentials" in exactly three
    cases, which the caller cannot tell apart: the address is not
    indexed, the account it is indexed to has no record, or the password
    does not verify against the stored hash.  A refused login writes
    nothing, "Invalid credentials" is the only message [login] throws
    with, and whatever its outcome the only key whose value [login] can
    change is the record of the account the address is indexed to. *)
Theorem refused_login_is_uniform
    (rt : Runtime) (pc : PasswordCrypto) (sg : TokenSigner) (d : Draw)
    (secret : string) (l : LoginRequest.t) (kv : KVNamespace) :
  let r := login rt pc sg d secret l kv in
  (fst r = Raise (Error "Invalid credentials")
   <-> indexed (LoginRequest.email l) kv = None
       \/ (exists id,
             indexed (LoginRequest.email l) kv = Some id
             /\ record_of id kv = None)
       \/ (exists id json a,
             indexed (LoginRequest.email l) kv = Some id
             /\ record_of id kv = Some json
             /\ parse_account rt json = Some a
             /\ verifyPassword pc (LoginRequest.password l)
                               (Account.passwordHash a) = Some false))
  /\ (forall m, fst r = Raise (Error m) ->
        m = "Invalid credentials" /\ snd r = kv)
  /\ (forall k,
        lookup k (entries (snd r)) <> lookup k (entries kv) ->
        exists id,
          indexed (LoginRequest.email l) kv = Some id
          /\ k = ("account:" ++ id)%string).
Proof.
  intro r. unfold r. rewrite login_run.
  destruct (indexed (LoginRequest.email l) kv) as [id|].
  2:{ split; [|split].
      - split; [intros _; left; reflexivity | reflexivity].
      - intros m H. injection H as <-. split; reflexivity.
      - intros k H. exfalso. apply H. reflexivity. }
  destruct (record_of id kv) as [json|] eqn:R.
  2:{ split; [|split].
      - split; [|reflexivity]. intros _. right. left. exists id.
        split; [reflexivity | exact R].
      - intros m H. injection H as <-. split; reflexivity.
      - intros k H. exfalso. apply H. reflexivity. }
  destruct (parse_account rt json) as [a|] eqn:P.
  2:{ split; [|split].
      - split; [discriminate|].
        intros [H|[(i & H & H')|(i & j & b & H & H1 & H2 & _)]];
          try discriminate.
        + injection H as <-. rewrite R in H'. discriminate.
        + injection H as <-. rewrite R in H1. injection H1 as <-.
          rewrite P in H2. discriminate.
      - intros m H. discriminate.
      - intros k H. exfalso. apply H. reflexivity. }
  destruct (verifyPassword pc (LoginRequest.password l)
                           (Account.passwordHash a)) as [[|]|] eqn:V.
  - cbv zeta.
    assert (N : forall x : result LoginResponse.t * KVNamespace,
              (exists b, fst x = Ok b) \/ fst x = Raise PlatformException ->
              ~ (exists m, fst x = Raise (Error m))).
    { intros x [[b H]|H] [m H']; rewrite H in H'; discriminate. }
    assert (Q : forall k y,
              lookup k ((("account:" ++ id)%string, y) :: entries kv)
              <> lookup k (entries kv) ->
              k = ("account:" ++ id)%string).
    { intros k y H. destruct (String.eqb_spec ("account:" ++ id)%string k)
        as [E|E]; [symmetry; exact E|].
      exfalso. apply H. apply lookup_other. exact E. }
    split; [|split].
    + split.
      * intro H. exfalso.
        destruct (put_faults kv) as [|[|] f];
          destruct (generateToken sg id secret (Date_now d));
          discriminate H.
      * intros [H|[(i & H & H')|(i & j & b & H & H1 & H2 & H3)]];
          try discriminate.
        -- injection H as <-. rewrite R in H'. discriminate.
        -- injection H as <-. rewrite R in H1. injection H1 as <-.
           rewrite P in H2. injection H2 as <-. rewrite V in H3.
           discriminate.
    + intros m H. exfalso.
      destruct (put_faults kv) as [|[|] f];
        destruct (generateToken sg id secret (Date_now d));
        discriminate H.
    + intros k H. exists id. split; [reflexivity|].
      destruct (put_faults kv) as [|[|] f];
        destruct (generateToken sg id secret (Date_now d));
        cbn [snd entries] in H;
        first [ exact (Q k _ H) | exfalso; apply H; reflexivity ].
  - split; [|split].
    + split; [|reflexivity]. intros _. right. right. exists id, json, a.
      repeat split; assumption || reflexivity.
    + intros m H. injection H as <-. split; reflexivity.
    + intros k H. exfalso. apply H. reflexivity.
  - split; [|split].
    + split; [discriminate|].
      intros [H|[(i & H & H')|(i & j & b & H & H1 & H2 & H3)]];
        try discriminate.
      * injection H as <-. rewrite R in H'. discriminate.
      * injection H as <-. rewrite R in H1. injection H1 as <-.
        rewrite P in H2. injection H2 as <-. rewrite V in H3. discriminate.
    + intros m H. discriminate.
    + intros k H. exfalso. apply H. reflexivity.
Qed.

(** X17 with the toy runtime: nobody has signed up, so a login is
    refused. *)
Lemma refused_login_is_uniform_witness :
  login demo_runtime demo_password demo_signer demo_later "k" demo_login
        empty_kv
  = (Raise (Error "Invalid credentials"), empty_kv).
Proof.
  destruct (refused_login_is_uniform demo_runtime demo_password demo_signer
              demo_later "k" demo_login empty_kv) as (H & S & _).
  cbv zeta in H, S.
  assert (E : fst (login demo_runtime demo_password demo_signer demo_later
                         "k" demo_login empty_kv)
              = Raise (Error "Invalid credentials"))
    by (apply H; left; reflexivity).
  destruct (S _ E) as [_ S']. revert E S'.
  destruct (login _ _ _ _ _ _ _) as [r k]. cbn [fst snd].
  intros -> ->. reflexivity.
Defined.

Lemma createAccount_Ok_inv rt pc d request kv a :
  fst (createAccount rt pc d request kv) = Ok a ->
  a = new_account rt pc d request
  /\ entries (snd (createAccount rt pc d request kv))
     = (email_key (CreateAccountRequest.email request), randomUUID d)
         :: (("account:" ++ randomUUID d)%string, stringify_account rt a)
         :: entries kv.
Proof.
  destruct (truthy_opt (lookup (email_key (CreateAccountRequest.email request))
                               (entries kv))) eqn:T.
  - rewrite (createAccount_taken rt pc d request kv T). discriminate.
  - rewrite (createAccount_run rt pc d request kv T).
    destruct (put_faults kv) as [|[|] [|[|] f]]; cbn [fst snd entries];
      intro H; try discriminate H; injection H as <-; split; reflexivity.
Qed.

Lemma createAccount_taken_iff rt pc d request kv :
  createAccount rt pc d request kv
  = (Raise (Error "Account already exists"), kv)
  <-> indexed (CreateAccountRequest.email request) kv <> None.
Proof.
  unfold indexed.
  destruct (truthy_opt (lookup (email_key (CreateAccountRequest.email request))
                               (entries kv))) eqn:T.
  - rewrite (createAccount_taken rt pc d request kv T).
    split; [|reflexivity]. intros _ H. apply present_truthy in H. congruence.
  - rewrite (createAccount_run rt pc d request kv T). split.
    + destruct (put_faults kv) as [|[|] [|[|] f]]; discriminate.
    + intro H. exfalso. apply H. apply present_truthy. exact T.
Qed.

(** X18.  An address can be registered once.  [createAccount] throws
    "Account already exists", writing nothing, exactly when the address,
    lower-cased and trimmed, is indexed to a non-empty identifier.  So
    after a creation that returned an account with a non-empty identifier,
    every creation that names the same address up to case and surrounding
    white space is refused, whatever its password.  The address of the
    returned account is in normal form: lower-casing and trimming it again
    changes nothing. *)
Theorem address_is_registered_once
    (rt : Runtime) (pc : PasswordCrypto) (d0 d : Draw)
    (first again : CreateAccountRequest.t) (kv : KVNamespace) (a : Account.t) :
  let kv1 := snd (createAccount rt pc d0 first kv) in
  fst (createAccount rt pc d0 first kv) = Ok a ->
  truthy (Account.id a) = true ->
  trim (toLowerCase (CreateAccountRequest.email again))
  = trim (toLowerCase (CreateAccountRequest.email first)) ->
  createAccount rt pc d again kv1
  = (Raise (Error "Account already exists"), kv1)
  /\ Account.email a = trim (toLowerCase (CreateAccountRequest.email first))
  /\ trim (toLowerCase (Account.email a)) = Account.email a
  /\ (forall kv',
        createAccount rt pc d again kv'
        = (Raise (Error "Account already exists"), kv')
        <-> indexed (CreateAccountRequest.email again) kv' <> None).
Proof.
  intros kv1 Hc Hu He.
  destruct (createAccount_Ok_inv rt pc d0 first kv a Hc) as [-> Hs].
  fold kv1 in Hs. refine (conj _ (conj eq_refl (conj _ _))).
  - apply createAccount_taken. unfold email_key. rewrite He, Hs.
    fold (email_key (CreateAccountRequest.email first)).
    rewrite lookup_same. exact Hu.
  - apply normalize_idem.
  - intro kv'. apply createAccount_taken_iff.
Qed.

(** X18 with the toy runtime: after Alice has signed up, a second sign-up
    as "ALICE@example.org" is refused. *)
Lemma address_is_registered_once_witness :
  fst (createAccount demo_runtime demo_password demo_later
         (CreateAccountRequest.mk "ALICE@example.org" "other") demo_accounts)
  = Raise (Error "Account already exists").
Proof.
  destruct (address_is_registered_once demo_runtime demo_password
              demo_draw demo_later demo_signup
              (CreateAccountRequest.mk "ALICE@example.org" "other") empty_kv
              (new_account demo_runtime demo_password demo_draw demo_signup)
              eq_refl eq_refl eq_refl) as (H & _).
  unfold demo_accounts. rewrite H. reflexivity.
Defined.

(** X19.  [createAccount] is not atomic.  When its first write fails
    nothing is stored.  When the record was written and the write of the
    index fails, the record stays in the namespace without an index entry:
    [getAccount] reads it, but a login with the address is refused with
    "Invalid credentials", and a later creation with the address is not
    refused as a duplicate. *)
Theorem interrupted_creation_leaves_a_record
    (rt : Runtime) (pc : PasswordCrypto) (sg : TokenSigner) (d : Draw)
    (c : CreateAccountRequest.t) (kv : KVNamespace) (f : list bool) :
  let a := new_account rt pc d c in
  let kv1 := snd (createAccount rt pc d c kv) in
  indexed (CreateAccountRequest.email c) kv = None ->
  randomUUID d
  <> ("email:" ++ trim (toLowerCase (CreateAccountRequest.email c)))%string ->
  (put_faults kv = true :: f ->
     createAccount rt pc d c kv = (Raise PlatformException, mkKV (entries kv) f))
  /\ (put_faults kv = false :: true :: f ->
      createAccount rt pc d c kv
      = (Raise PlatformException,
         mkKV ((("account:" ++ randomUUID d)%string, stringify_account rt a)
                 :: entries kv) f)
      /\ (codec_ok rt a ->
          getAccount rt (randomUUID d) kv1 = (Ok (Some a), kv1))
      /\ (forall d' secret l,
            trim (toLowerCase (LoginRequest.email l))
            = trim (toLowerCase (CreateAccountRequest.email c)) ->
            login rt pc sg d' secret l kv1
            = (Raise (Error "Invalid credentials"), kv1))
      /\ (forall d' c',
            trim (toLowerCase (CreateAccountRequest.email c'))
            = trim (toLowerCase (CreateAccountRequest.email c)) ->
            fst (createAccount rt pc d' c' kv1)
            <> Raise (Error "Account already exists"))).
Proof.
  intros a kv1 Hi Hne. pose proof Hi as Ht. apply present_truthy in Ht.
  pose proof (createAccount_run rt pc d c kv Ht) as C. cbv zeta in C.
  fold a in C. split.
  - intro Hf. rewrite C, Hf. reflexivity.
  - intro Hf. unfold kv1. rewrite C, Hf. cbn [snd].
    set (k1 := mkKV _ _).
    assert (I : forall address,
              trim (toLowerCase address)
              = trim (toLowerCase (CreateAccountRequest.email c)) ->
              indexed address k1 = None).
    { intros address He. unfold indexed, email_key, k1. cbn [entries].
      rewrite He. rewrite lookup_other; [exact Hi|].
      apply account_key_email. exact Hne. }
    refine (conj eq_refl (conj _ (conj _ _))).
    + intros [Hc Hn]. rewrite getAccount_run. unfold record_of, k1.
      cbn [entries]. rewrite lookup_same.
      replace (present (Some (stringify_account rt a)))
        with (Some (stringify_account rt a))
        by (symmetry; apply present_Some; split; [reflexivity | exact Hn]).
      rewrite Hc. reflexivity.
    + intros d' secret l He. rewrite login_run, (I _ He). reflexivity.
    + intros d' c' He H.
      assert (T : truthy_opt
                    (lookup (email_key (CreateAccountRequest.email c'))
                            (entries k1)) = false)
        by (apply present_truthy; exact (I _ He)).
      rewrite (createAccount_run rt pc d' c' k1 T) in H.
      destruct (put_faults k1) as [|[|] [|[|] g]]; discriminate H.
Qed.

(** X19 with the toy runtime: the write of the index fails while Alice
    signs up; her login is then refused. *)
Lemma interrupted_creation_leaves_a_record_witness :
  let kv := mkKV [] [false; true] in
  let kv1 := snd (createAccount demo_runtime demo_password demo_draw
                    demo_signup kv) in
  fst (createAccount demo_runtime demo_password demo_draw demo_signup kv)
  = Raise PlatformException
  /\ fst (getAccount demo_runtime "u-1" kv1)
     = Ok (Some (new_account demo_runtime demo_password demo_draw demo_signup))
  /\ fst (login demo_runtime demo_password demo_signer demo_later "k"
                demo_login kv1)
     = Raise (Error "Invalid credentials").
Proof.
  intros kv kv1.
  assert (N : randomUUID demo_draw
              <> ("email:" ++ trim (toLowerCase
                    (CreateAccountRequest.email demo_signup)))%string)
    by (vm_compute; discriminate).
  assert (C : codec_ok demo_runtime
                (new_account demo_runtime demo_password demo_draw demo_signup))
    by (split; vm_compute; reflexivity).
  destruct (interrupted_creation_leaves_a_record demo_runtime demo_password
              demo_signer demo_draw demo_signup kv [] eq_refl N)
    as (_ & H).
  destruct (H eq_refl) as (H1 & H2 & H3 & _).
  split; [rewrite H1; reflexivity|]. split.
  - exact (f_equal fst (H2 C)).
  - exact (f_equal fst (H3 demo_later "k" demo_login eq_refl)).
Defined.

Lemma login_Ok_inv rt pc sg d secret l kv r :
  fst (login rt pc sg d secret l kv) = Ok r ->
  exists json a,
    indexed (LoginRequest.email l) kv = Some (LoginResponse.accountId r)
    /\ record_of (LoginResponse.accountId r) kv = Some json
    /\ parse_account rt json = Some a
    /\ verifyPassword pc (LoginRequest.password l) (Account.passwordHash a)
       = Some true
    /\ generateToken sg (LoginResponse.accountId r) secret (Date_now d)
       = Some (LoginResponse.token r)
    /\ LoginResponse.expiresAt r = toISOString rt (Date_now d + 604800000)
    /\ snd (login rt pc sg d secret l kv)
       = mkKV ((("account:" ++ LoginResponse.accountId r)%string,
                stringify_account rt
                  (Account.with_lastLoginAt (toISOString rt (Date_now d)) a))
                 :: entries kv)
              (tl (put_faults kv)).
Proof.
  rewrite login_run.
  destruct (indexed (LoginRequest.email l) kv) as [id|] eqn:I;
    [|discriminate].
  destruct (record_of id kv) as [json|] eqn:R; [|discriminate].
  destruct (parse_account rt json) as [a|] eqn:P; [|discriminate].
  destruct (verifyPassword pc _ _) as [[|]|] eqn:V; try discriminate.
  cbv zeta.
  destruct (put_faults kv) as [|[|] g];
    destruct (generateToken sg id secret (Date_now d)) as [token|] eqn:G;
    cbn [fst snd tl]; intro H; try discriminate H; injection H as <-;
    exists json, a; cbn [LoginResponse.accountId LoginResponse.token
                          LoginResponse.expiresAt];
    repeat split; assumption || reflexivity.
Qed.

(** X20.  A login that succeeds has verified the password: the address is
    indexed to the identifier the response names, that account's record
    parses, the password verifies against the hash stored in it, and the
    token is the one [generateToken] makes for that identifier.  The one
    write of the login puts the record back with [lastLoginAt] replaced;
    identifier, address, password hash, workspaces and creation time are
    as stored, every other key of the namespace is untouched, and
    [getAccount] then reads the updated record. *)
Theorem login_verifies_and_stamps
    (rt : Runtime) (pc : PasswordCrypto) (sg : TokenSigner) (d : Draw)
    (secret : string) (l : LoginRequest.t) (kv : KVNamespace)
    (r : LoginResponse.t) :
  let kv1 := snd (login rt pc sg d secret l kv) in
  fst (login rt pc sg d secret l kv) = Ok r ->
  exists json a,
    let a' := Account.with_lastLoginAt (toISOString rt (Date_now d)) a in
    indexed (LoginRequest.email l) kv = Some (LoginResponse.accountId r)
    /\ record_of (LoginResponse.accountId r) kv = Some json
    /\ parse_account rt json = Some a
    /\ verifyPassword pc (LoginRequest.password l) (Account.passwordHash a)
       = Some true
    /\ generateToken sg (LoginResponse.accountId r) secret (Date_now d)
       = Some (LoginResponse.token r)
    /\ LoginResponse.expiresAt r = toISOString rt (Date_now d + 604800000)
    /\ entries kv1
       = (("account:" ++ LoginResponse.accountId r)%string,
          stringify_account rt a') :: entries kv
    /\ (forall k, k <> ("account:" ++ LoginResponse.accountId r)%string ->
          lookup k (entries kv1) = lookup k (entries kv))
    /\ (codec_ok rt a' ->
        getAccount rt (LoginResponse.accountId r) kv1 = (Ok (Some a'), kv1)).
Proof.
  intros kv1 H.
  destruct (login_Ok_inv rt pc sg d secret l kv r H)
    as (json & a & I & R & P & V & G & X & S).
  exists json, a. cbv zeta. fold kv1 in S.
  refine (conj I (conj R (conj P (conj V (conj G (conj X _)))))).
  rewrite S. cbn [entries]. refine (conj eq_refl (conj _ _)).
  - intros k Hk. apply lookup_other. intro E. apply Hk. symmetry. exact E.
  - intros [Hc Hn]. rewrite getAccount_run. unfold record_of. cbn [entries].
    rewrite lookup_same.
    match goal with
    | |- context [present (Some ?j)] =>
        replace (present (Some j)) with (Some j)
          by (symmetry; apply present_Some; split; [reflexivity | exact Hn])
    end.
    rewrite Hc. reflexivity.
Qed.

(** X20 with the toy runtime: Alice's login leaves her record with the
    new [lastLoginAt] and everything else as it was. *)
Lemma login_verifies_and_stamps_witness :
  fst (getAccount demo_runtime "u-1"
         (snd (login demo_runtime demo_password demo_signer demo_later "k"
                     demo_login demo_accounts)))
  = Ok (Some (Account.with_lastLoginAt "5000"
                (new_account demo_runtime demo_password demo_draw
                             demo_signup))).
Proof.
  assert (L : fst (login demo_runtime demo_password demo_signer demo_later
                         "k" demo_login demo_accounts)
              = Ok (LoginResponse.mk "u-1.k" "u-1" "604805000"))
    by (vm_compute; reflexivity).
  destruct (login_verifies_and_stamps demo_runtime demo_password demo_signer
              demo_later "k" demo_login demo_accounts _ L)
    as (json & a & _ & R & P & _ & _ & _ & _ & _ & G).
  assert (J : json = stringify_account demo_runtime
                (new_account demo_runtime demo_password demo_draw demo_signup)).
  { assert (R' : record_of "u-1" demo_accounts
                 = Some (stringify_account demo_runtime
                           (new_account demo_runtime demo_password demo_draw
                                        demo_signup)))
      by (vm_compute; reflexivity).
    cbn [LoginResponse.accountId] in R. rewrite R' in R.
    injection R as <-. reflexivity. }
  subst json.
  assert (A : a = new_account demo_runtime demo_password demo_draw demo_signup).
  { assert (P' : parse_account demo_runtime
                   (stringify_account demo_runtime
                      (new_account demo_runtime demo_password demo_draw
                                   demo_signup))
                 = Some (new_account demo_runtime demo_password demo_draw
                                     demo_signup))
      by (vm_compute; reflexivity).
    rewrite P' in P. injection P as <-. reflexivity. }
  subst a.
  assert (C : codec_ok demo_runtime
                (Account.with_lastLoginAt
                   (toISOString demo_runtime (Date_now demo_later))
                   (new_account demo_runtime demo_password demo_draw
                                demo_signup)))
    by (split; vm_compute; reflexivity).
  exact (f_equal fst (G C)).
Defined.

(* ===================================================================== *)
(** * The Worker *)
(* ===================================================================== *)

(** ** Paths *)

Lemma prefix_app p x : prefix p (p ++ x) = true.
Proof.
  induction p as [|c r IH]; simpl; [destruct x; reflexivity|].
  destruct (ascii_dec c c) as [_|N]; [exact IH | contradiction].
Qed.

Lemma substring_all s : substring 0 (String.length s) s = s.
Proof. induction s as [|c r IH]; simpl; [reflexivity | rewrite IH; reflexivity]. Qed.

Lemma slice_app p x : slice (String.length p) (p ++ x) = x.
Proof.
  unfold slice. induction p as [|c r IH]; simpl.
  - rewrite Nat.sub_0_r. apply substring_all.
  - exact IH.
Qed.

Lemma prefix_slash rest :
  prefix "/" rest = true -> exists r, rest = String "/" r.
Proof.
  destruct rest as [|c r]; cbn [prefix]; [discriminate|].
  destruct (ascii_dec "/" c) as [<-|N]; [eexists; reflexivity | discriminate].
Qed.

Lemma segment_app name rest :
  has_char "/" name = false ->
  rest = EmptyString \/ prefix "/" rest = true ->
  segment (name ++ rest) = name.
Proof.
  intros Hn Hr. induction name as [|c r IH]; simpl.
  - destruct Hr as [->|Hr]; [reflexivity|].
    destruct (prefix_slash rest Hr) as [r ->]. reflexivity.
  - simpl in Hn. apply orb_false_iff in Hn. destruct Hn as [Hc Hn].
    rewrite Hc, (IH Hn). reflexivity.
Qed.

Lemma remove_first_eq p s :
  remove_first p s
  = if prefix p s then slice (String.length p) s
    else match s with
         | EmptyString => EmptyString
         | String c r => String c (remove_first p r)
         end.
Proof. destruct s; reflexivity. Qed.

Lemma remove_first_app p x : remove_first p (p ++ x) = x.
Proof. rewrite remove_first_eq, prefix_app. apply slice_app. Qed.

Lemma sync_match_path name rest :
  truthy name = true ->
  has_char "/" name = false ->
  rest = EmptyString \/ prefix "/" rest = true ->
  sync_match ("/sync/" ++ name ++ rest) = Some name.
Proof.
  intros Ht Hn Hr. unfold sync_match.
  rewrite (prefix_app "/sync/" (name ++ rest)).
  change 6%nat with (String.length "/sync/").
  rewrite slice_app, (segment_app name rest Hn Hr). simpl. rewrite Ht.
  reflexivity.
Qed.

(** ** Rooms and routes *)

Lemma room_get_set_same name w rooms :
  room_get name (room_set name w rooms) = Some w.
Proof.
  induction rooms as [|[n x] r IH]; simpl.
  - rewrite String.eqb_refl. reflexivity.
  - destruct (String.eqb n name) eqn:E; simpl; rewrite E; [reflexivity | exact IH].
Qed.

Lemma room_get_set_other name other w rooms :
  other <> name ->
  room_get other (room_set name w rooms) = room_get other rooms.
Proof.
  intro H. induction rooms as [|[n x] r IH]; simpl.
  - destruct (String.eqb_spec name other) as [E|_]; [congruence | reflexivity].
  - destruct (String.eqb_spec n name) as [->|E]; simpl.
    + destruct (String.eqb_spec name other) as [E'|_]; [congruence | reflexivity].
    + rewrite IH. reflexivity.
Qed.

Lemma route_sync rt pc sg cr env d request kv name rest :
  pathname (http request) = ("/sync/" ++ name ++ rest)%string ->
  truthy name = true ->
  has_char "/" name = false ->
  rest = EmptyString \/ prefix "/" rest = true ->
  Worker.route rt pc sg cr env d request kv
  = (Ok (Delegate name (forwarded_to rest (http request))), kv).
Proof.
  intros Hp Ht Hn Hr. unfold Worker.route. cbv zeta.
  rewrite Hp, (sync_match_path name rest Ht Hn Hr).
  change (String.eqb ("/sync/" ++ name ++ rest) "/health") with false.
  change (String.eqb ("/sync/" ++ name ++ rest) "/api/accounts") with false.
  change (String.eqb ("/sync/" ++ name ++ rest) "/api/login") with false.
  change (String.eqb ("/sync/" ++ name ++ rest) "/api/workspaces") with false.
  cbv beta iota delta [andb].
  change ("/sync/" ++ name ++ rest)%string
    with (("/sync/" ++ name) ++ rest)%string.
  rewrite remove_first_app. reflexivity.
Qed.

Lemma Worker_fetch_run rt pc sg cr env d request c :
  String.eqb (method (http request)) "OPTIONS" = false ->
  Worker.fetch rt pc sg cr env d request c
  = match Worker.route rt pc sg cr env d request (ACCOUNTS c) with
    | (Ok (Answer r), kv) => (Ok r, mkCloud kv (SYNC_ROOM c))
    | (Ok (Delegate workspaceId forwarded), kv) =>
        match fetch forwarded (Worker.stub cr env workspaceId c) with
        | (Return r, w) =>
            (Ok (FromRoom r),
             mkCloud kv (room_set workspaceId w (SYNC_ROOM c)))
        | (Throw, w) =>
            (Raise PlatformException,
             mkCloud kv (room_set workspaceId w (SYNC_ROOM c)))
        end
    | (Raise e, kv) =>
        (Ok (jsonResponse (ServerErrorData e) 500), mkCloud kv (SYNC_ROOM c))
    end.
Proof. intro H. unfold Worker.fetch. rewrite H. reflexivity. Qed.

(** X21.  The Worker forwards every request under /sync/<name> to the
    room of that name and checks no credential on the way: whatever the
    Authorization header, the answer is the one of the room's [fetch] on
    the same request with the path that follows the name ("/" when
    nothing follows), and an exception of the room is the exception of
    the Worker.  The account namespace is not touched, and of the rooms
    only the one named changes.  In particular a GET of
    /sync/<name>/changes is answered with the log of the room to anyone. *)
Theorem sync_routes_are_forwarded_unchecked
    (rt : Runtime) (pc : PasswordCrypto) (sg : TokenSigner) (cr : WebCrypto)
    (env : Bindings) (d : Draw) (request : Incoming) (c : Cloud)
    (name rest : string) :
  let w := Worker.stub cr env name c in
  let out := fetch (forwarded_to rest (http request)) w in
  let answer := Worker.fetch rt pc sg cr env d request c in
  method (http request) <> "OPTIONS" ->
  pathname (http request) = ("/sync/" ++ name ++ rest)%string ->
  truthy name = true ->
  has_char "/" name = false ->
  rest = EmptyString \/ prefix "/" rest = true ->
  fst answer
  = match fst out with
    | Return r => Ok (FromRoom r)
    | Throw => Raise PlatformException
    end
  /\ ACCOUNTS (snd answer) = ACCOUNTS c
  /\ room_get name (SYNC_ROOM (snd answer)) = Some (snd out)
  /\ (forall other, other <> name ->
        room_get other (SYNC_ROOM (snd answer)) = room_get other (SYNC_ROOM c))
  /\ (method (http request) = "GET" ->
      rest = "/changes" ->
      is_upgrade (http request) = false ->
      fst answer
      = Ok (FromRoom
              (Json 200
                 (BodyChanges
                    (changes_since
                       (parseInt (or_default (since (http request)) "0")) w)
                    (currentVersion w))))).
Proof.
  intros w out answer Hm Hp Ht Hn Hr.
  assert (E : answer
              = (match fst out with
                 | Return r => Ok (FromRoom r)
                 | Throw => Raise PlatformException
                 end,
                 mkCloud (ACCOUNTS c) (room_set name (snd out) (SYNC_ROOM c)))).
  { unfold answer. rewrite Worker_fetch_run
      by (apply String.eqb_neq; exact Hm).
    rewrite (route_sync rt pc sg cr env d request (ACCOUNTS c) name rest
               Hp Ht Hn Hr).
    fold w. fold out. destruct out as [[r|] w']; reflexivity. }
  rewrite E. cbn [fst snd ACCOUNTS SYNC_ROOM].
  refine (conj eq_refl (conj eq_refl (conj _ (conj _ _)))).
  - apply room_get_set_same.
  - intros other Ho. apply room_get_set_other. exact Ho.
  - intros Hg -> Hu. unfold out.
    rewrite (fetch_get (forwarded_to "/changes" (http request)) w Hu eq_refl Hg).
    reflexivity.
Qed.

(** X21 at the demo deployment: with no Authorization header, a GET of
    /sync/ws-1/changes is answered with the three records of the room. *)
Lemma sync_routes_are_forwarded_unchecked_witness :
  let request :=
    mkIncoming (plain "GET" "/sync/ws-1/changes" None) None None None in
  let c := mkCloud empty_kv [("ws-1", demo_pushed)] in
  fst (Worker.fetch demo_runtime demo_password demo_signer demo_crypto
         demo_bindings demo_draw request c)
  = Ok (FromRoom (Json 200 (BodyChanges (changes demo_pushed) 3))).
Proof.
  intros request c.
  assert (Hm : method (http request) <> "OPTIONS") by discriminate.
  destruct (sync_routes_are_forwarded_unchecked demo_runtime demo_password
              demo_signer demo_crypto demo_bindings demo_draw request c
              "ws-1" "/changes" Hm eq_refl eq_refl eq_refl
              (or_intror eq_refl)) as (_ & _ & _ & _ & H).
  etransitivity; [exact (H eq_refl eq_refl eq_refl)|].
  vm_compute. reflexivity.
Defined.

Lemma login_Error_inv rt pc sg d secret l kv m :
  fst (login rt pc sg d secret l kv) = Raise (Error m) ->
  m = "Invalid credentials" /\ snd (login rt pc sg d secret l kv) = kv.
Proof.
  rewrite login_run.
  destruct (indexed (LoginRequest.email l) kv) as [id|];
    [|intro H; injection H as <-; split; reflexivity].
  destruct (record_of id kv) as [json|];
    [|intro H; injection H as <-; split; reflexivity].
  destruct (parse_account rt json) as [a|]; [|discriminate].
  destruct (verifyPassword pc _ _) as [[|]|];
    [|intro H; injection H as <-; split; reflexivity | discriminate].
  cbv zeta.
  destruct (put_faults kv) as [|[|] f];
    destruct (generateToken sg id secret (Date_now d)); discriminate.
Qed.

(** X22.  Of everything that can go wrong while the Worker serves a
    request, only an exception of a room escapes: every exception of the
    routes is answered with status 500 and the code SERVER_ERROR.  So a
    sign-up with a registered address is answered 500 with "Account
    already exists", and a refused login 500 with "Invalid credentials",
    both leaving the state as it was.  An OPTIONS request is answered
    before any route is looked at. *)
Theorem exceptions_are_answered_with_500
    (rt : Runtime) (pc : PasswordCrypto) (sg : TokenSigner) (cr : WebCrypto)
    (env : Bindings) (d : Draw) (request : Incoming) (c : Cloud) :
  let answer := Worker.fetch rt pc sg cr env d request c in
  let routed := Worker.route rt pc sg cr env d request (ACCOUNTS c) in
  (forall e, fst answer = Raise e ->
     exists name forwarded,
       fst routed = Ok (Delegate name forwarded)
       /\ fst (fetch forwarded (Worker.stub cr env name c)) = Throw)
  /\ (forall e, method (http request) <> "OPTIONS" ->
        fst routed = Raise e ->
        fst answer = Ok (jsonResponse (ServerErrorData e) 500))
  /\ (forall body,
        pathname (http request) = "/api/accounts" ->
        method (http request) = "POST" ->
        account_body request = Some body ->
        indexed (CreateAccountRequest.email body) (ACCOUNTS c) <> None ->
        answer
        = (Ok (jsonResponse
                 (ServerErrorData (Error "Account already exists")) 500), c))
  /\ (forall body,
        pathname (http request) = "/api/login" ->
        method (http request) = "POST" ->
        login_body request = Some body ->
        fst (login rt pc sg d (Worker.secret env) body (ACCOUNTS c))
        = Raise (Error "Invalid credentials") ->
        answer
        = (Ok (jsonResponse
                 (ServerErrorData (Error "Invalid credentials")) 500), c))
  /\ (method (http request) = "OPTIONS" -> answer = (Ok Preflight, c)).
Proof.
  intros answer routed. unfold answer.
  refine (conj _ (conj _ (conj _ (conj _ _)))).
  - intros e. unfold Worker.fetch.
    destruct (String.eqb (method (http request)) "OPTIONS"); [discriminate|].
    fold routed. destruct routed as [[[r|name forwarded]|e'] kv];
      try discriminate.
    destruct (fetch forwarded (Worker.stub cr env name c)) as [[r|] w'] eqn:F;
      [discriminate|].
    intros _. exists name, forwarded. rewrite F. split; reflexivity.
  - intros e Hm Hr. rewrite Worker_fetch_run by (apply String.eqb_neq; exact Hm).
    fold routed. destruct routed as [[r|e'] kv]; [discriminate|].
    cbn [fst] in Hr. injection Hr as ->. reflexivity.
  - intros body Hp Hm Hb Hi.
    rewrite Worker_fetch_run by (rewrite Hm; reflexivity).
    unfold Worker.route. cbv zeta. rewrite Hp, Hm, Hb.
    change (String.eqb "/api/accounts" "/health") with false.
    change (String.eqb "/api/accounts" "/api/accounts") with true.
    change (String.eqb "POST" "POST") with true.
    cbv beta iota delta [andb]. unfold kbind.
    rewrite (proj2 (createAccount_taken_iff rt pc d body (ACCOUNTS c)) Hi).
    destruct c; reflexivity.
  - intros body Hp Hm Hb Hl.
    rewrite Worker_fetch_run by (rewrite Hm; reflexivity).
    unfold Worker.route. cbv zeta. rewrite Hp, Hm, Hb.
    change (String.eqb "/api/login" "/health") with false.
    change (String.eqb "/api/login" "/api/accounts") with false.
    change (String.eqb "/api/login" "/api/login") with true.
    change (String.eqb "POST" "POST") with true.
    cbv beta iota delta [andb]. unfold kbind.
    destruct (login_Error_inv rt pc sg d (Worker.secret env) body
                (ACCOUNTS c) _ Hl) as [_ Hs].
    revert Hl Hs.
    destruct (login rt pc sg d (Worker.secret env) body (ACCOUNTS c))
      as [r kv]. cbn [fst snd]. intros -> ->. destruct c; reflexivity.
  - intro Hm. unfold Worker.fetch. rewrite Hm. reflexivity.
Qed.

(** X22 at the demo deployment: a second sign-up of Alice is answered
    500. *)
Lemma exceptions_are_answered_with_500_witness :
  let request :=
    mkIncoming (plain "POST" "/api/accounts" None)
               (Some (CreateAccountRequest.mk "ALICE@example.org" "other"))
               None None in
  Worker.fetch demo_runtime demo_password demo_signer demo_crypto
    demo_bindings demo_later request demo_cloud
  = (Ok (jsonResponse (ServerErrorData (Error "Account already exists")) 500),
     demo_cloud).
Proof.
  intros request.
  destruct (exceptions_are_answered_with_500 demo_runtime demo_password
              demo_signer demo_crypto demo_bindings demo_later request
              demo_cloud) as (_ & _ & H & _).
  apply (H (CreateAccountRequest.mk "ALICE@example.org" "other")
           eq_refl eq_refl eq_refl).
  vm_compute. discriminate.
Defined.

(** ** The protected routes *)

Lemma prefix_split p h :
  prefix p h = true -> h = (p ++ slice (String.length p) h)%string.
Proof.
  revert h. induction p as [|c r IH]; intro h.
  - intros _. unfold slice. simpl. rewrite Nat.sub_0_r, substring_all.
    reflexivity.
  - destruct h as [|c' h']; cbn [prefix]; [discriminate|].
    destruct (ascii_dec c c') as [<-|N]; [|discriminate].
    intro H. simpl. f_equal. exact (IH h' H).
Qed.

Lemma caller_iff cr env d request p :
  caller cr env d request = Some p
  <-> exists payloadB64 sigB64,
        authorization (http request)
        = Some ("Bearer " ++ payloadB64 ++ String "." sigB64)%string
        /\ has_char "." payloadB64 = false
        /\ has_char "." sigB64 = false
        /\ decode_payload cr payloadB64 = Some p
        /\ Date_now d / 1000 <= AuthToken.exp p
        /\ hmac_verify cr (Worker.secret env) sigB64 p = Some true.
Proof.
  unfold caller. split.
  - destruct (authorization (http request)) as [h|]; [|discriminate].
    destruct (prefix "Bearer " h) eqn:P; [|discriminate].
    destruct (present (Some (slice 7 h))) as [token|] eqn:T; [|discriminate].
    apply present_Some in T. destruct T as [T _]. injection T as T.
    destruct (verifyToken_run_any token (Worker.secret env) (isolate cr d))
      as [r V].
    rewrite V. cbn [fst]. intros ->.
    apply verifyToken_iff in V.
    destruct V as (a & b & E & Ha & Hb & D & X & S).
    exists a, b. rewrite (prefix_split "Bearer " h P).
    change (String.length "Bearer ") with 7%nat. rewrite T, E.
    repeat split; assumption.
  - intros (a & b & -> & Ha & Hb & D & X & S).
    rewrite (prefix_app "Bearer " (a ++ String "." b)).
    change 7%nat with (String.length "Bearer "). rewrite slice_app.
    assert (V : verifyToken (a ++ String "." b) (Worker.secret env)
                            (isolate cr d)
                = (Return (Some p), isolate cr d)).
    { apply verifyToken_iff. exists a, b. repeat split; assumption. }
    replace (present (Some (a ++ String "." b)%string))
      with (Some (a ++ String "." b)%string).
    + rewrite V. reflexivity.
    + symmetry. apply present_Some. split; [reflexivity|].
      destruct a; reflexivity.
Qed.

Lemma route_protected rt pc sg cr env d request kv :
  pathname (http request) = "/api/workspaces" ->
  method (http request) = "POST" \/ method (http request) = "GET" ->
  caller cr env d request = None ->
  Worker.route rt pc sg cr env d request kv
  = (Ok (Answer (jsonResponse (ErrorData "UNAUTHORIZED" "Invalid token") 401)),
     kv).
Proof.
  intros Hp Hm Hc. unfold Worker.route. cbv zeta. rewrite Hp.
  change (String.eqb "/api/workspaces" "/health") with false.
  change (String.eqb "/api/workspaces" "/api/accounts") with false.
  change (String.eqb "/api/workspaces" "/api/login") with false.
  change (String.eqb "/api/workspaces" "/api/workspaces") with true.
  cbv beta iota delta [andb].
  unfold caller in Hc.
  destruct Hm as [-> | ->].
  - change (String.eqb "POST" "POST") with true. cbv beta iota.
    destruct (authorization (http request)) as [h|]; [|reflexivity].
    destruct (prefix "Bearer " h); [|reflexivity].
    destruct (present (Some (slice 7 h))) as [token|]; [|reflexivity].
    rewrite Hc. reflexivity.
  - change (String.eqb "GET" "POST") with false.
    change (String.eqb "GET" "GET") with true. cbv beta iota.
    destruct (authorization (http request)) as [h|]; [|reflexivity].
    destruct (prefix "Bearer " h); [|reflexivity].
    destruct (present (Some (slice 7 h))) as [token|]; [|reflexivity].
    rewrite Hc. reflexivity.
Qed.

(** X23.  The workspace routes do nothing for a request without a valid
    bearer token: POST and GET of /api/workspaces are answered 401
    UNAUTHORIZED and the state is as before.  A request carries a valid
    token exactly when its Authorization header is "Bearer " followed by
    payload "." signature with no further dot, the payload decodes, its
    expiry is not before the current second, and the signature verifies
    under SYNC_SECRET, or under "dev-secret" when that is not set. *)
Theorem workspace_routes_need_a_valid_token
    (rt : Runtime) (pc : PasswordCrypto) (sg : TokenSigner) (cr : WebCrypto)
    (env : Bindings) (d : Draw) (request : Incoming) (c : Cloud) :
  pathname (http request) = "/api/workspaces" ->
  method (http request) = "POST" \/ method (http request) = "GET" ->
  (caller cr env d request = None ->
   Worker.fetch rt pc sg cr env d request c
   = (Ok (jsonResponse (ErrorData "UNAUTHORIZED" "Invalid token") 401), c))
  /\ (forall p,
        caller cr env d request = Some p
        <-> exists payloadB64 sigB64,
              authorization (http request)
              = Some ("Bearer " ++ payloadB64 ++ String "." sigB64)%string
              /\ has_char "." payloadB64 = false
              /\ has_char "." sigB64 = false
              /\ decode_payload cr payloadB64 = Some p
              /\ Date_now d / 1000 <= AuthToken.exp p
              /\ hmac_verify cr
                   (or_default (SYNC_SECRET (room_env env)) "dev-secret")
                   sigB64 p = Some true).
Proof.
  intros Hp Hm. split.
  - intro Hc. rewrite Worker_fetch_run
      by (destruct Hm as [-> | ->]; reflexivity).
    rewrite (route_protected rt pc sg cr env d request (ACCOUNTS c) Hp Hm Hc).
    destruct c; reflexivity.
  - intro p. apply caller_iff.
Qed.

(** X23 at the demo deployment: a POST of /api/workspaces whose token
    is signed under another secret is answered 401. *)
Lemma workspace_routes_need_a_valid_token_witness :
  let request :=
    mkIncoming (plain "POST" "/api/workspaces" (Some "Bearer u-1.other"))
               None None (Some "notes") in
  Worker.fetch demo_runtime demo_password demo_signer demo_crypto
    demo_bindings demo_later request demo_cloud
  = (Ok (jsonResponse (ErrorData "UNAUTHORIZED" "Invalid token") 401),
     demo_cloud).
Proof.
  intros request.
  destruct (workspace_routes_need_a_valid_token demo_runtime demo_password
              demo_signer demo_crypto demo_bindings demo_later request
              demo_cloud eq_refl (or_introl eq_refl)) as (H & _).
  apply H. vm_compute. reflexivity.
Defined.

Lemma kbind_run A B (m : K A) (k : A -> K B) kv :
  kbind m k kv
  = match m kv with
    | (Ok a, kv') => k a kv'
    | (Raise e, kv') => (Raise e, kv')
    end.
Proof. reflexivity. Qed.

Lemma kfor_of_listing rt ids acc kv :
  kfor_of ids
    (fun wsId workspaces =>
       kbind (kv_get ("workspace:" ++ wsId)%string)
         (fun wsJson =>
            match present wsJson with
            | Some wsJson =>
                match parse_workspace rt wsJson with
                | Some w => kret (workspaces ++ [w])
                | None => kraise PlatformException
                end
            | None => kret workspaces
            end)) acc kv
  = (match listing rt (entries kv) ids acc with
     | Some l => Ok l
     | None => Raise PlatformException
     end, kv).
Proof.
  revert acc. induction ids as [|i r IH]; intro acc; [reflexivity|].
  cbn [kfor_of listing]. unfold kbind at 1. unfold kbind at 1. unfold kv_get.
  destruct (present (lookup _ (entries kv))) as [j|]; [|apply IH].
  destruct (parse_workspace rt j); [apply IH | reflexivity].
Qed.

Lemma listing_app rt e l1 l2 acc :
  listing rt e (l1 ++ l2) acc
  = match listing rt e l1 acc with
    | Some x => listing rt e l2 x
    | None => None
    end.
Proof.
  revert acc. induction l1 as [|i r IH]; intro acc; [reflexivity|].
  cbn [app listing].
  destruct (present _) as [j|]; [|apply IH].
  destruct (parse_workspace rt j); [apply IH | reflexivity].
Qed.

Lemma listing_ext rt e e' ids acc :
  (forall i, In i ids ->
     lookup ("workspace:" ++ i)%string e' = lookup ("workspace:" ++ i)%string e) ->
  listing rt e' ids acc = listing rt e ids acc.
Proof.
  revert acc. induction ids as [|i r IH]; intros acc H; [reflexivity|].
  cbn [listing]. rewrite (H i (or_introl eq_refl)).
  assert (H' : forall k, In k r ->
            lookup ("workspace:" ++ k)%string e'
            = lookup ("workspace:" ++ k)%string e)
    by (intros k Hk; apply H; right; exact Hk).
  destruct (present _) as [j|]; [|apply IH; exact H'].
  destruct (parse_workspace rt j); [apply IH; exact H' | reflexivity].
Qed.

Lemma route_get_workspaces rt pc sg cr env d request kv p :
  pathname (http request) = "/api/workspaces" ->
  method (http request) = "GET" ->
  caller cr env d request = Some p ->
  Worker.route rt pc sg cr env d request kv
  = (match record_of (AuthToken.accountId p) kv with
     | None =>
         Ok (Answer (jsonResponse
                       (ErrorData "NOT_FOUND" "Account not found") 404))
     | Some json =>
         match parse_account rt json with
         | None => Raise PlatformException
         | Some a =>
             match listing rt (entries kv) (Account.workspaces a) [] with
             | Some l => Ok (Answer (jsonResponse (WorkspacesData l) 200))
             | None => Raise PlatformException
             end
         end
     end, kv).
Proof.
  intros Hp Hm Hc. unfold Worker.route. cbv zeta. rewrite Hp, Hm.
  change (String.eqb "/api/workspaces" "/health") with false.
  change (String.eqb "/api/workspaces" "/api/accounts") with false.
  change (String.eqb "/api/workspaces" "/api/login") with false.
  change (String.eqb "/api/workspaces" "/api/workspaces") with true.
  change (String.eqb "GET" "POST") with false.
  change (String.eqb "GET" "GET") with true.
  cbv beta iota delta [andb].
  unfold caller in Hc.
  destruct (authorization (http request)) as [h|]; [|discriminate].
  destruct (prefix "Bearer " h); [|discriminate].
  destruct (present (Some (slice 7 h))) as [token|]; [|discriminate].
  rewrite Hc. unfold kbind at 1. rewrite getAccount_run.
  destruct (record_of (AuthToken.accountId p) kv) as [json|]; [|reflexivity].
  destruct (parse_account rt json) as [a|]; [|reflexivity].
  rewrite kbind_run, kfor_of_listing.
  destruct (listing rt (entries kv) (Account.workspaces a) []); reflexivity.
Qed.

Lemma record_of_workspace_put id key value kv f :
  record_of id (mkKV ((("workspace:" ++ key)%string, value) :: entries kv) f)
  = record_of id kv.
Proof. reflexivity. Qed.

Lemma route_post_workspaces rt pc sg cr env d request kv p name json a :
  pathname (http request) = "/api/workspaces" ->
  method (http request) = "POST" ->
  caller cr env d request = Some p ->
  workspace_body request = Some name ->
  puts_ok kv ->
  record_of (AuthToken.accountId p) kv = Some json ->
  parse_account rt json = Some a ->
  let ws := new_workspace rt d (AuthToken.accountId p) name in
  Worker.route rt pc sg cr env d request kv
  = (Ok (Answer (jsonResponse (WorkspaceData ws) 200)),
     mkKV ((("account:" ++ AuthToken.accountId p)%string,
            stringify_account rt (Account.push_workspace (randomUUID d) a))
             :: (("workspace:" ++ randomUUID d)%string,
                 stringify_workspace rt ws)
             :: entries kv)
          (tl (tl (put_faults kv)))).
Proof.
  intros Hp Hm Hc Hb Ho Hr Ha ws. unfold Worker.route. cbv zeta.
  rewrite Hp, Hm, Hb.
  change (String.eqb "/api/workspaces" "/health") with false.
  change (String.eqb "/api/workspaces" "/api/accounts") with false.
  change (String.eqb "/api/workspaces" "/api/login") with false.
  change (String.eqb "/api/workspaces" "/api/workspaces") with true.
  change (String.eqb "POST" "POST") with true.
  cbv beta iota delta [andb].
  unfold caller in Hc.
  destruct (authorization (http request)) as [h|]; [|discriminate].
  destruct (prefix "Bearer " h); [|discriminate].
  destruct (present (Some (slice 7 h))) as [token|]; [|discriminate].
  rewrite Hc. fold (new_workspace rt d (AuthToken.accountId p) name). fold ws.
  unfold kbind at 1. rewrite (puts_ok_head kv Ho).
  unfold kbind at 1. rewrite getAccount_run, record_of_workspace_put, Hr, Ha.
  unfold kbind at 1.
  rewrite (puts_ok_head _ (puts_ok_tl kv _ Ho)). reflexivity.
Qed.

(** X24.  A workspace that was created is listed.  When a caller with a
    valid token, whose account has a record, posts a workspace and no
    write fails, the answer is the new workspace: its owner and only
    member is the account of the token, its version 0.  A later listing
    by the same account is the earlier listing followed by the new
    workspace, provided the identifier drawn is new to the account and
    the renderings of the two records written are read back. *)
Theorem created_workspace_is_listed
    (rt : Runtime) (pc : PasswordCrypto) (sg : TokenSigner) (cr : WebCrypto)
    (env : Bindings) (d d' : Draw) (post get : Incoming) (c : Cloud)
    (p p' : AuthToken.t) (name json : string) (a : Account.t)
    (before : list WorkspaceMeta.t) :
  let ws := new_workspace rt d (AuthToken.accountId p) name in
  let c1 := snd (Worker.fetch rt pc sg cr env d post c) in
  pathname (http post) = "/api/workspaces" ->
  method (http post) = "POST" ->
  workspace_body post = Some name ->
  caller cr env d post = Some p ->
  pathname (http get) = "/api/workspaces" ->
  method (http get) = "GET" ->
  caller cr env d' get = Some p' ->
  AuthToken.accountId p' = AuthToken.accountId p ->
  puts_ok (ACCOUNTS c) ->
  record_of (AuthToken.accountId p) (ACCOUNTS c) = Some json ->
  parse_account rt json = Some a ->
  ~ In (randomUUID d) (Account.workspaces a) ->
  codec_ok rt (Account.push_workspace (randomUUID d) a) ->
  workspace_codec_ok rt ws ->
  fst (Worker.fetch rt pc sg cr env d' get c)
  = Ok (jsonResponse (WorkspacesData before) 200) ->
  fst (Worker.fetch rt pc sg cr env d post c)
  = Ok (jsonResponse (WorkspaceData ws) 200)
  /\ WorkspaceMeta.ownerId ws = AuthToken.accountId p
  /\ WorkspaceMeta.members ws = [AuthToken.accountId p]
  /\ fst (Worker.fetch rt pc sg cr env d' get c1)
     = Ok (jsonResponse (WorkspacesData (before ++ [ws])) 200).
Proof.
  intros ws c1 Hp Hm Hb Hc Hp' Hm' Hc' Hid Ho Hr Ha Hnew [Ca Ta] [Cw Tw] Hbefore.
  assert (L : listing rt (entries (ACCOUNTS c)) (Account.workspaces a) []
              = Some before).
  { rewrite Worker_fetch_run in Hbefore by (rewrite Hm'; reflexivity).
    rewrite (route_get_workspaces rt pc sg cr env d' get (ACCOUNTS c) p'
               Hp' Hm' Hc'), Hid, Hr, Ha in Hbefore.
    destruct (listing rt (entries (ACCOUNTS c)) (Account.workspaces a) [])
      as [l|]; [|discriminate Hbefore].
    cbn [fst] in Hbefore. injection Hbefore as ->. reflexivity. }
  assert (P : Worker.fetch rt pc sg cr env d post c
              = (Ok (jsonResponse (WorkspaceData ws) 200),
                 mkCloud
                   (mkKV ((("account:" ++ AuthToken.accountId p)%string,
                           stringify_account rt
                             (Account.push_workspace (randomUUID d) a))
                            :: (("workspace:" ++ randomUUID d)%string,
                                stringify_workspace rt ws)
                            :: entries (ACCOUNTS c))
                         (tl (tl (put_faults (ACCOUNTS c)))))
                   (SYNC_ROOM c))).
  { rewrite Worker_fetch_run by (rewrite Hm; reflexivity).
    rewrite (route_post_workspaces rt pc sg cr env d post (ACCOUNTS c) p name
               json a Hp Hm Hc Hb Ho Hr Ha). reflexivity. }
  unfold c1. rewrite P. cbn [fst snd].
  refine (conj eq_refl (conj eq_refl (conj eq_refl _))).
  rewrite Worker_fetch_run by (rewrite Hm'; reflexivity).
  cbn [ACCOUNTS SYNC_ROOM].
  rewrite (route_get_workspaces rt pc sg cr env d' get _ p' Hp' Hm' Hc'), Hid.
  unfold record_of. cbn [entries]. rewrite lookup_same.
  replace (present (Some (stringify_account rt
                            (Account.push_workspace (randomUUID d) a))))
    with (Some (stringify_account rt
                  (Account.push_workspace (randomUUID d) a)))
    by (symmetry; apply present_Some; split; [reflexivity | exact Ta]).
  rewrite Ca. cbn [Account.workspaces Account.push_workspace].
  rewrite listing_app.
  rewrite (listing_ext rt (entries (ACCOUNTS c)) _ (Account.workspaces a) []).
  - rewrite L. cbn [listing].
    change (lookup ("workspace:" ++ randomUUID d)
              ((("account:" ++ AuthToken.accountId p)%string,
                stringify_account rt
                  (Account.push_workspace (randomUUID d) a))
                 :: (("workspace:" ++ randomUUID d)%string,
                     stringify_workspace rt ws) :: entries (ACCOUNTS c)))
      with (lookup ("workspace:" ++ randomUUID d)
              ((("workspace:" ++ randomUUID d)%string,
                stringify_workspace rt ws) :: entries (ACCOUNTS c))).
    rewrite lookup_same.
    replace (present (Some (stringify_workspace rt ws)))
      with (Some (stringify_workspace rt ws))
      by (symmetry; apply present_Some; split; [reflexivity | exact Tw]).
    rewrite Cw. reflexivity.
  - intros i Hi.
    change (lookup ("workspace:" ++ i)
              ((("account:" ++ AuthToken.accountId p)%string,
                stringify_account rt
                  (Account.push_workspace (randomUUID d) a))
                 :: (("workspace:" ++ randomUUID d)%string,
                     stringify_workspace rt ws) :: entries (ACCOUNTS c)))
      with (lookup ("workspace:" ++ i)
              ((("workspace:" ++ randomUUID d)%string,
                stringify_workspace rt ws) :: entries (ACCOUNTS c))).
    apply lookup_other. intro E.
    apply Hnew. simpl in E. injection E as E. rewrite E. exact Hi.
Qed.

(** X24 at the demo deployment: Alice creates the workspace "notes" and
    then lists her workspaces. *)
Lemma created_workspace_is_listed_witness :
  let d := mkDraw 2000 "w-1" demo_salt in
  let post :=
    mkIncoming (plain "POST" "/api/workspaces" (Some "Bearer u-1.k"))
               None None (Some "notes") in
  let get :=
    mkIncoming (plain "GET" "/api/workspaces" (Some "Bearer u-1.k"))
               None None None in
  fst (Worker.fetch demo_runtime demo_password demo_signer demo_crypto
         demo_bindings demo_later get
         (snd (Worker.fetch demo_runtime demo_password demo_signer
                 demo_crypto demo_bindings d post demo_cloud)))
  = Ok (jsonResponse
          (WorkspacesData
             [WorkspaceMeta.mk "w-1" "u-1" "notes" ["u-1"] 0 "2000"]) 200).
Proof.
  intros d post get.
  assert (P : puts_ok (ACCOUNTS demo_cloud)) by (intros b []).
  assert (N : ~ In (randomUUID d)
                (Account.workspaces
                   (new_account demo_runtime demo_password demo_draw
                                demo_signup)))
    by (intros []).
  assert (Ca : codec_ok demo_runtime
                 (Account.push_workspace (randomUUID d)
                    (new_account demo_runtime demo_password demo_draw
                                 demo_signup)))
    by (split; vm_compute; reflexivity).
  assert (Cw : workspace_codec_ok demo_runtime
                 (new_workspace demo_runtime d "u-1" "notes"))
    by (split; vm_compute; reflexivity).
  assert (B : fst (Worker.fetch demo_runtime demo_password demo_signer
                     demo_crypto demo_bindings demo_later get demo_cloud)
              = Ok (jsonResponse (WorkspacesData []) 200))
    by (vm_compute; reflexivity).
  assert (R : record_of "u-1" (ACCOUNTS demo_cloud)
              = Some (stringify_account demo_runtime
                        (new_account demo_runtime demo_password demo_draw
                                     demo_signup)))
    by (vm_compute; reflexivity).
  assert (A : parse_account demo_runtime
                (stringify_account demo_runtime
                   (new_account demo_runtime demo_password demo_draw
                                demo_signup))
              = Some (new_account demo_runtime demo_password demo_draw
                                  demo_signup))
    by (vm_compute; reflexivity).
  assert (C1 : caller demo_crypto demo_bindings d post
               = Some (AuthToken.mk "u-1" 4102444800 0))
    by (vm_compute; reflexivity).
  assert (C2 : caller demo_crypto demo_bindings demo_later get
               = Some (AuthToken.mk "u-1" 4102444800 0))
    by (vm_compute; reflexivity).
  destruct (created_workspace_is_listed demo_runtime demo_password
              demo_signer demo_crypto demo_bindings d demo_later post get
              demo_cloud _ _ "notes" _ _ []
              eq_refl eq_refl eq_refl C1 eq_refl eq_refl C2 eq_refl
              P R A N Ca Cw B) as (_ & _ & _ & H).
  etransitivity; [exact H|]. vm_compute. reflexivity.
Defined.

(** ** From the login to the room *)

Lemma token_payload_signed token w a b p :
  token = (a ++ String "." b)%string ->
  has_char "." a = false ->
  has_char "." b = false ->
  decode_payload (crypto w) a = Some p ->
  now w / 1000 <= AuthToken.exp p ->
  token_payload token w
  = match hmac_verify (crypto w) (secret_of w) b p with
    | Some true => Some p
    | _ => None
    end.
Proof.
  intros -> Ha Hb D X. unfold token_payload, verifyToken, gets. cbn [fst].
  rewrite (proj2 (split_two "." _ a b) (conj eq_refl (conj Ha Hb))), D.
  destruct (Z.ltb_spec (AuthToken.exp p) (now w / 1000)); [lia|].
  reflexivity.
Qed.

Lemma generateToken_Some sg accountId secret date_now token :
  generateToken sg accountId secret date_now = Some token ->
  let iat := date_now / 1000 in
  let p := AuthToken.mk accountId (iat + 604800) iat in
  exists payloadB64,
    encode_payload sg p = Some payloadB64
    /\ token = (payloadB64 ++ String "." (hmac_sign sg secret p))%string.
Proof.
  unfold generateToken. change (TOKEN_EXPIRY_HOURS * 3600) with 604800.
  cbv zeta. destruct (encode_payload sg _) as [e|]; [|discriminate].
  intro H. injection H as <-. exists e. split; reflexivity.
Qed.

(** X25.  The token of a login opens a room exactly when the room's
    secret verifies the Worker's signature.  The Worker signs under
    SYNC_SECRET, or under "dev-secret" when that is not set or empty; a
    room verifies under SYNC_SECRET, or under the empty secret.  So when
    SYNC_SECRET is set the two secrets are the same, and when it is not
    the Worker's is "dev-secret" and the room's is empty.  Within the
    token's seven days, and provided the room decodes the payload the
    Worker encoded, [handleAuth] with the token of a login gives the
    session the account of the login when the signature verifies, and
    answers AUTH_FAILED when it does not. *)
Theorem login_token_opens_the_room
    (rt : Runtime) (pc : PasswordCrypto) (sg : TokenSigner) (b : Bindings)
    (d : Draw) (body : LoginRequest.t) (kv : KVNamespace)
    (r : LoginResponse.t) (w : World) (ws : WebSocket) (s : Session.t) :
  let iat := Date_now d / 1000 in
  let p := AuthToken.mk (LoginResponse.accountId r) (iat + 604800) iat in
  let signature := hmac_sign sg (Worker.secret b) p in
  fst (login rt pc sg d (Worker.secret b) body kv) = Ok r ->
  env w = room_env b ->
  (forall payloadB64,
     encode_payload sg p = Some payloadB64 ->
     has_char "." payloadB64 = false
     /\ decode_payload (crypto w) payloadB64 = Some p) ->
  has_char "." signature = false ->
  now w / 1000 <= iat + 604800 ->
  Map_get ws (sessions w) = Some s ->
  (truthy_opt (SYNC_SECRET (room_env b)) = true ->
   secret_of w = Worker.secret b)
  /\ (truthy_opt (SYNC_SECRET (room_env b)) = false ->
      Worker.secret b = "dev-secret" /\ secret_of w = EmptyString)
  /\ (hmac_verify (crypto w) (secret_of w) signature p = Some true ->
      handleAuth ws s (LoginResponse.token r) w
      = (Return tt,
         emit (SendTo ws
                 (ServerMessage.authenticated (LoginResponse.accountId r))
                 (negb (is_closed ws w)))
              (with_sessions
                 (Map_set ws
                    (Session.set_identity (LoginResponse.accountId r)
                       ("site-" ++ LoginResponse.accountId r ++ "-"
                        ++ decimal (now w))%string s)
                    (sessions w)) w)))
  /\ (hmac_verify (crypto w) (secret_of w) signature p <> Some true ->
      handleAuth ws s (LoginResponse.token r) w
      = (Return tt,
         emit (SendTo ws
                 (ServerMessage.error "AUTH_FAILED" "Invalid or expired token")
                 (negb (is_closed ws w))) w)).
Proof.
  intros iat p signature Hl He Hc Hs Hn Hm.
  destruct (login_Ok_inv rt pc sg d (Worker.secret b) body kv r Hl)
    as (json & a & _ & _ & _ & _ & G & _).
  destruct (generateToken_Some _ _ _ _ _ G) as (e & E & T).
  fold iat in E, T. fold p in E, T. fold signature in T.
  destruct (Hc e E) as [Hd D].
  pose proof (token_payload_signed (LoginResponse.token r) w e signature p
                T Hd Hs D Hn) as P.
  refine (conj _ (conj _ (conj _ _))).
  - unfold secret_of, Worker.secret. rewrite He.
    destruct (SYNC_SECRET (room_env b)) as [x|]; [|discriminate].
    simpl. intros ->. reflexivity.
  - unfold secret_of, Worker.secret. rewrite He.
    destruct (SYNC_SECRET (room_env b)) as [x|]; [|split; reflexivity].
    simpl. intros ->. split; reflexivity.
  - intro V. rewrite V in P.
    apply (handleAuth_ok ws s s (LoginResponse.token r) p w Hm P).
  - intro V. apply handleAuth_failed. rewrite P.
    destruct (hmac_verify (crypto w) (secret_of w) signature p) as [[|]|];
      [contradiction V; reflexivity | reflexivity | reflexivity].
Qed.

(** X25 with the toy primitives: the token of Alice's login authenticates
    a socket that has connected to a room. *)
Lemma login_token_opens_the_room_witness :
  let d := mkDraw 500 "u-2" demo_salt in
  let r := LoginResponse.mk "u-1.k" "u-1" "604800500" in
  let w := run [Platform 1000 [] []; Serve (Fetch upgrade_request)]
               (start demo_env window_crypto) in
  let s := Session.mk EmptyString EmptyString None 1000 1000 in
  fst (login demo_runtime demo_password demo_signer d
             (Worker.secret demo_bindings) demo_login demo_accounts) = Ok r
  /\ option_map Session.accountId
       (Map_get 1%nat
          (sessions (snd (handleAuth 1%nat s (LoginResponse.token r) w))))
     = Some "u-1".
Proof.
  intros d r w s.
  assert (L : fst (login demo_runtime demo_password demo_signer d
                         (Worker.secret demo_bindings) demo_login
                         demo_accounts) = Ok r)
    by (vm_compute; reflexivity).
  assert (C : forall payloadB64,
            encode_payload demo_signer
              (AuthToken.mk (LoginResponse.accountId r)
                            (Date_now d / 1000 + 604800) (Date_now d / 1000))
            = Some payloadB64 ->
            has_char "." payloadB64 = false
            /\ decode_payload (crypto w) payloadB64
               = Some (AuthToken.mk (LoginResponse.accountId r)
                         (Date_now d / 1000 + 604800) (Date_now d / 1000))).
  { intros e E. vm_compute in E. injection E as <-.
    split; vm_compute; reflexivity. }
  assert (N : now w / 1000 <= Date_now d / 1000 + 604800)
    by (vm_compute; discriminate).
  assert (M : Map_get 1%nat (sessions w) = Some s)
    by (vm_compute; reflexivity).
  destruct (login_token_opens_the_room demo_runtime demo_password demo_signer
              demo_bindings d demo_login demo_accounts r w 1%nat s
              L eq_refl C eq_refl N M) as (_ & _ & H & _).
  split; [exact L|].
  rewrite H by (vm_compute; reflexivity).
  vm_compute. reflexivity.
Defined.
